(** * Automation Readiness Score: the scoring engine of [app.js]

    The file embeds [clamp], [volumeSubscore] and [calculateReadiness] of
    [src/app.js] together with the constant tables they read, and proves the
    properties the specification states about them.

    JavaScript numbers are IEEE-754 binary64 values.  They are modelled by
    the Standard Library's [spec_float] at precision 53 and maximal
    exponent 1024, with its round-to-nearest-even operations, so that every
    arithmetic step of the source is reproduced bit for bit.  The only
    operation the language leaves to the engine, [Math.log10], is a
    parameter of the model.

    Layout: the embedding of the source; the notions the statements and
    proofs use; a small theory of binary64 arithmetic (every operation is
    the exact result rounded, rounding is monotone, comparison is
    comparison of values); the properties of the scoring engine. *)

From Stdlib Require Import Reals Lra.
From Stdlib Require Import ZArith List Bool String Ascii Lia Znumtheory.
From Stdlib Require Import QArith Qround.
From Stdlib Require Import SpecFloat.
From Stdlib Require Import Sorting.Permutation Sorting.Sorted.
Import ListNotations.

Local Open Scope Z_scope.

(** ** JavaScript numbers *)

Module Number.

Definition prec : Z := 53.
Definition emax : Z := 1024.

(** A JavaScript [number]. *)
Definition number : Type := spec_float.

Definition valid (x : number) : bool := valid_binary prec emax x.

Definition NaN : number := S754_nan.
Definition Infinity : number := S754_infinity false.

Definition add (x y : number) : number := SFadd prec emax x y.
Definition sub (x y : number) : number := SFsub prec emax x y.
Definition mul (x y : number) : number := SFmul prec emax x y.
Definition div (x y : number) : number := SFdiv prec emax x y.

(** The relational operators [<], [<=], [>], [>=]; all are false on NaN. *)
Definition ltb (x y : number) : bool := SFltb x y.
Definition leb (x y : number) : bool := SFleb x y.
Definition gtb (x y : number) : bool := SFltb y x.
Definition geb (x y : number) : bool := SFleb y x.

(** An integer literal. *)
Definition of_Z (z : Z) : number := binary_normalize prec emax z 0 false.

(** A decimal literal [n/d]: the binary64 value nearest to the quotient
    (correctly rounded division of two exactly represented integers). *)
Definition of_Q (q : Q) : number := div (of_Z (Qnum q)) (of_Z (Zpos (Qden q))).

(** [Math.min] and [Math.max] of two arguments: NaN is contagious and
    [-0] is smaller than [+0]. *)
Definition Math_min (x y : number) : number :=
  match x, y with
  | S754_nan, _ | _, S754_nan => S754_nan
  | S754_zero sx, S754_zero sy => S754_zero (sx || sy)
  | _, _ => if ltb y x then y else x
  end.

Definition Math_max (x y : number) : number :=
  match x, y with
  | S754_nan, _ | _, S754_nan => S754_nan
  | S754_zero sx, S754_zero sy => S754_zero (sx && sy)
  | _, _ => if ltb x y then y else x
  end.

(** [Math.round]: the integral number closest to [x], the one closer to
    [+Infinity] on a tie; NaN, the infinities and the zeros are returned
    unchanged, and a negative argument that rounds to zero gives [-0]. *)
Definition Math_round (x : number) : number :=
  match x with
  | S754_finite s m e =>
      if 0 <=? e then x
      else
        let k := (2 * (if s then Z.neg m else Z.pos m) + 2 ^ (- e)) / 2 ^ (- e + 1) in
        binary_normalize prec emax k 0 s
  | _ => x
  end.

End Number.

Import Number.

(** ** Objects and arrays *)

(** A JavaScript object literal is an association list in insertion order,
    the order [Object.entries] enumerates. *)
Fixpoint lookup {A : Type} (key : string) (o : list (string * A)) : option A :=
  match o with
  | [] => None
  | (k, v) :: o' => if String.eqb key k then Some v else lookup key o'
  end.

(** [xs.map(f)] for an [f] that may throw: the first failure aborts. *)
Fixpoint mapM {A B : Type} (f : A -> option B) (xs : list A) : option (list B) :=
  match xs with
  | [] => Some []
  | x :: xs' =>
      match f x with
      | None => None
      | Some y =>
          match mapM f xs' with
          | None => None
          | Some ys => Some (y :: ys)
          end
      end
  end.

(** [Array.prototype.sort(comparefn)].  The sort is stable, and an element
    [x] moves behind [y] exactly when [comparefn(x, y) > 0]; a comparator
    result that is zero, negative or NaN leaves the earlier element first.
    For a comparator that orders the elements consistently this is the
    result of every conforming engine. *)
Section Sort.
Context {A : Type} (comparefn : A -> A -> number).

Fixpoint insert (x : A) (l : list A) : list A :=
  match l with
  | [] => [x]
  | y :: l' => if gtb (comparefn x y) (of_Z 0) then y :: insert x l' else x :: l
  end.

Definition sort (l : list A) : list A := fold_right insert [] l.
End Sort.

(** [xs.slice(0, n)] *)
Definition slice0 {A : Type} (n : nat) (xs : list A) : list A := firstn n xs.

(** ** Constants of [app.js] *)

(** The weight literals, as written. *)
Definition WEIGHTS : list (string * Q) :=
  [ ("stableProcess", 2 # 10);
    ("lowExceptions", 2 # 10);
    ("dataQuality", 2 # 10);
    ("systemAccess", 15 # 100);
    ("lowComplianceRisk", 15 # 100);
    ("volumePotential", 1 # 10) ]%string.

(** Reading a weight gives the number the literal denotes; a missing
    property would read as [undefined], which is NaN in arithmetic. *)
Definition weight (key : string) : number :=
  match lookup key WEIGHTS with
  | Some q => of_Q q
  | None => NaN
  end.

Module Hint.
Record t : Type := mk { reason : string; hint : string }.
End Hint.

Definition BLOCKER_HINTS : list (string * Hint.t) :=
  [ ("stableProcess",
      Hint.mk "High Process Variance"
        "Standardize steps, document SOPs, and reduce branching or edge cases.");
    ("lowExceptions",
      Hint.mk "High Exception Rate"
        "Perform root-cause analysis on exceptions, add decision tables, or redesign inputs.");
    ("dataQuality",
      Hint.mk "Low Data Quality"
        "Add validation, enrichment layers, define golden records, or implement MDM.");
    ("systemAccess",
      Hint.mk "Low System Access"
        "Expose APIs, create service accounts, remove MFA for service principals, or use RPA as a last resort.");
    ("lowComplianceRisk",
      Hint.mk "High Compliance Sensitivity"
        "Minimize data usage, pseudonymize PII, add Human-in-the-Loop (HITL) checks, and enhance audit logging.");
    ("volumePotential",
      Hint.mk "Low Volume / Payoff"
        "A pilot is still possible. Consider combining adjacent processes to reach scale.") ]%string.

Definition MIN_GAP_THRESHOLD : number := of_Z 15.

(** ** Records *)

Record Inputs : Type := mkInputs {
  processVolume : number;
  variance : number;
  exceptionRate : number;
  dataQuality : number;
  systemAccess : number;
  complianceSensitivity : number
}.

Record Blocker : Type := mkBlocker {
  factor : string;
  reason : string;
  hint : string;
  gap : number;
  subscore : number
}.

Record Output : Type := mkOutput {
  readinessScore : number;
  band : string;
  topBlockers : list Blocker;
  narrative : string
}.

(** ** Core calculation logic *)

(** [clamp(value, min, max) = Math.max(min, Math.min(max, value))] *)
Definition clamp (value min max : number) : number :=
  Math_max min (Math_min max value).

Definition narrative_Red : string :=
  "This process has significant blockers. Focus on fundamentals before automating.".
Definition narrative_Green : string :=
  "This process is a strong candidate for automation. Proceed with detailed analysis.".
Definition narrative_Yellow : string :=
  "This process shows potential but has clear blockers. Address top issues to improve readiness.".

Section Calculation.

(** [Math.log10] is approximated by the engine; the model takes it as
    given. *)
Variable Math_log10 : number -> number.

Definition volumeSubscore (processVolume : number) : number :=
  if leb processVolume (of_Z 0) then of_Z 0
  else
    let v := Math_log10 (add processVolume (of_Z 1)) in
    let scaled := mul v (of_Q (315 # 10)) in
    clamp scaled (of_Z 0) (of_Z 95).

(** The object literal [subscores] of [calculateReadiness]. *)
Definition subscores (inputs : Inputs) : list (string * number) :=
  [ ("stableProcess", sub (of_Z 100) (variance inputs));
    ("lowExceptions", sub (of_Z 100) (exceptionRate inputs));
    ("dataQuality", dataQuality inputs);
    ("systemAccess", systemAccess inputs);
    ("lowComplianceRisk", sub (of_Z 100) (complianceSensitivity inputs));
    ("volumePotential", volumeSubscore (processVolume inputs)) ]%string.

(** Reading a property of [subscores]. *)
Definition get (o : list (string * number)) (key : string) : number :=
  match lookup key o with
  | Some v => v
  | None => NaN
  end.

(** The weighted sum [score], before rounding. *)
Definition score (inputs : Inputs) : number :=
  let s := subscores inputs in
  add (add (add (add (add
    (mul (get s "stableProcess") (weight "stableProcess"))
    (mul (get s "lowExceptions") (weight "lowExceptions")))
    (mul (get s "dataQuality") (weight "dataQuality")))
    (mul (get s "systemAccess") (weight "systemAccess")))
    (mul (get s "lowComplianceRisk") (weight "lowComplianceRisk")))
    (mul (get s "volumePotential") (weight "volumePotential")).

(** The band and the narrative chosen for a rounded score. *)
Definition bandOf (readinessScore : number) : string * string :=
  if geb readinessScore (of_Z 75) then ("Green"%string, narrative_Green)
  else if geb readinessScore (of_Z 50) then ("Yellow"%string, narrative_Yellow)
  else ("Red"%string, narrative_Red).

(** The callback of [Object.entries(subscores).map]; reading [.reason] of
    a missing table entry would throw a TypeError, rendered as [None]. *)
Definition toBlocker (entry : string * number) : option Blocker :=
  let '(key, subscore) := entry in
  let maxScore := if String.eqb key "volumePotential" then of_Z 95 else of_Z 100 in
  let gap := sub maxScore subscore in
  match lookup key BLOCKER_HINTS with
  | None => None
  | Some h =>
      Some {| factor := key;
              reason := Hint.reason h;
              hint := Hint.hint h;
              gap := gap;
              subscore := subscore |}
  end.

Definition allBlockers (inputs : Inputs) : option (list Blocker) :=
  mapM toBlocker (subscores inputs).

(** The comparator [(a, b) => b.gap - a.gap]. *)
Definition byGapDesc (a b : Blocker) : number := sub (gap b) (gap a).

Definition selectTop (all : list Blocker) : list Blocker :=
  slice0 4 (sort byGapDesc (filter (fun b => gtb (gap b) MIN_GAP_THRESHOLD) all)).

Definition calculateReadiness (inputs : Inputs) : option Output :=
  let readinessScore := Math_round (score inputs) in
  let '(band, narrative) := bandOf readinessScore in
  match allBlockers inputs with
  | None => None
  | Some all =>
      Some {| readinessScore := readinessScore;
              band := band;
              topBlockers := selectTop all;
              narrative := narrative |}
  end.

End Calculation.

(** ** The module's state

    The module of [app.js] binds two constant tables to objects, which
    any code could write to, and keeps the last inputs and output in two
    variables; its procedures write to the page, the address bar and the
    storage.  A world holds all of it: what a function of the module can
    read or change besides its arguments. *)

(** Calls of the procedures that act on the browser, with their
    arguments. *)
Module Effect.
Inductive t : Type :=
| showValidationError (fieldName message : string)
| updateUI (output : Output)
| setStateToLocalStorage (inputs : list (string * number))
| setStateToURL (inputs : list (string * number))
| setInputsToForm (inputs : list (string * number)).
End Effect.

Module World.
Record t : Type := mk {
  WEIGHTS : list (string * number);
  BLOCKER_HINTS : list (string * Hint.t);
  lastInputs : list (string * number);
  lastOutput : option Output;
  effects : list Effect.t
}.
End World.

(** The world once the module is loaded: the tables as declared,
    [lastInputs] and [lastOutput] the empty object, nothing done yet. *)
Definition initial_world : World.t :=
  {| World.WEIGHTS := map (fun kq => (fst kq, of_Q (snd kq))) WEIGHTS;
     World.BLOCKER_HINTS := BLOCKER_HINTS;
     World.lastInputs := [];
     World.lastOutput := None;
     World.effects := [] |}.

(** The functions of the module as computations on the world: a call
    returns a value and the world it leaves, or throws. *)
Module Stateful.

Definition M (A : Type) : Type := World.t -> option (A * World.t).

Definition ret {A : Type} (a : A) : M A := fun w => Some (a, w).

Definition bind {A B : Type} (m : M A) (f : A -> M B) : M B :=
  fun w => match m w with
           | None => None
           | Some (a, w') => f a w'
           end.

Notation "x <- m ;; k" := (bind m (fun x => k))
  (at level 61, m at next level, right associativity).

(** [WEIGHTS[key]]: a missing property reads as [undefined], which is
    NaN in arithmetic. *)
Definition WEIGHTS_get (key : string) : M number :=
  fun w => Some (get (World.WEIGHTS w) key, w).

(** [BLOCKER_HINTS[key].reason] and [BLOCKER_HINTS[key].hint]: reading a
    property of a missing entry throws a TypeError. *)
Definition BLOCKER_HINTS_get (key : string) : M Hint.t :=
  fun w => match lookup key (World.BLOCKER_HINTS w) with
           | Some h => Some (h, w)
           | None => None
           end.

(** [xs.map(f)] for a callback that runs in the world. *)
Fixpoint map_ {A B : Type} (f : A -> M B) (xs : list A) : M (list B) :=
  match xs with
  | [] => ret []
  | x :: xs' => y <- f x ;; ys <- map_ f xs' ;; ret (y :: ys)
  end.

Section Calculation.

Variable Math_log10 : number -> number.

(** The weighted sum: each subscore times the weight read from the
    table, the six products added left to right. *)
Definition score (subscores : list (string * number)) : M number :=
  w1 <- WEIGHTS_get "stableProcess" ;;
  w2 <- WEIGHTS_get "lowExceptions" ;;
  w3 <- WEIGHTS_get "dataQuality" ;;
  w4 <- WEIGHTS_get "systemAccess" ;;
  w5 <- WEIGHTS_get "lowComplianceRisk" ;;
  w6 <- WEIGHTS_get "volumePotential" ;;
  ret (add (add (add (add (add
    (mul (get subscores "stableProcess") w1)
    (mul (get subscores "lowExceptions") w2))
    (mul (get subscores "dataQuality") w3))
    (mul (get subscores "systemAccess") w4))
    (mul (get subscores "lowComplianceRisk") w5))
    (mul (get subscores "volumePotential") w6)).

(** The callback of [Object.entries(subscores).map]. *)
Definition toBlocker (entry : string * number) : M Blocker :=
  let '(key, subscore) := entry in
  let maxScore := if String.eqb key "volumePotential" then of_Z 95 else of_Z 100 in
  let gap := sub maxScore subscore in
  r <- BLOCKER_HINTS_get key ;;
  h <- BLOCKER_HINTS_get key ;;
  ret {| factor := key;
         reason := Hint.reason r;
         hint := Hint.hint h;
         gap := gap;
         subscore := subscore |}.

Definition calculateReadiness (inputs : Inputs) : M Output :=
  let subscores := subscores Math_log10 inputs in
  score <- score subscores ;;
  let readinessScore := Math_round score in
  let '(band, narrative) := bandOf readinessScore in
  allBlockers <- map_ toBlocker subscores ;;
  ret {| readinessScore := readinessScore;
         band := band;
         topBlockers := selectTop allBlockers;
         narrative := narrative |}.

End Calculation.

End Stateful.

(** The two tables hold what the module declares.  No statement of
    [app.js] assigns to a property of [WEIGHTS] or [BLOCKER_HINTS]. *)
Definition constants_intact (w : World.t) : Prop :=
  World.WEIGHTS w = World.WEIGHTS initial_world /\
  World.BLOCKER_HINTS w = World.BLOCKER_HINTS initial_world.

(** A world later in a session: a calculation has been stored and the
    page updated. *)
Definition later_world (inputs : list (string * number)) (output : Output)
  : World.t :=
  {| World.WEIGHTS := World.WEIGHTS initial_world;
     World.BLOCKER_HINTS := World.BLOCKER_HINTS initial_world;
     World.lastInputs := inputs;
     World.lastOutput := Some output;
     World.effects := [ Effect.updateUI output;
                        Effect.setStateToLocalStorage inputs;
                        Effect.setStateToURL inputs;
                        Effect.setInputsToForm inputs ] |}.

(** ** Auxiliary notions for the proofs *)

(** *** Values and classes of numbers *)

(** [2^1024], in units of [2^-1074]: the first magnitude that overflows. *)
Definition OV : Z := 2 ^ 2098.

(** The value of a number in units of [2^-1074], the smallest positive
    binary64 number; an infinity counts as [2^1024]. *)
Definition xv (x : number) : Z :=
  match x with
  | S754_zero _ => 0
  | S754_nan => 0
  | S754_infinity s => cond_Zopp s OV
  | S754_finite s m e => cond_Zopp s (Z.pos m * 2 ^ (e + 1074))
  end.

(** One, in units of [2^-1074]. *)
Definition u : Z := 2 ^ 1074.

Definition pv (m : positive) (e : Z) : Z := Z.pos m * 2 ^ (e + 1074).

Definition nonnan (x : number) : bool :=
  match x with S754_nan => false | _ => true end.

Definition finite (x : number) : bool :=
  match x with S754_zero _ | S754_finite _ _ _ => true | _ => false end.

Definition fin (x : number) : bool := valid x && finite x.

(** [nle x y]: both are finite numbers and [0 <= x <= y]. *)
Definition nle (x y : number) : Prop :=
  fin x = true /\ fin y = true /\ 0 <= xv x <= xv y.

(** [is_integer x k]: the number [x] is the integer [k]. *)
Definition is_integer (x : number) (k : Z) : Prop :=
  fin x = true /\ xv x = k * u.

(** The exact rational value of a finite number. *)
Definition to_Q (x : number) : Q := xv x # Z.to_pos u.

(** *** Rounding to nearest, ties to even *)

(** A shift register [(m, r, s)] of [SpecFloat] read as one integer: the
    mantissa followed by the round bit and the sticky bit. *)
Definition code (r : shr_record) : Z :=
  4 * shr_m r + 2 * Z.b2z (shr_r r) + Z.b2z (shr_s r).

(** Shifting a code right by [n] places, the last bit collecting every
    bit shifted out. *)
Definition jam (T n : Z) : Z :=
  2 * (T / 2 ^ (n + 1)) + (if T mod 2 ^ (n + 1) =? 0 then 0 else 1).

(** The rounding decision on a code. *)
Definition R4 (T : Z) : Z :=
  let q := T / 4 in
  let c := T mod 4 in
  if c <? 2 then q
  else if c =? 2 then (if Z.even q then q else q + 1)
  else q + 1.

(** [rsh N n]: [N / 2^n] rounded to nearest, ties to even. *)
Definition rsh (N n : Z) : Z := R4 (jam (4 * N) n).

Abbreviation fexp64 := (fexp 53 1024).

Definition two52 : positive := Eval vm_compute in Z.to_pos (2 ^ 52).

(** The result [binary_round_aux] builds from a rounded mantissa [M] at
    exponent [fe]. *)
Definition finish (s : bool) (M fe : Z) : number :=
  if M =? 0 then S754_zero s
  else if M =? 2 ^ 53 then
    (if fe + 1 <=? 971 then S754_finite s two52 (fe + 1) else S754_infinity s)
  else if fe <=? 971 then S754_finite s (Z.to_pos M) fe else S754_infinity s.

(** The number of binary digits of a positive integer. *)
Definition dg (N : Z) : Z := Z.log2 N + 1.

(** [RN K N]: the integer [N], counting units of [2^-K], rounded to the
    nearest binary64 value (ties to even, unbounded exponent). *)
Definition RN (K N : Z) : Z :=
  let n := Z.max (dg N - 53) (K - 1074) in rsh N n * 2 ^ n.

(** Rounding with overflow to infinity, at scale [K]. *)
Definition RNo (K N : Z) : Z := Z.min (RN K N) (2 ^ (1024 + K)).

(** Signed rounding with overflow, in units of [2^-1074]. *)
Definition RNs (N : Z) : Z := Z.sgn N * RNo 1074 (Z.abs N).

(** Signed rounding of a product, counted in units of [2^-2148]. *)
Definition RNs2 (N : Z) : Z := Z.sgn N * RNo 2148 (Z.abs N).

(** ** Input domain *)

(** A number between 0 and 100. *)
Definition percent (x : number) : bool :=
  valid x && leb (of_Z 0) x && leb x (of_Z 100).

(** The documented ranges of the six inputs: [processVolume] is any
    non-negative number, the five others lie between 0 and 100.  (The
    caller also rounds them to integers; no property below needs that.) *)
Definition in_domain (i : Inputs) : bool :=
  valid (processVolume i) && leb (of_Z 0) (processVolume i)
  && percent (variance i) && percent (exceptionRate i)
  && percent (dataQuality i) && percent (systemAccess i)
  && percent (complianceSensitivity i).

(** Every field is a binary64 value (true of every JavaScript number). *)
Definition valid_inputs (i : Inputs) : bool :=
  valid (processVolume i) && valid (variance i) && valid (exceptionRate i)
  && valid (dataQuality i) && valid (systemAccess i)
  && valid (complianceSensitivity i).

(** [Math.log10] returns a number other than NaN at [processVolume + 1]. *)
Definition log10_defined (Math_log10 : number -> number) (i : Inputs) : bool :=
  let y := Math_log10 (add (processVolume i) (of_Z 1)) in
  valid y && nonnan y.

(** [Math.log10] returns numbers at [p + 1] and [p' + 1], the second not
    below the first. *)
Definition log10_monotone_at (Math_log10 : number -> number) (p p' : number) : bool :=
  valid (Math_log10 (add p (of_Z 1))) && valid (Math_log10 (add p' (of_Z 1)))
  && leb (Math_log10 (add p (of_Z 1))) (Math_log10 (add p' (of_Z 1))).

(** [improves i i']: no input of [i'] is less favourable than in [i]. *)
Definition improves (i i' : Inputs) : bool :=
  leb (processVolume i) (processVolume i')
  && leb (variance i') (variance i)
  && leb (exceptionRate i') (exceptionRate i)
  && leb (dataQuality i) (dataQuality i')
  && leb (systemAccess i) (systemAccess i')
  && leb (complianceSensitivity i') (complianceSensitivity i).

(** ** The specification's wording of the score *)

(** Rounding to the nearest integer, halves up. *)
Definition round_half_up (q : Q) : Z := Qfloor (q + (1 # 2)).

(** The sum of the six products of [score], for given subscores. *)
Definition weighted (s1 s2 s3 s4 s5 s6 : number) : number :=
  add (add (add (add (add
    (mul s1 (weight "stableProcess"))
    (mul s2 (weight "lowExceptions")))
    (mul s3 (weight "dataQuality")))
    (mul s4 (weight "systemAccess")))
    (mul s5 (weight "lowComplianceRisk")))
    (mul s6 (weight "volumePotential")).

(** The six subscores multiplied by the weights and summed, in exact
    arithmetic on the weights as written. *)
Definition exact_weighted_sum (s : list (string * number)) : Q :=
  fold_right Qplus 0%Q
    (map (fun '(key, w) => (to_Q (get s key) * w)%Q) WEIGHTS).

(** The maximal attainable subscore of a factor. *)
Definition maxScore (key : string) : number :=
  if String.eqb key "volumePotential" then of_Z 95 else of_Z 100.

(** The six factor names, in declaration order. *)
Definition factors : list string :=
  [ "stableProcess"; "lowExceptions"; "dataQuality"; "systemAccess";
    "lowComplianceRisk"; "volumePotential" ]%string.

(** Descending order of gaps. *)
Definition gap_ge (a b : Blocker) : Prop := leb (gap b) (gap a) = true.

(** ** Sample data *)

(** A table of [Math.log10] results at a few arguments; other arguments
    give NaN. *)
Definition log10_table : list (number * number) :=
  [ (of_Z 51, S754_finite false 7690212408783638 (-52));
    (of_Z 101, S754_finite false 4513330496049115 (-51));
    (of_Z 1001, S754_finite false 6756376896642799 (-51));
    (of_Z 5001, S754_finite false 8329535535881578 (-51));
    (of_Z 10001, S754_finite false 4503648522137470 (-50)) ].

Definition log10_sample (x : number) : number :=
  match find (fun e => SFeqb (fst e) x) log10_table with
  | Some e => snd e
  | None => NaN
  end.

Definition inputs_of (pv v e dq sa c : Z) : Inputs :=
  mkInputs (of_Z pv) (of_Z v) (of_Z e) (of_Z dq) (of_Z sa) (of_Z c).

(** The default inputs of the form. *)
Definition DEFAULT_INPUTS : Inputs := inputs_of 1000 20 10 70 60 30.

(** Every field at its worst value. *)
Definition worst_inputs : Inputs := inputs_of 0 100 100 0 0 100.

(** Every field at its best value, for a given volume. *)
Definition best_inputs (volume : number) : Inputs :=
  mkInputs volume (of_Z 0) (of_Z 0) (of_Z 100) (of_Z 100) (of_Z 0).

(** The shortfall of a factor: its maximum minus its subscore. *)
Definition gapOf (Math_log10 : number -> number) (i : Inputs) (key : string) : number :=
  sub (maxScore key) (get (subscores Math_log10 i) key).

(** ** The accuracy of [Math.log10] *)

(** The real value of a finite number. *)
Definition F2R (x : number) : R := (IZR (xv x) / IZR u)%R.

(** The decimal logarithm of a positive real. *)
Definition log10R (r : R) : R := (ln r / ln 10)%R.

(** [Math.log10] is accurate at [x]: it returns [+Infinity] at
    [+Infinity] and, at a finite [x], a finite number within [1/128] of
    the decimal logarithm of [x].  (Engines are accurate to a few units in
    the last place; the bound asked here is deliberately loose.) *)
Definition log10_accurate (Math_log10 : number -> number) (x : number) : Prop :=
  valid (Math_log10 x) = true /\
  match x with
  | S754_infinity false => Math_log10 x = Infinity
  | _ => finite (Math_log10 x) = true /\
         (Rabs (F2R (Math_log10 x) - log10R (F2R x)) <= / 128)%R
  end.
(** ** The weights as numbers *)

(** [x] is a finite number nearest to the rational [q]: no finite number
    [y] is closer.  The distances [|x - q|] and [|y - q|] are compared
    after multiplication by the denominator of [q] and by [2^1074]. *)
Definition nearest_binary64 (q : Q) (x : number) : Prop :=
  fin x = true /\
  forall y : number, fin y = true ->
    Z.abs (xv x * QDen q - Qnum q * u) <= Z.abs (xv y * QDen q - Qnum q * u).

(** ** Further notions used in the statements *)

(** The band and narrative of an integral score. *)
Definition band_of_int (k : Z) : string * string :=
  if 75 <=? k then ("Green"%string, narrative_Green)
  else if 50 <=? k then ("Yellow"%string, narrative_Yellow)
  else ("Red"%string, narrative_Red).

(** A gap that passed the threshold test is a number. *)
Definition gap_ok (b : Blocker) : Prop :=
  valid (gap b) = true /\ nonnan (gap b) = true.

(** The input with subscores 0, 0, 0, 1, 9, 0: the exact weighted sum is
    0.15 + 1.35 = 1.5, which rounds half up to 2; in binary64,
    9 * 0.15 is 1.3499999999999999 and the sum 1.4999999999999998, which
    [Math.round] takes to 1. *)
Definition half_inputs : Inputs := inputs_of 0 100 100 0 1 91.

(** * The rest of [app.js]: validation, form state, URL state, start-up

    The functions below read the page (the form, the address bar, the
    canvas) through browser interfaces.  Their embedding takes what the
    browser hands over as an argument and returns what the function hands
    back: [FormData] and [URLSearchParams] are lists of name-value pairs,
    the calls of [showValidationError] are collected in a list. *)

(** ** Values and objects *)

(** [Number.isNaN] *)
Definition Number_isNaN (x : number) : bool :=
  match x with S754_nan => true | _ => false end.

(** Truthiness of a number: NaN, [+0] and [-0] are falsy. *)
Definition truthy (x : number) : bool :=
  match x with S754_nan | S754_zero _ => false | _ => true end.

(** [x === y] on numbers. *)
Definition strict_eq (x y : number) : bool := SFeqb x y.

(** The assignment [o[key] = v]: an existing property keeps its place. *)
Fixpoint assign {A : Type} (o : list (string * A)) (key : string) (v : A)
  : list (string * A) :=
  match o with
  | [] => [(key, v)]
  | (k, w) :: o' =>
      if String.eqb k key then (k, v) :: o' else (k, w) :: assign o' key v
  end.

(** Object spread [{ ...target, ...source }]: the properties of [source]
    are assigned one after the other. *)
Definition spread {A : Type} (target source : list (string * A))
  : list (string * A) :=
  fold_left (fun o kv => assign o (fst kv) (snd kv)) source target.

(** [Object.entries] of an object with the six input fields. *)
Definition entries (i : Inputs) : list (string * number) :=
  [ ("processVolume", processVolume i);
    ("variance", variance i);
    ("exceptionRate", exceptionRate i);
    ("dataQuality", dataQuality i);
    ("systemAccess", systemAccess i);
    ("complianceSensitivity", complianceSensitivity i) ]%string.

(** An object read as [Inputs], field by field. *)
Definition asInputs (o : list (string * number)) : Inputs :=
  {| processVolume := get o "processVolume";
     variance := get o "variance";
     exceptionRate := get o "exceptionRate";
     dataQuality := get o "dataQuality";
     systemAccess := get o "systemAccess";
     complianceSensitivity := get o "complianceSensitivity" |}.

(** ** Constants *)

Module Constraint.
Record t : Type := mk { min : number; max : number }.
End Constraint.

Definition INPUT_CONSTRAINTS : list (string * Constraint.t) :=
  [ ("processVolume", Constraint.mk (of_Z 0) Infinity);
    ("variance", Constraint.mk (of_Z 0) (of_Z 100));
    ("exceptionRate", Constraint.mk (of_Z 0) (of_Z 100));
    ("dataQuality", Constraint.mk (of_Z 0) (of_Z 100));
    ("systemAccess", Constraint.mk (of_Z 0) (of_Z 100));
    ("complianceSensitivity", Constraint.mk (of_Z 0) (of_Z 100)) ]%string.

Module Validation.
Record t : Type := mk { valid : bool; message : string }.
End Validation.

(** [Math.PI], the binary64 number closest to pi. *)
Definition Math_PI : number := S754_finite false 7074237752028440 (-51).

(** ** URLSearchParams *)

Definition URLSearchParams : Type := list (string * string).

Definition params_has (params : URLSearchParams) (name : string) : bool :=
  existsb (fun p => String.eqb (fst p) name) params.

(** [params.get(name)]: the first value of that name, or [null]. *)
Definition params_get (params : URLSearchParams) (name : string) : option string :=
  lookup name params.

(** [params.set(name, value)]: the first pair of that name takes the
    value and the others of that name are removed; without one the pair
    is appended. *)
Fixpoint params_set (params : URLSearchParams) (name value : string)
  : URLSearchParams :=
  match params with
  | [] => [(name, value)]
  | (n, v) :: rest =>
      if String.eqb n name
      then (n, value) :: filter (fun p => negb (String.eqb (fst p) name)) rest
      else (n, v) :: params_set rest name value
  end.

(** The local constant [mapping] of [getStateFromURL]. *)
Definition mapping : list (string * string) :=
  [ ("pv", "processVolume");
    ("v", "variance");
    ("e", "exceptionRate");
    ("dq", "dataQuality");
    ("sa", "systemAccess");
    ("c", "complianceSensitivity") ]%string.

Section App.

(** Three things come from the engine: the conversion of a number to a
    string (in a template literal and in [params.set]), [parseInt] with
    radix 10, and the names every object inherits from
    [Object.prototype], such as [toString]. *)
Variable Number_toString : number -> string.
Variable parseInt10 : string -> number.
Variable inherited : string -> bool.
Variable Math_log10 : number -> number.

(** ** Validation *)

(** For an inherited name, [INPUT_CONSTRAINTS[name]] is a function or
    an object without [min] and [max]: it is truthy, and both
    comparisons with [undefined] are false. *)
Definition validateInput (name : string) (value : number) : Validation.t :=
  match lookup name INPUT_CONSTRAINTS with
  | Some constraints =>
      if Number_isNaN value then
        Validation.mk false "Please enter a valid number"
      else if ltb value (Constraint.min constraints) then
        Validation.mk false
          ("Value must be at least " ++ Number_toString (Constraint.min constraints))
      else if gtb value (Constraint.max constraints) then
        Validation.mk false
          ("Value must be at most " ++ Number_toString (Constraint.max constraints))
      else Validation.mk true ""
  | None =>
      if inherited name && Number_isNaN value then
        Validation.mk false "Please enter a valid number"
      else Validation.mk true ""
  end%string.

(** ** Form state *)

(** The callback of [Object.keys(DEFAULT_INPUTS).forEach] in
    [getInputsFromForm], for one key: the value stored in [inputs] and
    the message passed to [showValidationError].  [data.get] gives
    [null] for a missing field, which [parseInt] reads as the string
    [null].  Every key of [DEFAULT_INPUTS] has constraints; reading
    [min] of [undefined] would throw. *)
Definition readField (data : list (string * string)) (key : string)
  : option (number * string) :=
  let parsed :=
    parseInt10 (match lookup key data with Some s => s | None => "null"%string end) in
  let value := if truthy parsed then parsed else of_Z 0 in
  match lookup key INPUT_CONSTRAINTS with
  | None => None
  | Some constraints =>
      let clampedValue :=
        clamp value (Constraint.min constraints)
          (if strict_eq (Constraint.max constraints) Infinity
           then value else Constraint.max constraints) in
      let rounded := Math_round clampedValue in
      let validation := validateInput key rounded in
      Some (rounded,
            if negb (Validation.valid validation)
            then Validation.message validation else ""%string)
  end.

(** The loop over the keys, threading [inputs] and the messages shown. *)
Fixpoint forEachKey (data : list (string * string)) (keys : list string)
    (inputs : list (string * number)) (shown : list (string * string))
  : option (list (string * number) * list (string * string)) :=
  match keys with
  | [] => Some (inputs, shown)
  | key :: keys' =>
      match readField data key with
      | None => None
      | Some (v, msg) =>
          forEachKey data keys' (assign inputs key v) (shown ++ [(key, msg)])
      end
  end.

(** [getInputsFromForm]: the object returned and the calls of
    [showValidationError], in order. *)
Definition getInputsFromForm (data : list (string * string))
  : option (list (string * number) * list (string * string)) :=
  forEachKey data (map fst (entries DEFAULT_INPUTS)) [] [].

(** ** URL state *)

(** [getStateFromURL], from the parameters of the address. *)
Definition getStateFromURL (params : URLSearchParams) : list (string * number) :=
  fold_left
    (fun inputs pk =>
       let '(param, key) := pk in
       if params_has params param then
         let value :=
           parseInt10 (match params_get params param with
                       | Some s => s
                       | None => "null"%string
                       end) in
         if negb (Number_isNaN value) then assign inputs key value else inputs
       else inputs)
    mapping [].

(** [setStateToURL]: the parameters put into the address. *)
Definition setStateToURL (inputs : Inputs) : URLSearchParams :=
  let params := [] in
  let params := params_set params "pv" (Number_toString (processVolume inputs)) in
  let params := params_set params "v" (Number_toString (variance inputs)) in
  let params := params_set params "e" (Number_toString (exceptionRate inputs)) in
  let params := params_set params "dq" (Number_toString (dataQuality inputs)) in
  let params := params_set params "sa" (Number_toString (systemAccess inputs)) in
  params_set params "c" (Number_toString (complianceSensitivity inputs)).

(** ** Running the calculation *)

(** [runCalculation]: the inputs read from the form and the output
    shown for them. *)
Definition runCalculation (data : list (string * string))
  : option (list (string * number) * Output) :=
  match getInputsFromForm data with
  | None => None
  | Some (inputs, _) =>
      match calculateReadiness Math_log10 (asInputs inputs) with
      | None => None
      | Some output => Some (inputs, output)
      end
  end.

End App.

(** ** The session: procedures that change the module's state *)

Module Session.

Section Run.

Variable Number_toString : number -> string.
Variable parseInt10 : string -> number.
Variable inherited : string -> bool.
Variable Math_log10 : number -> number.

(** A call of a procedure acting on the browser. *)
Definition call (e : Effect.t) : Stateful.M unit :=
  fun w => Some (tt, {| World.WEIGHTS := World.WEIGHTS w;
                        World.BLOCKER_HINTS := World.BLOCKER_HINTS w;
                        World.lastInputs := World.lastInputs w;
                        World.lastOutput := World.lastOutput w;
                        World.effects := World.effects w ++ [e] |}).

Fixpoint calls (es : list Effect.t) : Stateful.M unit :=
  match es with
  | [] => Stateful.ret tt
  | e :: es' => Stateful.bind (call e) (fun _ => calls es')
  end.

(** The assignments [lastInputs = inputs; lastOutput = output]. *)
Definition assign_last (inputs : list (string * number)) (output : Output)
  : Stateful.M unit :=
  fun w => Some (tt, {| World.WEIGHTS := World.WEIGHTS w;
                        World.BLOCKER_HINTS := World.BLOCKER_HINTS w;
                        World.lastInputs := inputs;
                        World.lastOutput := Some output;
                        World.effects := World.effects w |}).

(** [getInputsFromForm] in the world: its calls of
    [showValidationError] are effects; [data] is what the form holds. *)
Definition getInputsFromForm (data : list (string * string))
  : Stateful.M (list (string * number)) :=
  fun w =>
    match getInputsFromForm Number_toString parseInt10 inherited data with
    | None => None
    | Some (inputs, shown) =>
        Stateful.bind
          (calls (map (fun km => Effect.showValidationError (fst km) (snd km)) shown))
          (fun _ => Stateful.ret inputs) w
    end.

(** [runCalculation], for the form contents [data]. *)
Definition runCalculation (data : list (string * string)) : Stateful.M unit :=
  Stateful.bind (getInputsFromForm data) (fun inputs =>
  Stateful.bind (Stateful.calculateReadiness Math_log10 (asInputs inputs)) (fun output =>
  Stateful.bind (assign_last inputs output) (fun _ =>
  Stateful.bind (call (Effect.updateUI output)) (fun _ =>
  Stateful.bind (call (Effect.setStateToLocalStorage inputs)) (fun _ =>
  Stateful.bind (call (Effect.setStateToURL inputs)) (fun _ =>
  call (Effect.setInputsToForm inputs))))))).

(** A session: [runCalculation] once for each state of the form, as
    the user edits it. *)
Fixpoint runs (forms : list (list (string * string))) : Stateful.M unit :=
  match forms with
  | [] => Stateful.ret tt
  | data :: forms' => Stateful.bind (runCalculation data) (fun _ => runs forms')
  end.

End Run.

End Session.

(** ** Start-up *)

Section Init.

(** The values stored under [STORAGE_KEY] are whatever [JSON.parse]
    gives; [num] makes a number such a value. *)
Context {V : Type} (num : number -> V).

(** [initialInputs] of [init]: defaults, overridden by the saved state,
    overridden by the state of the address.  [localState] is [null] or
    the own properties of the parsed value. *)
Definition initialInputs (localState : option (list (string * V)))
    (urlState : list (string * number)) : list (string * V) :=
  spread
    (spread (map (fun kv => (fst kv, num (snd kv))) (entries DEFAULT_INPUTS))
            (match localState with Some o => o | None => [] end))
    (map (fun kv => (fst kv, num (snd kv))) urlState).

End Init.

(** ** Rendering *)

(** The end angle of the coloured arc in [drawGauge]. *)
Definition gaugeAngle (score : number) : number :=
  add Math_PI (mul (div score (of_Z 100)) Math_PI).

(** The [innerHTML] of the list items [updateUI] appends to the
    blockers list. *)
Definition no_blockers_item : string :=
  "<strong>No significant blockers found!</strong><span>This process appears to be highly ready for automation.</span>".

Definition blockerItems (output : Output) : list string :=
  match topBlockers output with
  | [] => [ no_blockers_item ]
  | bs =>
      map (fun b => ("<strong>" ++ reason b ++ "</strong><span>" ++ hint b ++ "</span>")%string) bs
  end.

(** ** Sample conversions for the examples

    [parseInt_sample] reads a string made of an optional minus sign and
    decimal digits, whatever follows them: it gives the integer, or NaN
    when there is no digit.  [toString_sample] prints NaN, the
    infinities and the integers below [10^21] as [String(x)] does; it is
    not meant for other numbers, for which it gives the empty string.
    The examples use such strings and numbers only. *)

Definition digit_value (c : ascii) : option Z :=
  let n := Z.of_nat (nat_of_ascii c) in
  if (48 <=? n) && (n <=? 57) then Some (n - 48) else None.

Fixpoint leading_digits (s : string) (acc : option Z) : option Z :=
  match s with
  | EmptyString => acc
  | String c s' =>
      match digit_value c with
      | Some d =>
          leading_digits s'
            (Some (10 * (match acc with Some a => a | None => 0 end) + d))
      | None => acc
      end
  end.

Definition parseInt_sample (s : string) : number :=
  match s with
  | EmptyString => NaN
  | String c s' =>
      if Ascii.eqb c "-"
      then match leading_digits s' None with
           | Some n => SFopp (of_Z n)
           | None => NaN
           end
      else match leading_digits s None with
           | Some n => of_Z n
           | None => NaN
           end
  end.

Fixpoint decimal_digits (fuel : nat) (n : Z) (acc : string) : string :=
  match fuel with
  | O => acc
  | S fuel' =>
      let acc' := String (ascii_of_nat (48 + Z.to_nat (n mod 10))) acc in
      if n / 10 =? 0 then acc' else decimal_digits fuel' (n / 10) acc'
  end.

(** The integer a number is, if it is one. *)
Definition integer_value (x : number) : option Z :=
  match x with
  | S754_zero _ => Some 0
  | S754_finite s m e =>
      if 0 <=? e then Some (cond_Zopp s (Z.pos m * 2 ^ e))
      else if Z.pos m mod 2 ^ (- e) =? 0
           then Some (cond_Zopp s (Z.pos m / 2 ^ (- e)))
           else None
  | _ => None
  end.

Definition toString_sample (x : number) : string :=
  match x with
  | S754_nan => "NaN"%string
  | S754_infinity s => if s then "-Infinity"%string else "Infinity"%string
  | _ =>
      match integer_value x with
      | Some k =>
          if k <? 0 then String "-" (decimal_digits 400 (- k) EmptyString)
          else decimal_digits 400 k EmptyString
      | None => EmptyString
      end
  end.

(** A form as the page sends it, with one field out of range and one
    that is not a number. *)
Definition sample_form : list (string * string) :=
  [ ("processVolume", "5000");
    ("variance", "150");
    ("exceptionRate", "-3");
    ("dataQuality", "abc");
    ("systemAccess", "60");
    ("complianceSensitivity", "30") ]%string.

(** The same form once [setInputsToForm] has written the stored values
    back. *)
Definition stored_form : list (string * string) :=
  [ ("processVolume", "5000");
    ("variance", "100");
    ("exceptionRate", "0");
    ("dataQuality", "0");
    ("systemAccess", "60");
    ("complianceSensitivity", "30") ]%string.

(** ** Stored field values *)

(** The values a percentage field and the volume field can hold once
    [getInputsFromForm] has clamped and rounded them. *)
Definition stored_percent (r : number) : Prop :=
  exists k : Z, 0 <= k <= 100 /\ r = of_Z k.

Definition stored_volume (r : number) : Prop :=
  r = Infinity \/ r = of_Z 0 \/ exists k : Z, 0 < k /\ is_integer r k.

(** The key [getStateFromURL] fills from a parameter of the address,
    and the parameter [setStateToURL] writes for a key. *)
Definition key_of_param (param : string) : option string := lookup param mapping.

Definition param_of_key (key : string) : option string :=
  match find (fun pk => String.eqb (snd pk) key) mapping with
  | Some pk => Some (fst pk)
  | None => None
  end.

(** ** Order of the blockers *)

(** The place of a key in a list of keys. *)
Fixpoint index_of (key : string) (l : list string) : nat :=
  match l with
  | [] => O
  | k :: l' => if String.eqb key k then O else S (index_of key l')
  end.

(** [a] comes from a factor declared before the factor of [b]. *)
Definition declared_before (a b : Blocker) : Prop :=
  (index_of (factor a) factors < index_of (factor b) factors)%nat.

(** [a] has the larger gap, or the same gap and the earlier factor. *)
Definition ranks_before (a b : Blocker) : Prop :=
  gtb (gap a) (gap b) = true \/
  (strict_eq (gap a) (gap b) = true /\ declared_before a b).

(** Some input is NaN; for the volume, [Math.log10] must pass NaN on,
    as the language requires. *)
Definition some_input_NaN (Math_log10 : number -> number) (i : Inputs) : bool :=
  Number_isNaN (variance i) || Number_isNaN (exceptionRate i)
  || Number_isNaN (dataQuality i) || Number_isNaN (systemAccess i)
  || Number_isNaN (complianceSensitivity i)
  || (Number_isNaN (processVolume i) && Number_isNaN (Math_log10 NaN)).

(** The integers from 0 to 100. *)
Definition scores_0_100 : list Z := map Z.of_nat (seq 0 101).

(** The five fields on a scale from 0 to 100. *)
Definition percent_fields : list string :=
  [ "variance"; "exceptionRate"; "dataQuality"; "systemAccess";
    "complianceSensitivity" ]%string.

(** * Theorems *)

(** ** Binary64 arithmetic *)

(** *** Binary digits *)

Lemma digits2_pos_bounds (m : positive) :
  2 ^ (Z.pos (digits2_pos m) - 1) <= Z.pos m < 2 ^ Z.pos (digits2_pos m).
Proof.
  induction m as [m IH|m IH|]; cbn [digits2_pos].
  - rewrite Pos2Z.inj_succ, (Pos2Z.inj_xI m).
    replace (Z.succ (Z.pos (digits2_pos m)) - 1) with (Z.succ (Z.pos (digits2_pos m) - 1)) by lia.
    rewrite !Z.pow_succ_r by lia. lia.
  - rewrite Pos2Z.inj_succ, (Pos2Z.inj_xO m).
    replace (Z.succ (Z.pos (digits2_pos m)) - 1) with (Z.succ (Z.pos (digits2_pos m) - 1)) by lia.
    rewrite !Z.pow_succ_r by lia. lia.
  - cbn. lia.
Qed.

Lemma pow2_lt_inv (a b : Z) : 0 <= a -> 0 <= b -> 2 ^ a < 2 ^ b -> a < b.
Proof. intros Ha Hb H. apply (Z.pow_lt_mono_r_iff 2); lia. Qed.

Lemma digits2_pos_unique (m : positive) (k : Z) :
  2 ^ (k - 1) <= Z.pos m < 2 ^ k -> 1 <= k -> Z.pos (digits2_pos m) = k.
Proof.
  intros [H1 H2] Hk. pose proof (digits2_pos_bounds m) as [B1 B2].
  assert (Z.pos (digits2_pos m) - 1 < k).
  { apply pow2_lt_inv; lia. }
  assert (k - 1 < Z.pos (digits2_pos m)).
  { apply pow2_lt_inv; lia. }
  lia.
Qed.

(** *** The shift register of [SpecFloat]

    One step of [shr_1] halves the code and keeps the bit it drops in the
    sticky bit; [n] steps are one sticky shift by [n]. *)

Lemma shr_1_code (r : shr_record) :
  0 <= shr_m r -> code (shr_1 r) = jam (code r) 1 /\ 0 <= shr_m (shr_1 r).
Proof.
  destruct r as [m r s]. unfold code, jam. cbn [shr_m shr_r shr_s]. intros Hm.
  change (2 ^ (1 + 1)) with 4.
  destruct m as [|p|p]; [| |lia].
  - destruct r, s; cbn; lia.
  - destruct p as [p|p|]; cbn [shr_1 shr_m shr_r shr_s].
    + rewrite (Pos2Z.inj_xI p).
      destruct r, s; cbn [orb Z.b2z];
        (split; [|lia]);
        match goal with |- context [?a mod 4 =? 0] =>
          destruct (Z.eqb_spec (a mod 4) 0) as [E|E] end; Z.div_mod_to_equations; lia.
    + rewrite (Pos2Z.inj_xO p).
      destruct r, s; cbn [orb Z.b2z];
        (split; [|lia]);
        match goal with |- context [?a mod 4 =? 0] =>
          destruct (Z.eqb_spec (a mod 4) 0) as [E|E] end; Z.div_mod_to_equations; lia.
    + destruct r, s; cbn; lia.
Qed.

Lemma jam_jam (T a b : Z) :
  0 <= T -> 0 <= a -> 0 <= b -> jam (jam T a) b = jam T (a + b).
Proof.
  intros HT Ha Hb. unfold jam.
  set (P := 2 ^ (a + 1)). set (B := 2 ^ b).
  assert (HP : 0 < P) by (apply Z.pow_pos_nonneg; lia).
  assert (HB : 0 < B) by (apply Z.pow_pos_nonneg; lia).
  replace (2 ^ (b + 1)) with (2 * B) by (unfold B; rewrite Z.pow_add_r by lia; lia).
  replace (2 ^ (a + b + 1)) with (P * B)
    by (unfold P, B; rewrite <- Z.pow_add_r by lia; f_equal; lia).
  pose proof (Z.div_mod T P ltac:(lia)) as D1.
  pose proof (Z.mod_pos_bound T P HP) as M1.
  set (q := T / P) in *. set (r := T mod P) in *.
  pose proof (Z.div_mod q B ltac:(lia)) as D2.
  pose proof (Z.mod_pos_bound q B HB) as M2.
  set (q2 := q / B) in *. set (r2 := q mod B) in *.
  set (t := if r =? 0 then 0 else 1).
  assert (Ht : 0 <= t <= 1 /\ (t = 0 <-> r = 0)).
  { unfold t. destruct (Z.eqb_spec r 0); lia. }
  assert (E1 : T / (P * B) = q2).
  { symmetry. apply Z.div_unique_pos with (P * r2 + r); nia. }
  assert (E2 : T mod (P * B) = P * r2 + r).
  { symmetry. apply Z.mod_unique_pos with q2; nia. }
  assert (E3 : (2 * q + t) / (2 * B) = q2).
  { symmetry. apply Z.div_unique_pos with (2 * r2 + t); nia. }
  assert (E4 : (2 * q + t) mod (2 * B) = 2 * r2 + t).
  { symmetry. apply Z.mod_unique_pos with q2; nia. }
  rewrite E1, E2, E3, E4.
  destruct (Z.eqb_spec (2 * r2 + t) 0), (Z.eqb_spec (P * r2 + r) 0); nia.
Qed.

Lemma jam_nonneg (T n : Z) : 0 <= T -> 0 <= n -> 0 <= jam T n.
Proof.
  intros HT Hn. unfold jam.
  assert (0 <= T / 2 ^ (n + 1)) by (apply Z.div_pos; [lia | apply Z.pow_pos_nonneg; lia]).
  destruct (_ =? 0); lia.
Qed.

Lemma code_nonneg (r : shr_record) : 0 <= shr_m r -> 0 <= code r.
Proof. unfold code. destruct (shr_r r), (shr_s r); cbn [Z.b2z]; lia. Qed.

Lemma iter_pos_shr_1 (p : positive) :
  forall r, 0 <= shr_m r ->
    code (SpecFloat.iter_pos shr_1 p r) = jam (code r) (Z.pos p) /\ 0 <= shr_m (SpecFloat.iter_pos shr_1 p r).
Proof.
  induction p as [p IH|p IH|]; intros r Hr; cbn [SpecFloat.iter_pos].
  - destruct (shr_1_code r Hr) as [E1 N1].
    destruct (IH _ N1) as [E2 N2]. destruct (IH _ N2) as [E3 N3].
    split; [|exact N3].
    rewrite E3, E2, E1.
    pose proof (code_nonneg r Hr).
    rewrite !jam_jam; try lia.
    + f_equal. rewrite (Pos2Z.inj_xI p). lia.
    + apply jam_nonneg; lia.
  - destruct (IH _ Hr) as [E2 N2]. destruct (IH _ N2) as [E3 N3].
    split; [|exact N3].
    rewrite E3, E2. pose proof (code_nonneg r Hr).
    rewrite jam_jam by lia. f_equal. rewrite (Pos2Z.inj_xO p). lia.
  - apply shr_1_code; exact Hr.
Qed.

Lemma round_nearest_even_code (r : shr_record) :
  round_nearest_even (shr_m r) (loc_of_shr_record r) = R4 (code r).
Proof.
  destruct r as [m r s]. unfold code, R4. cbn [shr_m shr_r shr_s].
  destruct r, s; cbn [loc_of_shr_record round_nearest_even Z.b2z].
  - replace ((4 * m + 2 * 1 + 1) / 4) with m by (Z.div_mod_to_equations; lia).
    replace ((4 * m + 2 * 1 + 1) mod 4) with 3 by (Z.div_mod_to_equations; lia).
    reflexivity.
  - replace ((4 * m + 2 * 1 + 0) / 4) with m by (Z.div_mod_to_equations; lia).
    replace ((4 * m + 2 * 1 + 0) mod 4) with 2 by (Z.div_mod_to_equations; lia).
    reflexivity.
  - replace ((4 * m + 2 * 0 + 1) / 4) with m by (Z.div_mod_to_equations; lia).
    replace ((4 * m + 2 * 0 + 1) mod 4) with 1 by (Z.div_mod_to_equations; lia).
    reflexivity.
  - replace ((4 * m + 2 * 0 + 0) / 4) with m by (Z.div_mod_to_equations; lia).
    replace ((4 * m + 2 * 0 + 0) mod 4) with 0 by (Z.div_mod_to_equations; lia).
    reflexivity.
Qed.

(** *** Rounding is monotone and exact on multiples *)

Lemma R4_mono (T T' : Z) : T <= T' -> R4 T <= R4 T'.
Proof.
  intros H. unfold R4.
  pose proof (Z.div_mod T 4 ltac:(lia)). pose proof (Z.mod_pos_bound T 4 ltac:(lia)).
  pose proof (Z.div_mod T' 4 ltac:(lia)). pose proof (Z.mod_pos_bound T' 4 ltac:(lia)).
  set (q := T / 4) in *. set (c := T mod 4) in *.
  set (q' := T' / 4) in *. set (c' := T' mod 4) in *.
  destruct (Z.ltb_spec c 2), (Z.ltb_spec c' 2),
    (Z.eqb_spec c 2), (Z.eqb_spec c' 2);
    destruct (Z.even q) eqn:Eq; destruct (Z.even q') eqn:Eq'; try lia.
  all: destruct (Z.eq_dec q q') as [E|E]; [rewrite E in Eq; congruence | lia].
Qed.

Lemma jam_mono (T T' n : Z) : 0 <= n -> T <= T' -> jam T n <= jam T' n.
Proof.
  intros Hn H. unfold jam.
  assert (HP : 0 < 2 ^ (n + 1)) by (apply Z.pow_pos_nonneg; lia).
  set (P := 2 ^ (n + 1)) in *.
  pose proof (Z.div_mod T P ltac:(lia)). pose proof (Z.mod_pos_bound T P HP).
  pose proof (Z.div_mod T' P ltac:(lia)). pose proof (Z.mod_pos_bound T' P HP).
  assert (T / P <= T' / P) by (apply Z.div_le_mono; lia).
  destruct (Z.eqb_spec (T mod P) 0), (Z.eqb_spec (T' mod P) 0); try lia.
  assert (T / P <> T' / P); [|lia].
  intros E. rewrite E in *. lia.
Qed.

Lemma rsh_mono (N N' n : Z) : 0 <= n -> N <= N' -> rsh N n <= rsh N' n.
Proof. intros. apply R4_mono, jam_mono; lia. Qed.

Lemma rsh_exact (c n : Z) : 0 <= n -> rsh (c * 2 ^ n) n = c.
Proof.
  intros Hn. unfold rsh, jam.
  assert (HP : 0 < 2 ^ n) by (apply Z.pow_pos_nonneg; lia).
  replace (4 * (c * 2 ^ n)) with ((2 * c) * 2 ^ (n + 1))
    by (rewrite Z.pow_add_r by lia; change (2 ^ 1) with 2; lia).
  rewrite Z.div_mul, Z.mod_mul by (rewrite Z.pow_add_r by lia; lia).
  cbn [Z.eqb]. replace (2 * (2 * c) + 0) with (c * 4) by lia.
  unfold R4. rewrite Z.div_mul, Z.mod_mul by lia. reflexivity.
Qed.

Lemma rsh_scale (N n j : Z) : 0 <= n -> 0 <= j -> rsh (N * 2 ^ j) (n + j) = rsh N n.
Proof.
  intros Hn Hj. unfold rsh, jam. f_equal.
  assert (HJ : 0 < 2 ^ j) by (apply Z.pow_pos_nonneg; lia).
  assert (HP : 0 < 2 ^ (n + 1)) by (apply Z.pow_pos_nonneg; lia).
  replace (2 ^ (n + j + 1)) with (2 ^ (n + 1) * 2 ^ j)
    by (rewrite <- Z.pow_add_r by lia; f_equal; lia).
  replace (4 * (N * 2 ^ j)) with (4 * N * 2 ^ j) by lia.
  rewrite Z.div_mul_cancel_r by lia.
  rewrite Z.mul_mod_distr_r by lia.
  destruct (Z.eqb_spec ((4 * N) mod 2 ^ (n + 1)) 0) as [E|E].
  - rewrite E. reflexivity.
  - destruct (Z.eqb_spec ((4 * N) mod 2 ^ (n + 1) * 2 ^ j) 0); [nia|reflexivity].
Qed.

Lemma rsh_0 (N : Z) : rsh N 0 = N.
Proof. replace N with (N * 2 ^ 0) at 1 by (cbn; lia). apply rsh_exact. lia. Qed.

Lemma rsh_bounds (N n : Z) : 0 <= n -> N / 2 ^ n <= rsh N n <= N / 2 ^ n + 1.
Proof.
  intros Hn.
  assert (HP : 0 < 2 ^ n) by (apply Z.pow_pos_nonneg; lia).
  pose proof (Z.div_mod N (2 ^ n) ltac:(lia)). pose proof (Z.mod_pos_bound N (2 ^ n) HP).
  split.
  - apply Z.le_trans with (rsh (N / 2 ^ n * 2 ^ n) n).
    + rewrite rsh_exact by lia. lia.
    + apply rsh_mono; lia.
  - apply Z.le_trans with (rsh ((N / 2 ^ n + 1) * 2 ^ n) n).
    + apply rsh_mono; lia.
    + rewrite rsh_exact by lia. lia.
Qed.

Lemma jam_0 (T : Z) : jam T 0 = T.
Proof.
  unfold jam. change (2 ^ (0 + 1)) with 2.
  destruct (Z.eqb_spec (T mod 2) 0); Z.div_mod_to_equations; lia.
Qed.

Lemma fexp_eq (x : Z) : fexp64 x = Z.max (x - 53) (-1074).
Proof. reflexivity. Qed.

Lemma shr_nonpos (r : shr_record) (e n : Z) : n <= 0 -> shr r e n = (r, e).
Proof. destruct n; [reflexivity|lia|reflexivity]. Qed.

(** Shifting an exact mantissa down by [n] places and rounding. *)
Lemma shr_round (N e n : Z) :
  0 <= N -> 0 <= n ->
  let '(r, e') := shr (shr_record_of_loc N loc_Exact) e n in
  round_nearest_even (shr_m r) (loc_of_shr_record r) = rsh N n /\ e' = e + n.
Proof.
  intros HN Hn. cbn [shr_record_of_loc].
  destruct n as [|p|p]; [| |lia]; cbn [shr].
  - rewrite round_nearest_even_code. unfold rsh, code. cbn [shr_m shr_r shr_s Z.b2z].
    rewrite jam_0. split; [f_equal; lia | lia].
  - destruct (iter_pos_shr_1 p {| shr_m := N; shr_r := false; shr_s := false |} HN) as [E _].
    rewrite round_nearest_even_code, E. unfold rsh, code. cbn [shr_m shr_r shr_s Z.b2z].
    split; [do 2 f_equal; lia | reflexivity].
Qed.

Lemma Zdigits2_le_53 (p : positive) : Z.pos p < 2 ^ 53 -> Z.pos (digits2_pos p) <= 53.
Proof.
  intros H. pose proof (digits2_pos_bounds p) as [B _].
  assert (Z.pos (digits2_pos p) - 1 < 53); [|lia].
  apply pow2_lt_inv; lia.
Qed.

(** The second normalisation step of [binary_round_aux]. *)
Lemma pack_finish (s : bool) (M fe : Z) :
  0 <= M <= 2 ^ 53 -> -1074 <= fe ->
  (let '(mrs, e2) := shr_fexp 53 1024 M fe loc_Exact in
   match shr_m mrs with
   | Z0 => S754_zero s
   | Zpos m => if e2 <=? 1024 - 53 then S754_finite s m e2 else S754_infinity s
   | Zneg _ => S754_nan
   end) = finish s M fe.
Proof.
  intros HM Hfe. unfold finish, shr_fexp.
  destruct (Z.eqb_spec M 0) as [E0|E0].
  - subst M. cbn [Zdigits2]. rewrite shr_nonpos by (rewrite fexp_eq; lia). reflexivity.
  - destruct (Z.eqb_spec M (2 ^ 53)) as [E1|E1].
    + subst M. change (Zdigits2 (2 ^ 53)) with 54.
      replace (fexp64 (54 + fe) - fe) with 1 by (rewrite fexp_eq; lia).
      cbn [shr shr_record_of_loc SpecFloat.iter_pos].
      change (shr_m (shr_1 {| shr_m := 2 ^ 53; shr_r := false; shr_s := false |}))
        with (Z.pos two52).
      cbv beta iota. reflexivity.
    + destruct M as [|p|p]; [lia| |lia].
      cbn [Zdigits2]. pose proof (Zdigits2_le_53 p ltac:(lia)).
      rewrite shr_nonpos by (rewrite fexp_eq; lia).
      cbn [shr_record_of_loc shr_m]. reflexivity.
Qed.

Lemma div_pow2_lt (N n d : Z) :
  0 <= n -> 0 <= d -> 0 <= N < 2 ^ (d + n) -> N / 2 ^ n < 2 ^ d.
Proof.
  intros Hn Hd [H0 H]. apply Z.div_lt_upper_bound.
  - apply Z.pow_pos_nonneg; lia.
  - rewrite Z.pow_add_r in H by lia. lia.
Qed.

(** [binary_round_aux] on an exact mantissa that needs no left shift:
    shift right to the target exponent, round, renormalise. *)
Lemma binary_round_aux_exact (s : bool) (m : positive) (e : Z) :
  let n := fexp64 (Z.pos (digits2_pos m) + e) - e in
  0 <= n ->
  binary_round_aux 53 1024 s (Z.pos m) e loc_Exact = finish s (rsh (Z.pos m) n) (e + n).
Proof.
  intros n Hn. unfold binary_round_aux.
  unfold shr_fexp at 1. cbn [Zdigits2]. fold n.
  pose proof (shr_round (Z.pos m) e n ltac:(lia) Hn) as H.
  destruct (shr (shr_record_of_loc (Z.pos m) loc_Exact) e n) as [r e'].
  destruct H as [H1 H2]. rewrite H1, H2.
  apply pack_finish.
  - pose proof (rsh_bounds (Z.pos m) n Hn) as [B1 B2].
    pose proof (digits2_pos_bounds m) as [_ D].
    assert (0 <= Z.pos m / 2 ^ n) by (apply Z.div_pos; [lia|apply Z.pow_pos_nonneg; lia]).
    assert (Z.pos m / 2 ^ n < 2 ^ 53); [|lia].
    apply div_pow2_lt; try lia. split; [lia|].
    eapply Z.lt_le_trans; [exact D|].
    apply Z.pow_le_mono_r; [lia|]. subst n. rewrite fexp_eq in *. lia.
  - subst n. rewrite fexp_eq in *. lia.
Qed.

(** ** Values *)

Lemma pow2_pos (k : Z) : 0 <= k -> 0 < 2 ^ k.
Proof. intros. apply Z.pow_pos_nonneg; lia. Qed.

Lemma pow2_le (a b : Z) : 0 <= a <= b -> 2 ^ a <= 2 ^ b.
Proof. intros. apply Z.pow_le_mono_r; lia. Qed.

Lemma pow2_lt (a b : Z) : 0 <= a < b -> 2 ^ a < 2 ^ b.
Proof. intros. apply Z.pow_lt_mono_r; lia. Qed.

Lemma pow2_split (a b : Z) : 0 <= a -> 0 <= b -> 2 ^ (a + b) = 2 ^ a * 2 ^ b.
Proof. intros. apply Z.pow_add_r; lia. Qed.

Lemma valid_finite_inv (s : bool) (m : positive) (e : Z) :
  valid (S754_finite s m e) = true ->
  -1074 <= e <= 971 /\ Z.pos m < 2 ^ 53 /\ (-1074 < e -> 2 ^ 52 <= Z.pos m).
Proof.
  unfold valid, prec, emax, valid_binary, bounded, canonical_mantissa.
  rewrite andb_true_iff, Z.eqb_eq, Z.leb_le, fexp_eq.
  intros [C B]. pose proof (digits2_pos_bounds m) as [D1 D2].
  set (d := Z.pos (digits2_pos m)) in *.
  assert (d <= 53) by lia.
  repeat split; try lia.
  - eapply Z.lt_le_trans; [exact D2|]. apply pow2_le. lia.
  - intros He. assert (d = 53) by lia.
    replace 52 with (d - 1) by lia. exact D1.
Qed.

Lemma valid_finite_intro (s : bool) (m : positive) (e : Z) :
  -1074 <= e <= 971 -> Z.pos m < 2 ^ 53 -> (-1074 < e -> 2 ^ 52 <= Z.pos m) ->
  valid (S754_finite s m e) = true.
Proof.
  intros He Hm Hn.
  unfold valid, prec, emax, valid_binary, bounded, canonical_mantissa.
  rewrite andb_true_iff, Z.eqb_eq, Z.leb_le, fexp_eq.
  split; [|lia].
  pose proof (Zdigits2_le_53 m Hm).
  destruct (Z.eq_dec e (-1074)) as [E|E]; [lia|].
  rewrite (digits2_pos_unique m 53); lia.
Qed.

Lemma finish_valid (s : bool) (M fe : Z) :
  0 <= M <= 2 ^ 53 -> -1074 <= fe -> (-1074 < fe -> 2 ^ 52 <= M) ->
  valid (finish s M fe) = true.
Proof.
  intros HM Hfe Hn. unfold finish.
  destruct (Z.eqb_spec M 0); [reflexivity|].
  destruct (Z.eqb_spec M (2 ^ 53)).
  - destruct (Z.leb_spec (fe + 1) 971); [|reflexivity].
    apply valid_finite_intro; try lia; reflexivity.
  - destruct (Z.leb_spec fe 971); [|reflexivity].
    apply valid_finite_intro; rewrite ?Z2Pos.id; lia.
Qed.

Lemma finish_value (M fe : Z) :
  0 <= M <= 2 ^ 53 -> -1074 <= fe -> (-1074 < fe -> 2 ^ 52 <= M) ->
  xv (finish false M fe) = Z.min (M * 2 ^ (fe + 1074)) OV.
Proof.
  intros HM Hfe Hn. unfold finish, OV.
  pose proof (pow2_pos (fe + 1074) ltac:(lia)) as HP.
  destruct (Z.eqb_spec M 0) as [E0|E0].
  { subst M. cbn [xv]. pose proof (pow2_pos 2098). lia. }
  destruct (Z.eqb_spec M (2 ^ 53)) as [E1|E1].
  - subst M. rewrite <- pow2_split by lia.
    destruct (Z.leb_spec (fe + 1) 971); cbn [xv cond_Zopp].
    + change (Z.pos two52) with (2 ^ 52). rewrite <- pow2_split by lia.
      replace (52 + (fe + 1 + 1074)) with (53 + (fe + 1074)) by lia.
      pose proof (pow2_lt (53 + (fe + 1074)) 2098 ltac:(lia)). lia.
    + pose proof (pow2_le 2098 (53 + (fe + 1074)) ltac:(lia)). unfold OV. lia.
  - destruct (Z.leb_spec fe 971); cbn [xv cond_Zopp].
    + rewrite Z2Pos.id by lia.
      assert (M * 2 ^ (fe + 1074) < 2 ^ 2098); [|lia].
      apply Z.lt_le_trans with (2 ^ 53 * 2 ^ (fe + 1074)).
      * apply Z.mul_lt_mono_pos_r; lia.
      * rewrite <- pow2_split by lia. apply pow2_le. lia.
    + assert (2 ^ 2098 <= M * 2 ^ (fe + 1074)); [|unfold OV; lia].
      apply Z.le_trans with (2 ^ 52 * 2 ^ (fe + 1074)).
      * rewrite <- pow2_split by lia. apply pow2_le. lia.
      * apply Z.mul_le_mono_nonneg_r; lia.
Qed.

Lemma finish_opp (M fe : Z) : finish true M fe = SFopp (finish false M fe).
Proof. unfold finish. repeat destruct (_ =? _); repeat destruct (_ <=? _); reflexivity. Qed.

Lemma valid_opp (x : spec_float) : valid (SFopp x) = valid x.
Proof. destruct x; reflexivity. Qed.

Lemma xv_opp (x : spec_float) : xv (SFopp x) = - xv x.
Proof. destruct x as [s|s| |s m e]; try destruct s; cbn; lia. Qed.

Lemma finish_nonnan (s : bool) (M fe : Z) : nonnan (finish s M fe) = true.
Proof. unfold finish. repeat destruct (_ =? _); repeat destruct (_ <=? _); reflexivity. Qed.

(** ** Rounding a scaled integer to the format *)

Lemma dg_pos (m : positive) : Z.pos (digits2_pos m) = dg (Z.pos m).
Proof.
  unfold dg. pose proof (digits2_pos_bounds m) as [B1 B2].
  symmetry. assert (Z.log2 (Z.pos m) = Z.pos (digits2_pos m) - 1); [|lia].
  apply Z.log2_unique; [lia|].
  replace (Z.succ (Z.pos (digits2_pos m) - 1)) with (Z.pos (digits2_pos m)) by lia.
  lia.
Qed.

Lemma dg_bounds (N : Z) : 0 < N -> 2 ^ (dg N - 1) <= N < 2 ^ dg N.
Proof.
  intros H. unfold dg. pose proof (Z.log2_spec N H).
  replace (Z.log2 N + 1 - 1) with (Z.log2 N) by lia.
  replace (Z.log2 N + 1) with (Z.succ (Z.log2 N)) by lia. lia.
Qed.

Lemma dg_mono (N N' : Z) : N <= N' -> dg N <= dg N'.
Proof. intros. unfold dg. pose proof (Z.log2_le_mono N N'). lia. Qed.

Lemma dg_shift (N j : Z) : 0 < N -> 0 <= j -> dg (N * 2 ^ j) = dg N + j.
Proof. intros. unfold dg. rewrite Z.log2_mul_pow2 by lia. lia. Qed.

Lemma dg_ge_1 (N : Z) : 1 <= dg N.
Proof. unfold dg. pose proof (Z.log2_nonneg N). lia. Qed.

Lemma RN_exact (K M j : Z) :
  1074 <= K -> 0 <= M < 2 ^ 53 -> K - 1074 <= j -> RN K (M * 2 ^ j) = M * 2 ^ j.
Proof.
  intros HK HM Hj. unfold RN.
  set (n := Z.max _ _).
  assert (Hn : 0 <= n <= j).
  { subst n. split; [lia|].
    destruct (Z.eq_dec M 0) as [E|E].
    - subst M. cbn. lia.
    - rewrite dg_shift by lia.
      pose proof (dg_bounds M ltac:(lia)) as [B _].
      assert (dg M - 1 < 53); [|lia].
      pose proof (dg_ge_1 M). apply pow2_lt_inv; lia. }
  replace (M * 2 ^ j) with (M * 2 ^ (j - n) * 2 ^ n).
  - rewrite rsh_exact by lia. reflexivity.
  - rewrite <- Z.mul_assoc, <- pow2_split by lia. do 2 f_equal. lia.
Qed.

Lemma RN_nonneg (K N : Z) : 1074 <= K -> 0 <= N -> 0 <= RN K N.
Proof.
  intros HK HN. unfold RN. set (n := Z.max _ _).
  assert (0 <= n) by lia.
  pose proof (rsh_bounds N n ltac:(lia)) as [B _].
  pose proof (pow2_pos n ltac:(lia)).
  assert (0 <= N / 2 ^ n) by (apply Z.div_pos; lia).
  apply Z.mul_nonneg_nonneg; lia.
Qed.

(** Rounding to the format is monotone. *)
Lemma RN_mono (K N1 N2 : Z) : 1074 <= K -> 0 <= N1 <= N2 -> RN K N1 <= RN K N2.
Proof.
  intros HK [H0 H12]. unfold RN.
  pose proof (dg_mono N1 N2 H12) as Hd.
  set (n1 := Z.max (dg N1 - 53) (K - 1074)).
  set (n2 := Z.max (dg N2 - 53) (K - 1074)).
  assert (Hn1 : 0 <= n1) by lia. assert (Hn : n1 <= n2) by lia.
  destruct (Z.eq_dec n1 n2) as [E|E].
  - rewrite <- E. apply Z.mul_le_mono_nonneg_r.
    + pose proof (pow2_pos n1 Hn1). lia.
    + apply rsh_mono; lia.
  - assert (E2 : n2 = dg N2 - 53) by lia.
    assert (HN2 : 0 < N2).
    { destruct (Z.eq_dec N2 0) as [Z2|Z2]; [|lia].
      assert (N1 = 0) by lia. subst N1 N2. lia. }
    pose proof (dg_bounds N2 HN2) as [B2 _].
    set (B := 2 ^ (n2 + 52)).
    assert (HB2 : B = 2 ^ 52 * 2 ^ n2).
    { unfold B. rewrite <- pow2_split by lia. f_equal. lia. }
    assert (HB1 : B = 2 ^ (n2 + 52 - n1) * 2 ^ n1).
    { unfold B. rewrite <- pow2_split by lia. f_equal. lia. }
    apply Z.le_trans with B.
    + rewrite HB1. apply Z.mul_le_mono_nonneg_r.
      * pose proof (pow2_pos n1 Hn1). lia.
      * apply Z.le_trans with (rsh B n1);
          [|rewrite HB1, rsh_exact by lia; lia].
        apply rsh_mono; [lia|].
        destruct (Z.eq_dec N1 0) as [Z1|Z1].
        { subst N1. pose proof (pow2_pos (n2 + 52) ltac:(lia)). unfold B. lia. }
        pose proof (dg_bounds N1 ltac:(lia)) as [_ B1].
        assert (2 ^ dg N1 <= B); [|lia].
        unfold B. apply pow2_le. pose proof (dg_ge_1 N1). lia.
    + rewrite HB2. apply Z.mul_le_mono_nonneg_r.
      * pose proof (pow2_pos n2 ltac:(lia)). lia.
      * apply Z.le_trans with (rsh B n2);
          [rewrite HB2, rsh_exact by lia; lia|].
        apply rsh_mono; [lia|]. unfold B.
        replace (n2 + 52) with (dg N2 - 1) by lia. exact B2.
Qed.

Lemma RNo_mono (K N1 N2 : Z) : 1074 <= K -> 0 <= N1 <= N2 -> RNo K N1 <= RNo K N2.
Proof. intros. unfold RNo. pose proof (RN_mono K N1 N2). lia. Qed.

Lemma RNo_nonneg (K N : Z) : 1074 <= K -> 0 <= N -> 0 <= RNo K N.
Proof.
  intros. unfold RNo. pose proof (RN_nonneg K N). pose proof (pow2_pos (1024 + K)). lia.
Qed.

Lemma rsh_range (m : positive) (e : Z) :
  let n := fexp64 (Z.pos (digits2_pos m) + e) - e in
  0 <= n ->
  0 <= rsh (Z.pos m) n <= 2 ^ 53 /\ (-1074 < e + n -> 2 ^ 52 <= rsh (Z.pos m) n).
Proof.
  intros n Hn.
  pose proof (rsh_bounds (Z.pos m) n Hn) as [B1 B2].
  pose proof (digits2_pos_bounds m) as [D1 D2].
  pose proof (pow2_pos n Hn) as HP.
  assert (0 <= Z.pos m / 2 ^ n) by (apply Z.div_pos; lia).
  subst n. rewrite fexp_eq in *.
  set (d := Z.pos (digits2_pos m)) in *.
  set (n := Z.max (d + e - 53) (-1074) - e) in *.
  split.
  - assert (Z.pos m / 2 ^ n < 2 ^ 53); [|lia].
    apply div_pow2_lt; try lia. split; [lia|].
    eapply Z.lt_le_trans; [exact D2|]. apply pow2_le. lia.
  - intros Hnorm. assert (En : n = d - 53) by lia.
    assert (2 ^ 52 <= Z.pos m / 2 ^ n); [|lia].
    apply Z.div_le_lower_bound; [lia|].
    rewrite Z.mul_comm, <- pow2_split by lia.
    replace (52 + n) with (d - 1) by lia. exact D1.
Qed.

(** The value [binary_round_aux] returns is the rounded exact value. *)
Lemma binary_round_aux_value (m : positive) (e K : Z) :
  1074 <= K -> 0 <= e + K ->
  0 <= fexp64 (Z.pos (digits2_pos m) + e) - e ->
  let f := binary_round_aux 53 1024 false (Z.pos m) e loc_Exact in
  valid f = true /\ nonnan f = true /\
  xv f * 2 ^ (K - 1074) = RNo K (Z.pos m * 2 ^ (e + K)).
Proof.
  intros HK HeK Hn f. subst f.
  rewrite binary_round_aux_exact by exact Hn.
  destruct (rsh_range m e Hn) as [R1 R2].
  set (n := fexp64 (Z.pos (digits2_pos m) + e) - e) in *.
  assert (Hfe : -1074 <= e + n) by (subst n; rewrite fexp_eq; lia).
  split; [apply finish_valid; assumption|].
  split; [apply finish_nonnan|].
  rewrite finish_value by assumption.
  unfold RNo, RN.
  rewrite dg_shift by lia. rewrite <- dg_pos.
  replace (Z.max (Z.pos (digits2_pos m) + (e + K) - 53) (K - 1074)) with (n + (e + K))
    by (subst n; rewrite fexp_eq; lia).
  rewrite rsh_scale by lia.
  rewrite <- Z.mul_min_distr_nonneg_r by (pose proof (pow2_pos (K - 1074)); lia).
  f_equal.
  - rewrite <- Z.mul_assoc, <- pow2_split by lia. do 2 f_equal. lia.
  - unfold OV. rewrite <- pow2_split by lia. f_equal. lia.
Qed.

Lemma binary_round_aux_opp (m : positive) (e : Z) :
  0 <= fexp64 (Z.pos (digits2_pos m) + e) - e ->
  binary_round_aux 53 1024 true (Z.pos m) e loc_Exact
  = SFopp (binary_round_aux 53 1024 false (Z.pos m) e loc_Exact).
Proof. intros Hn. rewrite !binary_round_aux_exact by exact Hn. apply finish_opp. Qed.

Lemma iter_xO (m d : positive) : Z.pos (Pos.iter xO m d) = Z.pos m * 2 ^ Z.pos d.
Proof.
  induction d as [|d IH] using Pos.peano_ind.
  - cbn [Pos.iter]. rewrite (Pos2Z.inj_xO m). change (2 ^ 1) with 2. lia.
  - rewrite Pos.iter_succ, (Pos2Z.inj_xO (Pos.iter xO m d)), IH, Pos2Z.inj_succ.
    rewrite Z.pow_succ_r by lia. lia.
Qed.

Lemma shl_align_spec (m : positive) (e e' : Z) :
  let '(mz, ez) := shl_align m e e' in
  ez = Z.min e e' /\ Z.pos mz = Z.pos m * 2 ^ (e - ez).
Proof.
  unfold shl_align. destruct (e' - e) as [|d|d] eqn:E.
  - split; [lia|]. rewrite Z.sub_diag. cbn. lia.
  - split; [lia|]. rewrite Z.sub_diag. cbn. lia.
  - split; [lia|]. rewrite iter_xO. do 2 f_equal. lia.
Qed.

Lemma binary_round_value (s : bool) (m : positive) (e : Z) :
  -1074 <= e ->
  let f := binary_round 53 1024 s m e in
  valid f = true /\ nonnan f = true /\
  xv f = cond_Zopp s (RNo 1074 (Z.pos m * 2 ^ (e + 1074))).
Proof.
  intros He f. subst f. unfold binary_round.
  pose proof (shl_align_spec m e (fexp64 (Z.pos (digits2_pos m) + e))) as H.
  destruct (shl_align m e _) as [mz ez]. destruct H as [Hez Hmz].
  assert (Hd : Z.pos (digits2_pos mz) = Z.pos (digits2_pos m) + (e - ez)).
  { rewrite !dg_pos, Hmz, dg_shift; lia. }
  assert (Hn : 0 <= fexp64 (Z.pos (digits2_pos mz) + ez) - ez).
  { rewrite Hd. replace (Z.pos (digits2_pos m) + (e - ez) + ez)
      with (Z.pos (digits2_pos m) + e) by lia. lia. }
  assert (Hez' : -1074 <= ez) by (rewrite fexp_eq in Hez; lia).
  destruct (binary_round_aux_value mz ez 1074 ltac:(lia) ltac:(lia) Hn) as (V & NN & X).
  change (2 ^ (1074 - 1074)) with 1 in X. rewrite Z.mul_1_r in X.
  assert (EV : Z.pos mz * 2 ^ (ez + 1074) = Z.pos m * 2 ^ (e + 1074)).
  { rewrite Hmz, <- Z.mul_assoc, <- pow2_split by lia. do 2 f_equal. lia. }
  rewrite EV in X.
  destruct s.
  - rewrite binary_round_aux_opp by exact Hn.
    rewrite valid_opp, xv_opp, X. cbn [cond_Zopp].
    repeat split; try assumption.
    destruct (binary_round_aux 53 1024 false (Z.pos mz) ez loc_Exact); try reflexivity; discriminate.
  - cbn [cond_Zopp]. repeat split; assumption.
Qed.

Lemma binary_normalize_value (z e : Z) (sz : bool) :
  -1074 <= e ->
  let f := binary_normalize 53 1024 z e sz in
  valid f = true /\ nonnan f = true /\ xv f = RNs (z * 2 ^ (e + 1074)).
Proof.
  intros He f. subst f. unfold RNs.
  pose proof (pow2_pos (e + 1074) ltac:(lia)) as HP.
  destruct z as [|m|m]; cbn [binary_normalize].
  - repeat split.
  - destruct (binary_round_value false m e He) as (V & NN & X).
    repeat split; try assumption. rewrite X. cbn [cond_Zopp].
    rewrite Z.sgn_pos, Z.abs_eq by lia. lia.
  - destruct (binary_round_value true m e He) as (V & NN & X).
    repeat split; try assumption. rewrite X. cbn [cond_Zopp].
    rewrite Z.sgn_neg by lia.
    replace (Z.abs (Z.neg m * 2 ^ (e + 1074))) with (Z.pos m * 2 ^ (e + 1074)) by lia.
    lia.
Qed.

Lemma RNs_mono (N1 N2 : Z) : N1 <= N2 -> RNs N1 <= RNs N2.
Proof.
  intros H. unfold RNs.
  pose proof (RNo_nonneg 1074 (Z.abs N1) ltac:(lia) ltac:(lia)).
  pose proof (RNo_nonneg 1074 (Z.abs N2) ltac:(lia) ltac:(lia)).
  destruct (Z.lt_trichotomy N1 0) as [L1|[L1|L1]];
  destruct (Z.lt_trichotomy N2 0) as [L2|[L2|L2]]; try lia.
  - rewrite !Z.sgn_neg by lia.
    pose proof (RNo_mono 1074 (Z.abs N2) (Z.abs N1) ltac:(lia) ltac:(lia)). lia.
  - rewrite !Z.sgn_pos by lia.
    pose proof (RNo_mono 1074 (Z.abs N1) (Z.abs N2) ltac:(lia) ltac:(lia)). lia.
Qed.

Lemma RNs_opp (N : Z) : RNs (- N) = - RNs N.
Proof. unfold RNs. rewrite Z.sgn_opp, Z.abs_opp. lia. Qed.

(** ** Validity, exact values and comparison *)

Lemma pv_bounds (s : bool) (m : positive) (e : Z) :
  valid (S754_finite s m e) = true -> 0 < pv m e < OV.
Proof.
  intros V. apply valid_finite_inv in V. destruct V as (He & Hm & _).
  unfold pv, OV. pose proof (pow2_pos (e + 1074) ltac:(lia)).
  split; [lia|].
  apply Z.lt_le_trans with (2 ^ 53 * 2 ^ (e + 1074)).
  - apply Z.mul_lt_mono_pos_r; lia.
  - rewrite <- pow2_split by lia. apply pow2_le. lia.
Qed.

Lemma pv_lt_exp (s1 s2 : bool) (m1 m2 : positive) (e1 e2 : Z) :
  valid (S754_finite s1 m1 e1) = true -> valid (S754_finite s2 m2 e2) = true ->
  e1 < e2 -> pv m1 e1 < pv m2 e2.
Proof.
  intros V1 V2 He.
  apply valid_finite_inv in V1. destruct V1 as (He1 & Hm1 & _).
  apply valid_finite_inv in V2. destruct V2 as (He2 & _ & Hn2).
  unfold pv. pose proof (pow2_pos (e1 + 1074) ltac:(lia)).
  apply Z.lt_le_trans with (2 ^ 53 * 2 ^ (e1 + 1074)).
  - apply Z.mul_lt_mono_pos_r; lia.
  - apply Z.le_trans with (2 ^ 52 * 2 ^ (e2 + 1074)).
    + rewrite <- !pow2_split by lia. apply pow2_le. lia.
    + apply Z.mul_le_mono_nonneg_r; [|lia].
      pose proof (pow2_pos (e2 + 1074) ltac:(lia)). lia.
Qed.

Lemma pv_compare (s1 s2 : bool) (m1 m2 : positive) (e1 e2 : Z) :
  valid (S754_finite s1 m1 e1) = true -> valid (S754_finite s2 m2 e2) = true ->
  match e1 ?= e2 with
  | Lt => Lt
  | Gt => Gt
  | Eq => Pos.compare_cont Eq m1 m2
  end = (pv m1 e1 ?= pv m2 e2).
Proof.
  intros V1 V2. symmetry.
  destruct (Z.compare_spec e1 e2) as [E|L|G].
  - subst e2. unfold pv. change (Pos.compare_cont Eq m1 m2) with (Z.pos m1 ?= Z.pos m2).
    pose proof (valid_finite_inv _ _ _ V1) as (He & _ & _).
    pose proof (pow2_pos (e1 + 1074) ltac:(lia)).
    destruct (Z.compare_spec (Z.pos m1) (Z.pos m2)) as [E|L|G].
    + rewrite E. apply Z.compare_refl.
    + apply Z.compare_lt_iff. apply Z.mul_lt_mono_pos_r; lia.
    + apply Z.compare_gt_iff. apply Z.mul_lt_mono_pos_r; lia.
  - apply Z.compare_lt_iff. eapply pv_lt_exp; eassumption.
  - apply Z.compare_gt_iff. eapply pv_lt_exp; eassumption.
Qed.

Lemma xv_finite (s : bool) (m : positive) (e : Z) :
  xv (S754_finite s m e) = cond_Zopp s (pv m e).
Proof. reflexivity. Qed.

Lemma OV_pos : 0 < OV.
Proof. unfold OV. apply pow2_pos. lia. Qed.

(** Comparison of numbers is comparison of their values. *)
Theorem compare_spec (x y : spec_float) :
  valid x = true -> valid y = true -> nonnan x = true -> nonnan y = true ->
  SFcompare x y = Some (xv x ?= xv y).
Proof.
  intros Vx Vy Nx Ny. pose proof OV_pos as HOV.
  destruct x as [sx|sx| |sx mx ex]; try discriminate;
  destruct y as [sy|sy| |sy my ey]; try discriminate;
  try (pose proof (pv_bounds _ _ _ Vx)); try (pose proof (pv_bounds _ _ _ Vy));
  rewrite ?xv_finite; cbn [SFcompare xv]; f_equal; symmetry.
  - destruct sy; cbn [cond_Zopp]; [apply Z.compare_gt_iff|apply Z.compare_lt_iff]; lia.
  - destruct sy; cbn [cond_Zopp]; [apply Z.compare_gt_iff|apply Z.compare_lt_iff]; lia.
  - destruct sx; cbn [cond_Zopp]; [apply Z.compare_lt_iff|apply Z.compare_gt_iff]; lia.
  - destruct sx, sy; cbn [cond_Zopp];
      [apply Z.compare_eq_iff|apply Z.compare_lt_iff|apply Z.compare_gt_iff|apply Z.compare_eq_iff]; lia.
  - destruct sx; cbn [cond_Zopp]; [apply Z.compare_lt_iff|apply Z.compare_gt_iff];
      destruct sy; cbn [cond_Zopp]; lia.
  - destruct sx; cbn [cond_Zopp]; [apply Z.compare_lt_iff|apply Z.compare_gt_iff]; lia.
  - destruct sy; cbn [cond_Zopp]; [apply Z.compare_gt_iff|apply Z.compare_lt_iff];
      destruct sx; cbn [cond_Zopp]; lia.
  - destruct sx, sy; cbn [cond_Zopp].
    + rewrite Z.compare_opp. rewrite <- (pv_compare _ _ _ _ _ _ Vy Vx).
      rewrite (Z.compare_antisym ex ey).
      change (Pos.compare_cont Eq my mx) with (Pos.compare my mx).
      change (Pos.compare_cont Eq mx my) with (Pos.compare mx my).
      rewrite (Pos.compare_antisym mx my).
      destruct (ex ?= ey); cbn [CompOpp]; reflexivity.
    + apply Z.compare_lt_iff. lia.
    + apply Z.compare_gt_iff. lia.
    + symmetry. apply (pv_compare _ _ _ _ _ _ Vx Vy).
Qed.

Lemma leb_spec (x y : spec_float) :
  valid x = true -> valid y = true -> nonnan x = true -> nonnan y = true ->
  SFleb x y = (xv x <=? xv y).
Proof.
  intros. unfold SFleb. rewrite compare_spec by assumption.
  unfold Z.leb. destruct (xv x ?= xv y); reflexivity.
Qed.

Lemma ltb_spec (x y : spec_float) :
  valid x = true -> valid y = true -> nonnan x = true -> nonnan y = true ->
  SFltb x y = (xv x <? xv y).
Proof.
  intros. unfold SFltb. rewrite compare_spec by assumption.
  unfold Z.ltb. destruct (xv x ?= xv y); reflexivity.
Qed.

Lemma xv_abs_lt (x : spec_float) :
  valid x = true -> finite x = true -> Z.abs (xv x) < OV.
Proof.
  intros V F. pose proof OV_pos.
  destruct x as [s|s| |s m e]; try discriminate; cbn [xv]; try lia.
  pose proof (pv_bounds _ _ _ V). fold (pv m e). destruct s; cbn [cond_Zopp]; lia.
Qed.

Lemma finite_of_lt (x : spec_float) :
  nonnan x = true -> Z.abs (xv x) < OV -> finite x = true.
Proof.
  destruct x as [s|s| |s m e]; try reflexivity; try discriminate.
  cbn [xv]. destruct s; cbn [cond_Zopp]; lia.
Qed.

Lemma RNo_exact (M j : Z) :
  0 <= M < 2 ^ 53 -> 0 <= j -> M * 2 ^ j < OV -> RNo 1074 (M * 2 ^ j) = M * 2 ^ j.
Proof.
  intros HM Hj Hlt. unfold RNo. rewrite RN_exact by lia.
  change (2 ^ (1024 + 1074)) with OV. lia.
Qed.

Lemma RNo_OV : RNo 1074 OV = OV.
Proof.
  unfold RNo, OV. replace (2 ^ 2098) with (1 * 2 ^ 2098) at 1 by lia.
  rewrite RN_exact by (pose proof (pow2_pos 53); lia).
  change (1024 + 1074) with 2098. lia.
Qed.

Lemma RNs_fix (x : spec_float) : valid x = true -> RNs (xv x) = xv x.
Proof.
  intros V. unfold RNs. pose proof OV_pos.
  destruct x as [s|s| |s m e]; cbn [xv]; try reflexivity.
  - destruct s; cbn [cond_Zopp].
    + rewrite Z.sgn_neg, Z.abs_neq by lia. rewrite Z.opp_involutive, RNo_OV. lia.
    + rewrite Z.sgn_pos, Z.abs_eq by lia. rewrite RNo_OV. lia.
  - pose proof (pv_bounds _ _ _ V) as B.
    pose proof (valid_finite_inv _ _ _ V) as (He & Hm & _).
    fold (pv m e).
    assert (E : RNo 1074 (pv m e) = pv m e).
    { unfold pv. apply RNo_exact; try lia. exact (proj2 B). }
    destruct s; cbn [cond_Zopp].
    + rewrite Z.sgn_neg, Z.abs_neq by lia. rewrite Z.opp_involutive, E. lia.
    + rewrite Z.sgn_pos, Z.abs_eq by lia. rewrite E. lia.
Qed.

Lemma cond_Zopp_mul (s : bool) (a c : Z) : cond_Zopp s a * c = cond_Zopp s (a * c).
Proof. destruct s; cbn [cond_Zopp]; lia. Qed.

Lemma shl_align_fst (m : positive) (e ez : Z) :
  -1074 <= ez <= e ->
  Z.pos (fst (shl_align m e ez)) * 2 ^ (ez + 1074) = pv m e.
Proof.
  intros H. pose proof (shl_align_spec m e ez) as S.
  destruct (shl_align m e ez) as [mz ez']. destruct S as [S1 S2]. cbn [fst].
  rewrite S2, S1. replace (Z.min e ez) with ez by lia.
  unfold pv. rewrite <- Z.mul_assoc, <- pow2_split by lia. do 2 f_equal. lia.
Qed.

(** Addition and subtraction of finite numbers: the exact result, rounded. *)
Theorem add_spec (x y : spec_float) :
  valid x = true -> valid y = true -> finite x = true -> finite y = true ->
  valid (SFadd 53 1024 x y) = true /\ nonnan (SFadd 53 1024 x y) = true /\
  xv (SFadd 53 1024 x y) = RNs (xv x + xv y).
Proof.
  intros Vx Vy Fx Fy.
  destruct x as [sx|sx| |sx mx ex]; try discriminate;
  destruct y as [sy|sy| |sy my ey]; try discriminate.
  - destruct sx, sy; repeat split.
  - cbn [SFadd]. repeat split; try assumption.
    change (xv (S754_zero sx)) with 0. rewrite Z.add_0_l. symmetry. apply RNs_fix, Vy.
  - cbn [SFadd]. repeat split; try assumption.
    change (xv (S754_zero sy)) with 0. rewrite Z.add_0_r. symmetry. apply RNs_fix, Vx.
  - cbn [SFadd].
    pose proof (valid_finite_inv _ _ _ Vx) as (Hex & _ & _).
    pose proof (valid_finite_inv _ _ _ Vy) as (Hey & _ & _).
    destruct (binary_normalize_value
      (cond_Zopp sx (Z.pos (fst (shl_align mx ex (Z.min ex ey))))
       + cond_Zopp sy (Z.pos (fst (shl_align my ey (Z.min ex ey)))))
      (Z.min ex ey) false ltac:(lia)) as (V & NN & X).
    repeat split; try assumption. rewrite X. f_equal.
    rewrite Z.mul_add_distr_r, !cond_Zopp_mul, !shl_align_fst by lia.
    reflexivity.
Qed.

Theorem sub_spec (x y : spec_float) :
  valid x = true -> valid y = true -> finite x = true -> finite y = true ->
  valid (SFsub 53 1024 x y) = true /\ nonnan (SFsub 53 1024 x y) = true /\
  xv (SFsub 53 1024 x y) = RNs (xv x - xv y).
Proof.
  intros Vx Vy Fx Fy.
  destruct x as [sx|sx| |sx mx ex]; try discriminate;
  destruct y as [sy|sy| |sy my ey]; try discriminate.
  - destruct sx, sy; repeat split.
  - cbn [SFsub]. repeat split; try assumption.
    change (xv (S754_zero sx) - xv (S754_finite sy my ey)) with (- xv (S754_finite sy my ey)).
    rewrite RNs_opp, (RNs_fix _ Vy). cbn [xv]. destruct sy; cbn [negb cond_Zopp]; lia.
  - cbn [SFsub]. repeat split; try assumption.
    change (xv (S754_zero sy)) with 0. rewrite Z.sub_0_r. symmetry. apply RNs_fix, Vx.
  - cbn [SFsub].
    pose proof (valid_finite_inv _ _ _ Vx) as (Hex & _ & _).
    pose proof (valid_finite_inv _ _ _ Vy) as (Hey & _ & _).
    destruct (binary_normalize_value
      (cond_Zopp sx (Z.pos (fst (shl_align mx ex (Z.min ex ey))))
       - cond_Zopp sy (Z.pos (fst (shl_align my ey (Z.min ex ey)))))
      (Z.min ex ey) false ltac:(lia)) as (V & NN & X).
    repeat split; try assumption. rewrite X. f_equal.
    rewrite Z.mul_sub_distr_r, !cond_Zopp_mul, !shl_align_fst by lia.
    reflexivity.
Qed.

Lemma RNs2_mono (N1 N2 : Z) : N1 <= N2 -> RNs2 N1 <= RNs2 N2.
Proof.
  intros H. unfold RNs2.
  pose proof (RNo_nonneg 2148 (Z.abs N1) ltac:(lia) ltac:(lia)).
  pose proof (RNo_nonneg 2148 (Z.abs N2) ltac:(lia) ltac:(lia)).
  destruct (Z.lt_trichotomy N1 0) as [L1|[L1|L1]];
  destruct (Z.lt_trichotomy N2 0) as [L2|[L2|L2]]; try lia.
  - rewrite !Z.sgn_neg by lia.
    pose proof (RNo_mono 2148 (Z.abs N2) (Z.abs N1) ltac:(lia) ltac:(lia)). lia.
  - rewrite !Z.sgn_pos by lia.
    pose proof (RNo_mono 2148 (Z.abs N1) (Z.abs N2) ltac:(lia) ltac:(lia)). lia.
Qed.

Lemma mul_aligned (sx sy : bool) (mx my : positive) (ex ey : Z) :
  valid (S754_finite sx mx ex) = true -> valid (S754_finite sy my ey) = true ->
  0 <= fexp64 (Z.pos (digits2_pos (mx * my)) + (ex + ey)) - (ex + ey).
Proof.
  intros Vx Vy.
  pose proof (valid_finite_inv _ _ _ Vx) as (Hex & Hmx & Hnx).
  pose proof (valid_finite_inv _ _ _ Vy) as (Hey & Hmy & Hny).
  rewrite fexp_eq.
  destruct (Z.eq_dec ex (-1074)) as [Ex|Ex];
  destruct (Z.eq_dec ey (-1074)) as [Ey|Ey]; try lia.
  all: assert (2 ^ 52 <= Z.pos (mx * my)) by (rewrite Pos2Z.inj_mul; nia).
  all: pose proof (digits2_pos_bounds (mx * my)) as [_ D].
  all: assert (52 < Z.pos (digits2_pos (mx * my))) by (apply pow2_lt_inv; lia).
  all: lia.
Qed.

(** Multiplication of finite numbers: the exact product, rounded. *)
Theorem mul_spec (x y : spec_float) :
  valid x = true -> valid y = true -> finite x = true -> finite y = true ->
  valid (SFmul 53 1024 x y) = true /\ nonnan (SFmul 53 1024 x y) = true /\
  xv (SFmul 53 1024 x y) * 2 ^ 1074 = RNs2 (xv x * xv y).
Proof.
  intros Vx Vy Fx Fy.
  destruct x as [sx|sx| |sx mx ex]; try discriminate;
  destruct y as [sy|sy| |sy my ey]; try discriminate.
  1-3: cbn [SFmul xv]; rewrite ?Z.mul_0_r; repeat split.
  cbn [SFmul].
  pose proof (pv_bounds _ _ _ Vx) as Bx. pose proof (pv_bounds _ _ _ Vy) as By.
  pose proof (valid_finite_inv _ _ _ Vx) as (Hex & _ & _).
  pose proof (valid_finite_inv _ _ _ Vy) as (Hey & _ & _).
  pose proof (mul_aligned _ _ _ _ _ _ Vx Vy) as Hn.
  destruct (binary_round_aux_value (mx * my) (ex + ey) 2148
              ltac:(lia) ltac:(lia) Hn) as (V & NN & X).
  change (2148 - 1074) with 1074 in X.
  assert (EV : Z.pos (mx * my) * 2 ^ (ex + ey + 2148) = pv mx ex * pv my ey).
  { unfold pv. rewrite Pos2Z.inj_mul.
    replace (ex + ey + 2148) with ((ex + 1074) + (ey + 1074)) by lia.
    rewrite pow2_split by lia. lia. }
  rewrite EV in X. rewrite !xv_finite. unfold RNs2.
  assert (0 < pv mx ex * pv my ey) by nia.
  destruct sx, sy; cbn [xorb cond_Zopp].
  - replace (- pv mx ex * - pv my ey) with (pv mx ex * pv my ey) by lia.
    rewrite Z.sgn_pos, Z.abs_eq by lia. repeat split; try assumption. lia.
  - rewrite binary_round_aux_opp by exact Hn. rewrite valid_opp, xv_opp.
    replace (- pv mx ex * pv my ey) with (- (pv mx ex * pv my ey)) by lia.
    rewrite Z.sgn_neg, Z.abs_neq by lia. rewrite Z.opp_involutive.
    repeat split; try assumption; [|lia].
    destruct (binary_round_aux 53 1024 false _ _ _); try reflexivity; discriminate.
  - rewrite binary_round_aux_opp by exact Hn. rewrite valid_opp, xv_opp.
    replace (pv mx ex * - pv my ey) with (- (pv mx ex * pv my ey)) by lia.
    rewrite Z.sgn_neg, Z.abs_neq by lia. rewrite Z.opp_involutive.
    repeat split; try assumption; [|lia].
    destruct (binary_round_aux 53 1024 false _ _ _); try reflexivity; discriminate.
  - rewrite Z.sgn_pos, Z.abs_eq by lia. repeat split; try assumption. lia.
Qed.

(** ** The operations of [Number] *)

Lemma u_pos : 0 < u.
Proof. unfold u. apply pow2_pos. lia. Qed.

Lemma u_OV : 2 ^ 53 * u <= OV.
Proof. unfold u, OV. rewrite <- pow2_split by lia. apply pow2_le. lia. Qed.

Lemma RNs_int (k : Z) : Z.abs k < 2 ^ 53 -> RNs (k * u) = k * u.
Proof.
  intros Hk. unfold RNs. pose proof u_pos. pose proof u_OV.
  assert (E : RNo 1074 (Z.abs k * u) = Z.abs k * u).
  { unfold u. apply RNo_exact; try lia. fold u. nia. }
  rewrite Z.abs_mul, (Z.abs_eq u), E by lia.
  rewrite Z.sgn_mul, (Z.sgn_pos u), Z.mul_1_r by lia.
  destruct (Z.lt_trichotomy k 0) as [L|[L|L]].
  - rewrite Z.sgn_neg, Z.abs_neq by lia. lia.
  - subst k. reflexivity.
  - rewrite Z.sgn_pos, Z.abs_eq by lia. lia.
Qed.

(** Integers below [2^53] in magnitude are numbers. *)
Theorem of_Z_spec (k : Z) :
  Z.abs k < 2 ^ 53 ->
  valid (of_Z k) = true /\ finite (of_Z k) = true /\ xv (of_Z k) = k * u.
Proof.
  intros Hk. unfold of_Z, prec, emax.
  destruct (binary_normalize_value k 0 false ltac:(lia)) as (V & NN & X).
  change (2 ^ (0 + 1074)) with u in X. rewrite RNs_int in X by exact Hk.
  repeat split; try assumption.
  apply finite_of_lt; [exact NN|]. rewrite X.
  pose proof u_pos. pose proof u_OV. nia.
Qed.

(** A valid number is determined by its value, up to the sign of zero. *)
Lemma xv_inj (x y : number) :
  valid x = true -> valid y = true -> finite x = true -> finite y = true ->
  xv x = xv y -> xv x <> 0 -> x = y.
Proof.
  intros Vx Vy Fx Fy E NZ.
  destruct x as [sx|sx| |sx mx ex]; try discriminate; [cbn [xv] in NZ; lia|].
  destruct y as [sy|sy| |sy my ey]; try discriminate; [cbn [xv] in E, NZ; lia|].
  pose proof (pv_bounds _ _ _ Vx). pose proof (pv_bounds _ _ _ Vy).
  rewrite !xv_finite in E.
  assert (sx = sy) by (destruct sx, sy; cbn [cond_Zopp] in E; try reflexivity; lia).
  subst sy.
  assert (Ep : pv mx ex = pv my ey) by (destruct sx; cbn [cond_Zopp] in E; lia).
  assert (ex = ey).
  { destruct (Z.lt_trichotomy ex ey) as [L|[L|L]]; [|exact L|].
    - pose proof (pv_lt_exp _ _ _ _ _ _ Vx Vy L). lia.
    - pose proof (pv_lt_exp _ _ _ _ _ _ Vy Vx L). lia. }
  subst ey. unfold pv in Ep.
  pose proof (valid_finite_inv _ _ _ Vx) as (He & _ & _).
  pose proof (pow2_pos (ex + 1074) ltac:(lia)).
  assert (Z.pos mx = Z.pos my) by nia.
  congruence.
Qed.

Lemma xv_of_Z_inj (x : number) (k : Z) :
  valid x = true -> finite x = true -> 0 < Z.abs k < 2 ^ 53 -> xv x = k * u -> x = of_Z k.
Proof.
  intros V F Hk E. destruct (of_Z_spec k ltac:(lia)) as (V' & F' & X').
  apply xv_inj; try assumption; [congruence|].
  rewrite E. pose proof u_pos. nia.
Qed.

(** [Math.round] *)
Theorem Math_round_spec (x : number) :
  valid x = true -> finite x = true ->
  valid (Math_round x) = true /\ finite (Math_round x) = true /\
  xv (Math_round x) = (2 * xv x + u) / (2 * u) * u.
Proof.
  intros V F. pose proof u_pos as Hu.
  destruct x as [s|s| |s m e]; try discriminate.
  - cbn [Math_round xv]. split; [exact V|]. split; [reflexivity|].
    rewrite Z.div_small by lia. reflexivity.
  - cbn [Math_round]. unfold prec, emax.
    pose proof (valid_finite_inv _ _ _ V) as (He & Hm & _).
    destruct (Z.leb_spec 0 e) as [L|L].
    + repeat split; try assumption.
      rewrite xv_finite. set (sm := cond_Zopp s (Z.pos m)).
      assert (E : cond_Zopp s (pv m e) = sm * 2 ^ e * u).
      { unfold pv, sm, u. rewrite (pow2_split e 1074) by lia.
        destruct s; cbn [cond_Zopp]; lia. }
      rewrite E.
      replace (2 * (sm * 2 ^ e * u) + u) with ((2 * (sm * 2 ^ e) + 1) * u) by lia.
      rewrite Z.div_mul_cancel_r by lia.
      replace ((2 * (sm * 2 ^ e) + 1) / 2) with (sm * 2 ^ e); [reflexivity|].
      Z.div_mod_to_equations. lia.
    + set (sm := if s then Z.neg m else Z.pos m).
      set (k := (2 * sm + 2 ^ (- e)) / 2 ^ (- e + 1)).
      assert (Hsm : Z.abs sm < 2 ^ 53) by (unfold sm; destruct s; lia).
      pose proof (pow2_pos (- e) ltac:(lia)) as HP.
      assert (HP2 : 2 ^ (- e + 1) = 2 * 2 ^ (- e)).
      { rewrite pow2_split by lia. change (2 ^ 1) with 2. lia. }
      assert (HP3 : 2 <= 2 ^ (- e)).
      { change 2 with (2 ^ 1) at 1. apply pow2_le. lia. }
      assert (Hk : Z.abs k < 2 ^ 53).
      { subst k. rewrite HP2.
        assert (- 2 ^ 53 < (2 * sm + 2 ^ (- e)) / (2 * 2 ^ (- e)) < 2 ^ 53); [|lia].
        split.
        - apply Z.lt_le_trans with (- 2 ^ 52).
          + cbn. lia.
          + apply Z.div_le_lower_bound; [lia|]. nia.
        - apply Z.div_lt_upper_bound; [lia|]. nia. }
      destruct (binary_normalize_value k 0 s ltac:(lia)) as (V' & NN & X).
      change (2 ^ (0 + 1074)) with u in X. rewrite RNs_int in X by exact Hk.
      repeat split; try assumption.
      * apply finite_of_lt; [exact NN|]. rewrite X. pose proof u_OV. nia.
      * rewrite X. f_equal. rewrite xv_finite. subst k.
        assert (E : cond_Zopp s (pv m e) = sm * 2 ^ (e + 1074)).
        { unfold pv, sm. destruct s; cbn [cond_Zopp]; lia. }
        rewrite E.
        assert (Eu : u = 2 ^ (- e) * 2 ^ (e + 1074)).
        { unfold u. rewrite <- pow2_split by lia. f_equal. lia. }
        pose proof (pow2_pos (e + 1074) ltac:(lia)).
        rewrite HP2. rewrite Eu.
        replace (2 * (sm * 2 ^ (e + 1074)) + 2 ^ (- e) * 2 ^ (e + 1074))
          with ((2 * sm + 2 ^ (- e)) * 2 ^ (e + 1074)) by lia.
        replace (2 * (2 ^ (- e) * 2 ^ (e + 1074)))
          with (2 * 2 ^ (- e) * 2 ^ (e + 1074)) by lia.
        rewrite Z.div_mul_cancel_r by lia. reflexivity.
Qed.

(** [Math.max] and [Math.min] *)
Theorem Math_max_spec (x y : number) :
  valid x = true -> valid y = true -> nonnan x = true -> nonnan y = true ->
  valid (Math_max x y) = true /\ nonnan (Math_max x y) = true /\
  xv (Math_max x y) = Z.max (xv x) (xv y).
Proof.
  intros Vx Vy Nx Ny.
  assert (G : forall a b, valid a = true -> valid b = true ->
            nonnan a = true -> nonnan b = true ->
            let r := if ltb a b then b else a in
            valid r = true /\ nonnan r = true /\ xv r = Z.max (xv a) (xv b)).
  { intros a b Va Vb Na Nb. unfold ltb. rewrite ltb_spec by assumption.
    destruct (Z.ltb_spec (xv a) (xv b)); cbv zeta; repeat split; try assumption; lia. }
  destruct x as [sx|sx| |sx mx ex]; try discriminate;
  destruct y as [sy|sy| |sy my ey]; try discriminate;
  try (apply G; assumption).
  repeat split.
Qed.

Theorem Math_min_spec (x y : number) :
  valid x = true -> valid y = true -> nonnan x = true -> nonnan y = true ->
  valid (Math_min x y) = true /\ nonnan (Math_min x y) = true /\
  xv (Math_min x y) = Z.min (xv x) (xv y).
Proof.
  intros Vx Vy Nx Ny.
  assert (G : forall a b, valid a = true -> valid b = true ->
            nonnan a = true -> nonnan b = true ->
            let r := if ltb b a then b else a in
            valid r = true /\ nonnan r = true /\ xv r = Z.min (xv a) (xv b)).
  { intros a b Va Vb Na Nb. unfold ltb. rewrite ltb_spec by assumption.
    destruct (Z.ltb_spec (xv b) (xv a)); cbv zeta; repeat split; try assumption; lia. }
  destruct x as [sx|sx| |sx mx ex]; try discriminate;
  destruct y as [sy|sy| |sy my ey]; try discriminate;
  try (apply G; assumption).
  repeat split.
Qed.

(** Every operation returns a valid number on valid arguments. *)
Lemma sub_valid (x y : number) :
  valid x = true -> valid y = true -> valid (sub x y) = true.
Proof.
  intros Vx Vy.
  destruct x as [sx|sx| |sx mx ex]; destruct y as [sy|sy| |sy my ey];
    try reflexivity; try assumption;
    try (destruct sx, sy; reflexivity).
  apply sub_spec; trivial.
Qed.

Lemma add_valid (x y : number) :
  valid x = true -> valid y = true -> valid (add x y) = true.
Proof.
  intros Vx Vy.
  destruct x as [sx|sx| |sx mx ex]; destruct y as [sy|sy| |sy my ey];
    try reflexivity; try assumption;
    try (destruct sx, sy; reflexivity).
  apply add_spec; trivial.
Qed.

Lemma mul_valid (x y : number) :
  valid x = true -> valid y = true -> valid (mul x y) = true.
Proof.
  intros Vx Vy.
  destruct x as [sx|sx| |sx mx ex]; destruct y as [sy|sy| |sy my ey];
    try reflexivity.
  apply mul_spec; trivial.
Qed.

Lemma RNs_pos (N : Z) : 0 < N -> 0 < RNs N.
Proof.
  intros H. pose proof (RNs_mono 1 N ltac:(lia)) as M.
  assert (E1 : RNs 1 = 1).
  { unfold RNs. rewrite Z.sgn_pos, Z.abs_eq, Z.mul_1_l by lia.
    assert (L53 : 1 < 2 ^ 53) by (pose proof (pow2_lt 0 53 ltac:(lia)) as L; exact L).
    assert (LOV : 1 * 2 ^ 0 < OV) by (pose proof (pow2_lt 0 2098 ltac:(lia)) as L; exact L).
    exact (RNo_exact 1 0 ltac:(lia) ltac:(lia) LOV). }
  lia.
Qed.

Lemma RNs_0 : RNs 0 = 0.
Proof. reflexivity. Qed.

Lemma RNs_sign (N : Z) : (0 <? RNs N) = (0 <? N).
Proof.
  destruct (Z.ltb_spec 0 N) as [L|L].
  - apply Z.ltb_lt, RNs_pos, L.
  - apply Z.ltb_ge. pose proof (RNs_mono N 0 L). rewrite RNs_0 in *. lia.
Qed.

(** The sign of a difference decides the order of its operands: this is
    what a comparator [(a, b) => b - a] relies on. *)
Theorem sub_pos_iff (x y : number) :
  valid x = true -> valid y = true -> nonnan x = true -> nonnan y = true ->
  ltb (of_Z 0) (sub y x) = (xv x <? xv y).
Proof.
  intros Vx Vy Nx Ny. pose proof OV_pos as HOV.
  destruct (finite x) eqn:Fx; destruct (finite y) eqn:Fy.
  - destruct (sub_spec y x Vy Vx Fy Fx) as (V & NN & X).
    unfold ltb, sub, prec, emax. rewrite ltb_spec; try assumption; try reflexivity.
    rewrite X. change (xv (of_Z 0)) with 0. rewrite RNs_sign.
    destruct (Z.ltb_spec 0 (xv y - xv x)), (Z.ltb_spec (xv x) (xv y)); try reflexivity; lia.
  - pose proof (xv_abs_lt x Vx Fx).
    destruct y as [sy|sy| |sy my ey]; try discriminate.
    destruct x as [sx|sx| |sx mx ex]; try discriminate;
      destruct sy; cbn [sub SFsub xv cond_Zopp] in *; symmetry;
      [apply Z.ltb_ge|apply Z.ltb_lt|apply Z.ltb_ge|apply Z.ltb_lt]; lia.
  - pose proof (xv_abs_lt y Vy Fy).
    destruct x as [sx|sx| |sx mx ex]; try discriminate.
    destruct y as [sy|sy| |sy my ey]; try discriminate;
      destruct sx; cbn [sub SFsub xv cond_Zopp negb] in *; symmetry;
      [apply Z.ltb_lt|apply Z.ltb_ge|apply Z.ltb_lt|apply Z.ltb_ge]; lia.
  - destruct x as [sx|sx| |sx mx ex]; try discriminate.
    destruct y as [sy|sy| |sy my ey]; try discriminate.
    destruct sx, sy; cbn [sub SFsub xv cond_Zopp]; symmetry;
      [apply Z.ltb_ge|apply Z.ltb_lt|apply Z.ltb_ge|apply Z.ltb_ge]; lia.
Qed.

(** ** Ordered non-negative finite numbers *)

Lemma fin_inv (x : number) : fin x = true -> valid x = true /\ finite x = true.
Proof. unfold fin. apply andb_true_iff. Qed.

Lemma fin_intro (x : number) : valid x = true -> finite x = true -> fin x = true.
Proof. unfold fin. intros -> ->. reflexivity. Qed.

Lemma finite_nonnan (x : number) : finite x = true -> nonnan x = true.
Proof. destruct x; try reflexivity; discriminate. Qed.

Lemma nle_refl (x : number) : fin x = true -> 0 <= xv x -> nle x x.
Proof. intros F H. repeat split; try assumption; lia. Qed.

Lemma nle_trans (x y z : number) : nle x y -> nle y z -> nle x z.
Proof. intros (Fx & Fy & H1) (_ & Fz & H2). repeat split; try assumption; lia. Qed.

Lemma nle_leb (x y : number) : nle x y -> leb x y = true.
Proof.
  intros (Fx & Fy & H). apply fin_inv in Fx, Fy. destruct Fx as [Vx Fx], Fy as [Vy Fy].
  unfold leb. rewrite leb_spec; auto using finite_nonnan. apply Z.leb_le. lia.
Qed.

Lemma leb_inv (x y : number) :
  valid x = true -> valid y = true -> leb x y = true ->
  nonnan x = true /\ nonnan y = true /\ xv x <= xv y.
Proof.
  intros Vx Vy L.
  assert (nonnan x = true /\ nonnan y = true) as [Nx Ny].
  { destruct x, y; try discriminate; split; reflexivity. }
  repeat split; try assumption.
  unfold leb in L. rewrite leb_spec in L by assumption. apply Z.leb_le, L.
Qed.

Lemma ltb_inv (x y : number) :
  valid x = true -> valid y = true -> ltb x y = true ->
  nonnan x = true /\ nonnan y = true /\ xv x < xv y.
Proof.
  intros Vx Vy L.
  assert (nonnan x = true /\ nonnan y = true) as [Nx Ny].
  { destruct x, y; try discriminate; split; reflexivity. }
  repeat split; try assumption.
  unfold ltb in L. rewrite ltb_spec in L by assumption. apply Z.ltb_lt, L.
Qed.

(** A number between zero and a finite bound. *)
Lemma range_nle (x b : number) :
  valid x = true -> fin b = true ->
  leb (of_Z 0) x = true -> leb x b = true -> nle x b.
Proof.
  intros Vx Fb L0 Lb. apply fin_inv in Fb. destruct Fb as [Vb Fb].
  destruct (leb_inv (of_Z 0) x eq_refl Vx L0) as (_ & Nx & H0).
  destruct (leb_inv _ _ Vx Vb Lb) as (_ & _ & Hb).
  change (xv (of_Z 0)) with 0 in H0.
  pose proof (xv_abs_lt b Vb Fb).
  repeat split; try assumption.
  - apply fin_intro; [exact Vx|]. apply finite_of_lt; [exact Nx|]. lia.
  - apply fin_intro; assumption.
Qed.

Lemma add_mono (x x' y y' : number) :
  nle x x' -> nle y y' -> finite (add x' y') = true -> nle (add x y) (add x' y').
Proof.
  intros (Fx & Fx' & Hx) (Fy & Fy' & Hy) F'.
  apply fin_inv in Fx, Fx', Fy, Fy'.
  destruct Fx as [Vx Fx], Fx' as [Vx' Fx'], Fy as [Vy Fy], Fy' as [Vy' Fy'].
  destruct (add_spec x y Vx Vy Fx Fy) as (V & NN & X).
  destruct (add_spec x' y' Vx' Vy' Fx' Fy') as (V' & NN' & X').
  change (SFadd 53 1024 x y) with (add x y) in *.
  change (SFadd 53 1024 x' y') with (add x' y') in *.
  pose proof (RNs_mono 0 (xv x + xv y) ltac:(lia)) as M0. rewrite RNs_0 in M0.
  pose proof (RNs_mono (xv x + xv y) (xv x' + xv y') ltac:(lia)) as M1.
  pose proof (xv_abs_lt _ V' F').
  repeat split; try (apply fin_intro; try assumption); try lia.
  apply finite_of_lt; [exact NN|]. lia.
Qed.

Lemma RNs2_0 : RNs2 0 = 0.
Proof. reflexivity. Qed.

Lemma mul_mono (x x' y y' : number) :
  nle x x' -> nle y y' -> finite (mul x' y') = true -> nle (mul x y) (mul x' y').
Proof.
  intros (Fx & Fx' & Hx) (Fy & Fy' & Hy) F'.
  apply fin_inv in Fx, Fx', Fy, Fy'.
  destruct Fx as [Vx Fx], Fx' as [Vx' Fx'], Fy as [Vy Fy], Fy' as [Vy' Fy'].
  destruct (mul_spec x y Vx Vy Fx Fy) as (V & NN & X).
  destruct (mul_spec x' y' Vx' Vy' Fx' Fy') as (V' & NN' & X').
  change (SFmul 53 1024 x y) with (mul x y) in *.
  change (SFmul 53 1024 x' y') with (mul x' y') in *.
  change (2 ^ 1074) with u in *. pose proof u_pos as Hu.
  pose proof (RNs2_mono 0 (xv x * xv y) ltac:(nia)) as M0. rewrite RNs2_0 in M0.
  pose proof (RNs2_mono (xv x * xv y) (xv x' * xv y') ltac:(nia)) as M1.
  pose proof (xv_abs_lt _ V' F').
  assert (0 <= xv (mul x y) <= xv (mul x' y')) by nia.
  repeat split; try (apply fin_intro; try assumption); try lia.
  apply finite_of_lt; [exact NN|]. lia.
Qed.

(** Subtracting from a fixed bound reverses the order. *)
Lemma sub_anti (c x x' : number) :
  nle x x' -> nle x' c -> nle (sub c x') (sub c x) /\ nle (sub c x) c.
Proof.
  intros (Fx & Fx' & Hx) (_ & Fc & Hc).
  apply fin_inv in Fx, Fx', Fc.
  destruct Fx as [Vx Fx], Fx' as [Vx' Fx'], Fc as [Vc Fc].
  destruct (sub_spec c x Vc Vx Fc Fx) as (V & NN & X).
  destruct (sub_spec c x' Vc Vx' Fc Fx') as (V' & NN' & X').
  change (SFsub 53 1024 c x) with (sub c x) in *.
  change (SFsub 53 1024 c x') with (sub c x') in *.
  pose proof (RNs_mono 0 (xv c - xv x') ltac:(lia)) as M0. rewrite RNs_0 in M0.
  pose proof (RNs_mono (xv c - xv x') (xv c - xv x) ltac:(lia)) as M1.
  pose proof (RNs_mono (xv c - xv x) (xv c) ltac:(lia)) as M2.
  rewrite (RNs_fix c Vc) in M2.
  pose proof (xv_abs_lt _ Vc Fc).
  assert (F1 : finite (sub c x) = true) by (apply finite_of_lt; [exact NN|]; lia).
  assert (F2 : finite (sub c x') = true) by (apply finite_of_lt; [exact NN'|]; lia).
  repeat split; try (apply fin_intro; assumption); lia.
Qed.

Lemma round_mono (x y : number) : nle x y -> nle (Math_round x) (Math_round y).
Proof.
  intros (Fx & Fy & H). apply fin_inv in Fx, Fy.
  destruct Fx as [Vx Fx], Fy as [Vy Fy].
  destruct (Math_round_spec x Vx Fx) as (V & F & X).
  destruct (Math_round_spec y Vy Fy) as (V' & F' & X').
  pose proof u_pos as Hu.
  assert (0 <= (2 * xv x + u) / (2 * u)) by (apply Z.div_pos; lia).
  assert ((2 * xv x + u) / (2 * u) <= (2 * xv y + u) / (2 * u))
    by (apply Z.div_le_mono; lia).
  repeat split; try (apply fin_intro; assumption); nia.
Qed.

(** ** Arrays: sorting, filtering, slicing *)

Section SortFacts.
Context {A : Type} (comparefn : A -> A -> number).

Lemma insert_perm (x : A) (l : list A) :
  Permutation (insert comparefn x l) (x :: l).
Proof.
  induction l as [|y l IH]; cbn [insert].
  - apply Permutation_refl.
  - destruct (gtb _ _).
    + apply perm_trans with (y :: x :: l).
      * apply perm_skip, IH.
      * apply perm_swap.
    + apply Permutation_refl.
Qed.

Lemma sort_perm (l : list A) : Permutation (sort comparefn l) l.
Proof.
  induction l as [|x l IH]; cbn [sort fold_right].
  - apply perm_nil.
  - eapply perm_trans; [apply insert_perm|]. apply perm_skip, IH.
Qed.

(** Sorting with a comparator that follows an integer key [g]. *)
Variable g : A -> Z.
Variable ok : A -> Prop.
Hypothesis comparefn_key :
  forall x y, ok x -> ok y -> gtb (comparefn x y) (of_Z 0) = (g x <? g y).

Lemma insert_sorted (x : A) (l : list A) :
  ok x -> Forall ok l ->
  StronglySorted (fun a b => g b <= g a) l ->
  StronglySorted (fun a b => g b <= g a) (insert comparefn x l).
Proof.
  intros Hx Hl HS. induction HS as [|y l HS IH Hy]; cbn [insert].
  - constructor; constructor.
  - inversion Hl as [|? ? Oy Ol]; subst.
    rewrite comparefn_key by assumption.
    destruct (Z.ltb_spec (g x) (g y)) as [L|L].
    + constructor; [apply IH, Ol|].
      eapply Permutation_Forall; [apply Permutation_sym, insert_perm|].
      constructor; [lia|exact Hy].
    + constructor; [constructor; assumption|].
      constructor; [exact L|].
      eapply Forall_impl; [|exact Hy]. cbv beta. intros z Hz. lia.
Qed.

Lemma sort_sorted (l : list A) :
  Forall ok l -> StronglySorted (fun a b => g b <= g a) (sort comparefn l).
Proof.
  induction l as [|x l IH]; intros Hl; cbn [sort fold_right].
  - constructor.
  - inversion Hl as [|? ? Ox Ol]; subst.
    apply insert_sorted; [exact Ox| |apply IH, Ol].
    eapply Permutation_Forall; [apply Permutation_sym, sort_perm|exact Ol].
Qed.
End SortFacts.

(** Taking a prefix or a sublist keeps order and distinct keys. *)
Section Sublists.
Context {A K : Type} (key : A -> K).

Lemma StronglySorted_firstn (R : A -> A -> Prop) (n : nat) (xs : list A) :
  StronglySorted R xs -> StronglySorted R (firstn n xs).
Proof.
  intros HS. revert n. induction HS as [|x xs HS IH Hx]; intros [|n]; cbn [firstn];
    try constructor.
  - apply IH.
  - clear -Hx. revert n. induction Hx as [|y ys Hy Hl IH]; intros [|n]; cbn [firstn];
      constructor; auto.
Qed.

Lemma In_firstn (n : nat) (xs : list A) (x : A) : In x (firstn n xs) -> In x xs.
Proof.
  revert n. induction xs as [|y xs IH]; intros [|n]; cbn [firstn]; intros H;
    try contradiction.
  destruct H as [H|H]; [left; exact H|right; eapply IH, H].
Qed.

Lemma keys_NoDup_firstn (n : nat) (xs : list A) :
  NoDup (map key xs) -> NoDup (map key (firstn n xs)).
Proof.
  revert n. induction xs as [|y xs IH]; intros [|n]; cbn [firstn map]; intros H;
    try constructor.
  - inversion H as [|? ? Hn Hd]; subst. intros Hin. apply Hn.
    apply in_map_iff in Hin. destruct Hin as (z & E & Hz).
    apply in_map_iff. exists z. split; [exact E|]. eapply In_firstn, Hz.
  - inversion H; subst. apply IH. assumption.
Qed.

Lemma keys_NoDup_filter (keep : A -> bool) (xs : list A) :
  NoDup (map key xs) -> NoDup (map key (filter keep xs)).
Proof.
  induction xs as [|y xs IH]; cbn [filter map]; intros H; [constructor|].
  inversion H as [|? ? Hn Hd]; subst.
  destruct (keep y); cbn [map]; [|apply IH, Hd].
  constructor; [|apply IH, Hd].
  intros Hin. apply Hn. apply in_map_iff in Hin. destruct Hin as (z & E & Hz).
  apply in_map_iff. exists z. split; [exact E|]. apply filter_In in Hz. apply Hz.
Qed.
End Sublists.

(** ** The shape of the result *)

Section Shape.
Variable Math_log10 : number -> number.

(** The six candidate blockers, in declaration order. *)
Lemma allBlockers_eq (i : Inputs) :
  allBlockers Math_log10 i =
  Some (map (fun key =>
               {| factor := key;
                  reason := match lookup key BLOCKER_HINTS with
                            | Some h => Hint.reason h | None => EmptyString end;
                  hint := match lookup key BLOCKER_HINTS with
                          | Some h => Hint.hint h | None => EmptyString end;
                  gap := sub (maxScore key) (get (subscores Math_log10 i) key);
                  subscore := get (subscores Math_log10 i) key |})
            factors).
Proof. reflexivity. Qed.

Lemma score_eq (i : Inputs) :
  score Math_log10 i =
  add (add (add (add (add
    (mul (sub (of_Z 100) (variance i)) (weight "stableProcess"))
    (mul (sub (of_Z 100) (exceptionRate i)) (weight "lowExceptions")))
    (mul (dataQuality i) (weight "dataQuality")))
    (mul (systemAccess i) (weight "systemAccess")))
    (mul (sub (of_Z 100) (complianceSensitivity i)) (weight "lowComplianceRisk")))
    (mul (volumeSubscore Math_log10 (processVolume i)) (weight "volumePotential")).
Proof. reflexivity. Qed.

Lemma calculateReadiness_eq (i : Inputs) :
  calculateReadiness Math_log10 i =
  match allBlockers Math_log10 i with
  | Some all =>
      Some {| readinessScore := Math_round (score Math_log10 i);
              band := fst (bandOf (Math_round (score Math_log10 i)));
              topBlockers := selectTop all;
              narrative := snd (bandOf (Math_round (score Math_log10 i))) |}
  | None => None
  end.
Proof.
  unfold calculateReadiness.
  destruct (bandOf (Math_round (score Math_log10 i))) as [b n]. reflexivity.
Qed.

(** The output record, as the function builds it. *)
Lemma calculateReadiness_some (i : Inputs) (o : Output) :
  calculateReadiness Math_log10 i = Some o ->
  exists all,
    allBlockers Math_log10 i = Some all /\
    o = {| readinessScore := Math_round (score Math_log10 i);
           band := fst (bandOf (Math_round (score Math_log10 i)));
           topBlockers := selectTop all;
           narrative := snd (bandOf (Math_round (score Math_log10 i))) |}.
Proof.
  rewrite calculateReadiness_eq.
  destruct (allBlockers Math_log10 i) as [all|]; [|discriminate].
  intros H. exists all. split; [reflexivity|].
  symmetry. exact (f_equal (fun x => match x with Some y => y | None => o end) H).
Qed.
End Shape.

(** ** Purity and totality *)

Section Purity.
Variable Math_log10 : number -> number.

(** One call of the callback: two reads of the table. *)
Lemma toBlocker_run (key : string) (s : number) (w : World.t) :
  Stateful.toBlocker (key, s) w
  = match lookup key (World.BLOCKER_HINTS w) with
    | Some h =>
        Some ({| factor := key;
                 reason := Hint.reason h;
                 hint := Hint.hint h;
                 gap := sub (maxScore key) s;
                 subscore := s |}, w)
    | None => None
    end.
Proof.
  unfold Stateful.toBlocker, Stateful.bind, Stateful.BLOCKER_HINTS_get,
    Stateful.ret, maxScore.
  destruct (lookup key (World.BLOCKER_HINTS w)) as [h|] eqn:E; [|reflexivity].
  cbv beta iota. rewrite E. reflexivity.
Qed.

Lemma map_run {A B : Type} (f : A -> Stateful.M B) (x : A) (xs : list A)
    (w : World.t) :
  Stateful.map_ f (x :: xs) w
  = match f x w with
    | None => None
    | Some (y, w') =>
        match Stateful.map_ f xs w' with
        | None => None
        | Some (ys, w'') => Some (y :: ys, w'')
        end
    end.
Proof.
  cbn [Stateful.map_]. unfold Stateful.bind, Stateful.ret.
  destruct (f x w) as [[y w']|]; [|reflexivity].
  destruct (Stateful.map_ f xs w') as [[ys w'']|]; reflexivity.
Qed.

Lemma calculateReadiness_run (i : Inputs) (w : World.t) :
  Stateful.calculateReadiness Math_log10 i w
  = let s := subscores Math_log10 i in
    let score :=
      add (add (add (add (add
        (mul (get s "stableProcess") (get (World.WEIGHTS w) "stableProcess"))
        (mul (get s "lowExceptions") (get (World.WEIGHTS w) "lowExceptions")))
        (mul (get s "dataQuality") (get (World.WEIGHTS w) "dataQuality")))
        (mul (get s "systemAccess") (get (World.WEIGHTS w) "systemAccess")))
        (mul (get s "lowComplianceRisk") (get (World.WEIGHTS w) "lowComplianceRisk")))
        (mul (get s "volumePotential") (get (World.WEIGHTS w) "volumePotential")) in
    match Stateful.map_ Stateful.toBlocker s w with
    | None => None
    | Some (all, w') =>
        Some ({| readinessScore := Math_round score;
                 band := fst (bandOf (Math_round score));
                 topBlockers := selectTop all;
                 narrative := snd (bandOf (Math_round score)) |}, w')
    end.
Proof.
  unfold Stateful.calculateReadiness, Stateful.score, Stateful.bind,
    Stateful.WEIGHTS_get, Stateful.ret. cbv zeta.
  destruct (bandOf _) as [b n].
  destruct (Stateful.map_ Stateful.toBlocker (subscores Math_log10 i) w)
    as [[all w']|]; reflexivity.
Qed.

(** The reads of [BLOCKER_HINTS] leave the world as it is. *)
Lemma map_toBlocker_frame (entries : list (string * number)) (w w1 : World.t)
    (bs : list Blocker) :
  Stateful.map_ Stateful.toBlocker entries w = Some (bs, w1) -> w1 = w.
Proof.
  revert bs w1. induction entries as [|[key s] entries IH]; intros bs w1 H.
  - cbn in H. unfold Stateful.ret in H. congruence.
  - rewrite map_run, toBlocker_run in H.
    destruct (lookup key (World.BLOCKER_HINTS w)) as [h|]; [|discriminate].
    destruct (Stateful.map_ Stateful.toBlocker entries w) as [[bs' w2]|] eqn:E;
      [|discriminate].
    pose proof (IH bs' w2 eq_refl). congruence.
Qed.

(** A call of [calculateReadiness] writes nothing: the world it leaves
    is the world it found, effects included. *)
Lemma calculateReadiness_frame (i : Inputs) (w w1 : World.t) (o : Output) :
  Stateful.calculateReadiness Math_log10 i w = Some (o, w1) -> w1 = w.
Proof.
  rewrite calculateReadiness_run. cbv zeta.
  destruct (Stateful.map_ Stateful.toBlocker (subscores Math_log10 i) w)
    as [[bs w2]|] eqn:E; [|discriminate].
  apply map_toBlocker_frame in E. congruence.
Qed.

Lemma map_toBlocker_tables (entries : list (string * number)) (w w' : World.t) :
  World.BLOCKER_HINTS w = World.BLOCKER_HINTS w' ->
  option_map fst (Stateful.map_ Stateful.toBlocker entries w)
  = option_map fst (Stateful.map_ Stateful.toBlocker entries w').
Proof.
  intros HH. induction entries as [|[key s] entries IH]; [reflexivity|].
  rewrite !map_run, !toBlocker_run, <- HH.
  destruct (lookup key (World.BLOCKER_HINTS w)) as [h|]; [|reflexivity].
  destruct (Stateful.map_ Stateful.toBlocker entries w) as [[bs w2]|];
    destruct (Stateful.map_ Stateful.toBlocker entries w') as [[bs' w2']|];
    cbn [option_map fst] in *; congruence.
Qed.

(** Of the world, the result depends on the two tables only: not on
    [lastInputs], [lastOutput] or anything done before. *)
Lemma calculateReadiness_reads_tables (i : Inputs) (w w' : World.t) :
  World.WEIGHTS w = World.WEIGHTS w' ->
  World.BLOCKER_HINTS w = World.BLOCKER_HINTS w' ->
  option_map fst (Stateful.calculateReadiness Math_log10 i w)
  = option_map fst (Stateful.calculateReadiness Math_log10 i w').
Proof.
  intros HW HH.
  pose proof (map_toBlocker_tables (subscores Math_log10 i) w w' HH) as E.
  rewrite !calculateReadiness_run. cbv zeta. rewrite <- HW.
  destruct (Stateful.map_ Stateful.toBlocker (subscores Math_log10 i) w)
    as [[bs w2]|];
    destruct (Stateful.map_ Stateful.toBlocker (subscores Math_log10 i) w')
    as [[bs' w2']|];
    cbn [option_map fst] in *; congruence.
Qed.

Lemma map_toBlocker_declared (entries : list (string * number)) (w : World.t) :
  World.BLOCKER_HINTS w = BLOCKER_HINTS ->
  Stateful.map_ Stateful.toBlocker entries w
  = match mapM toBlocker entries with
    | Some bs => Some (bs, w)
    | None => None
    end.
Proof.
  intros HH. induction entries as [|[key s] entries IH]; [reflexivity|].
  rewrite map_run, toBlocker_run, HH. cbn [mapM]. unfold toBlocker at 1.
  fold (maxScore key).
  destruct (lookup key BLOCKER_HINTS) as [h|]; [|reflexivity].
  rewrite IH. destruct (mapM toBlocker entries); reflexivity.
Qed.

Lemma declared_weight (key : string) :
  In key factors -> get (World.WEIGHTS initial_world) key = weight key.
Proof.
  unfold factors. cbn [In].
  intros [<-|[<-|[<-|[<-|[<-|[<-|[]]]]]]]; vm_compute; reflexivity.
Qed.

(** With the tables as declared, the call returns what the function of
    the inputs alone returns. *)
Lemma calculateReadiness_declared (i : Inputs) (w : World.t) :
  constants_intact w ->
  Stateful.calculateReadiness Math_log10 i w
  = match calculateReadiness Math_log10 i with
    | Some o => Some (o, w)
    | None => None
    end.
Proof.
  intros [HW HH]. rewrite calculateReadiness_run. cbv zeta.
  rewrite HW, !declared_weight by (unfold factors; cbn [In]; tauto).
  rewrite (map_toBlocker_declared _ w HH), calculateReadiness_eq.
  unfold allBlockers, score. cbv zeta.
  destruct (mapM toBlocker (subscores Math_log10 i)); reflexivity.
Qed.

End Purity.

(** C8: [calculateReadiness] is pure and total.  Run in the module's
    state, a call on any input record returns an output and never
    throws; it leaves the state as it found it: no variable of the
    module is assigned and no procedure acting on the browser is called;
    and two calls on the same record return the same output, whatever
    was stored or done in between, the two constant tables being what
    the module declares (nothing in the module writes to them).  The
    output is that of the function of the record alone which the other
    theorems are about. *)
Theorem calculateReadiness_pure_total :
  forall (Math_log10 : number -> number) (i : Inputs) (w w' : World.t),
    constants_intact w -> constants_intact w' ->
    exists o : Output,
      Stateful.calculateReadiness Math_log10 i w = Some (o, w) /\
      Stateful.calculateReadiness Math_log10 i w' = Some (o, w') /\
      calculateReadiness Math_log10 i = Some o.
Proof.
  intros L i w w' Hw Hw'.
  rewrite (calculateReadiness_declared L i w Hw),
    (calculateReadiness_declared L i w' Hw').
  rewrite calculateReadiness_eq, allBlockers_eq.
  eexists. split; [reflexivity|]. split; reflexivity.
Qed.

Lemma calculateReadiness_pure_total_witness :
  exists o : Output,
    Stateful.calculateReadiness log10_sample DEFAULT_INPUTS initial_world
    = Some (o, initial_world) /\
    forall (inputs : list (string * number)) (output : Output),
      Stateful.calculateReadiness log10_sample DEFAULT_INPUTS
        (later_world inputs output)
      = Some (o, later_world inputs output).
Proof.
  assert (I : constants_intact initial_world) by (split; reflexivity).
  destruct (calculateReadiness_pure_total log10_sample DEFAULT_INPUTS
              initial_world initial_world I I) as (o & A & _ & _).
  exists o. split; [exact A|].
  intros inputs output.
  assert (J : constants_intact (later_world inputs output)) by (split; reflexivity).
  destruct (calculateReadiness_pure_total log10_sample DEFAULT_INPUTS
              initial_world (later_world inputs output) I J)
    as (o' & A' & B & _).
  rewrite A in A'.
  replace o with o'; [exact B|].
  exact (f_equal (fun x => match x with Some y => fst y | None => o end)
           (eq_sym A')).
Defined.

(** ** Bands *)

Lemma is_integer_of_Z (k : Z) : Z.abs k < 2 ^ 53 -> is_integer (of_Z k) k.
Proof.
  intros Hk. destruct (of_Z_spec k Hk) as (V & F & X).
  split; [apply fin_intro; assumption|exact X].
Qed.

Lemma geb_integer (x : number) (k c : Z) :
  is_integer x k -> Z.abs c < 2 ^ 53 -> geb x (of_Z c) = (c <=? k).
Proof.
  intros [Fx Xk] Hc. apply fin_inv in Fx. destruct Fx as [Vx Fx].
  destruct (of_Z_spec c Hc) as (Vc & Fc & Xc).
  unfold geb. rewrite leb_spec by auto using finite_nonnan.
  rewrite Xk, Xc. pose proof u_pos.
  destruct (Z.leb_spec (c * u) (k * u)), (Z.leb_spec c k); try reflexivity; nia.
Qed.

Lemma bandOf_integer (x : number) (k : Z) :
  is_integer x k -> bandOf x = band_of_int k.
Proof.
  intros H. unfold bandOf, band_of_int.
  rewrite !(geb_integer x k) by (try assumption; cbn; lia). reflexivity.
Qed.

(** C4: the band and the narrative depend on the rounded score alone, by
    fixed thresholds: a score [k >= 75] gives Green, [50 <= k <= 74] gives
    Yellow and [k <= 49] gives Red, each with its one fixed narrative; in
    particular 75 is Green, 74 and 50 are Yellow and 49 is Red. *)
Theorem band_by_thresholds :
  forall (Math_log10 : number -> number) (i : Inputs) (o : Output),
    calculateReadiness Math_log10 i = Some o ->
    (band o, narrative o) = bandOf (readinessScore o) /\
    (forall k : Z, is_integer (readinessScore o) k ->
       (75 <= k -> band o = "Green"%string /\ narrative o = narrative_Green) /\
       (50 <= k <= 74 -> band o = "Yellow"%string /\ narrative o = narrative_Yellow) /\
       (k <= 49 -> band o = "Red"%string /\ narrative o = narrative_Red)) /\
    bandOf (of_Z 75) = ("Green"%string, narrative_Green) /\
    bandOf (of_Z 74) = ("Yellow"%string, narrative_Yellow) /\
    bandOf (of_Z 50) = ("Yellow"%string, narrative_Yellow) /\
    bandOf (of_Z 49) = ("Red"%string, narrative_Red).
Proof.
  intros L i o H.
  apply calculateReadiness_some in H. destruct H as (all & _ & ->).
  cbn [band narrative readinessScore].
  split; [symmetry; apply surjective_pairing|].
  split; [|repeat split; reflexivity].
  intros k Hk. rewrite (bandOf_integer _ k Hk). unfold band_of_int.
  split; [|split]; intros Hr;
    destruct (Z.leb_spec 75 k); try lia; try (split; reflexivity);
    destruct (Z.leb_spec 50 k); try lia; split; reflexivity.
Qed.

Lemma band_by_thresholds_witness :
  exists o, calculateReadiness log10_sample worst_inputs = Some o /\
            is_integer (readinessScore o) 0 /\ band o = "Red"%string.
Proof.
  eexists. split; [vm_compute; reflexivity|].
  split; [apply (is_integer_of_Z 0); cbn; lia|].
  refine (proj1 (proj2 (proj2 (proj1 (proj2
    (band_by_thresholds log10_sample worst_inputs _ _)) 0 _)) _)).
  - vm_compute. reflexivity.
  - apply (is_integer_of_Z 0). cbn. lia.
  - lia.
Defined.

(** ** Extreme inputs *)

(** C5: with every field at its best value and a volume whose subscore
    reaches the cap of 95, the score is exactly 100, the band is Green
    and there is no blocker. *)
Theorem best_inputs_result :
  forall (Math_log10 : number -> number) (volume : number),
    volumeSubscore Math_log10 volume = of_Z 95 ->
    calculateReadiness Math_log10 (best_inputs volume)
    = Some {| readinessScore := of_Z 100;
              band := "Green";
              topBlockers := [];
              narrative := narrative_Green |}.
Proof.
  intros L volume H.
  unfold calculateReadiness, score, allBlockers, subscores, best_inputs.
  cbn [processVolume variance exceptionRate dataQuality systemAccess
       complianceSensitivity].
  rewrite H. vm_compute. reflexivity.
Qed.

Lemma best_inputs_result_witness :
  volumeSubscore log10_sample (of_Z 10000) = of_Z 95 /\
  calculateReadiness log10_sample (best_inputs (of_Z 10000))
  = Some {| readinessScore := of_Z 100;
            band := "Green";
            topBlockers := [];
            narrative := narrative_Green |}.
Proof.
  split; [vm_compute; reflexivity|].
  apply (best_inputs_result log10_sample (of_Z 10000)).
  vm_compute. reflexivity.
Defined.

(** C6: with every field at its worst value the score is exactly 0, the
    band is Red, and the blocker list is non-empty, has at most four
    entries and is sorted by descending gap. *)
Theorem worst_inputs_result :
  forall Math_log10 : number -> number,
    exists o,
      calculateReadiness Math_log10 worst_inputs = Some o /\
      readinessScore o = of_Z 0 /\
      band o = "Red"%string /\
      narrative o = narrative_Red /\
      topBlockers o <> [] /\
      (List.length (topBlockers o) <= 4)%nat /\
      StronglySorted gap_ge (topBlockers o) /\
      map factor (topBlockers o)
      = [ "stableProcess"; "lowExceptions"; "dataQuality"; "systemAccess" ]%string.
Proof.
  intros L. eexists. split; [vm_compute; reflexivity|].
  cbn [readinessScore band narrative topBlockers].
  split; [reflexivity|]. split; [reflexivity|]. split; [reflexivity|].
  split; [discriminate|]. split; [cbn; lia|]. split; [|reflexivity].
  repeat (constructor; try reflexivity).
Qed.

(** ** Weights *)

(** Around a number whose mantissa is not the least of its binade, the
    finite numbers are spaced one unit in the last place apart. *)
Lemma number_spacing (m : positive) (e : Z) (y : number) :
  valid (S754_finite false m e) = true -> 2 ^ 52 < Z.pos m ->
  fin y = true ->
  xv y = xv (S754_finite false m e) \/
  2 ^ (e + 1074) <= Z.abs (xv y - xv (S754_finite false m e)).
Proof.
  intros V Hm Fy. apply fin_inv in Fy. destruct Fy as [Vy Fy].
  pose proof (valid_finite_inv _ _ _ V) as (He & Hm53 & _).
  rewrite xv_finite. cbn [cond_Zopp]. unfold pv.
  pose proof (pow2_pos (e + 1074) ltac:(lia)) as HP.
  set (P := 2 ^ (e + 1074)) in *.
  destruct y as [sy|sy| |sy my ey]; try discriminate.
  - right. cbn [xv]. nia.
  - pose proof (valid_finite_inv _ _ _ Vy) as (Hey & Hmy & _).
    pose proof (pow2_pos (ey + 1074) ltac:(lia)) as HPy.
    rewrite xv_finite. unfold pv.
    destruct sy; cbn [cond_Zopp]; [right; nia|].
    destruct (Z.le_gt_cases e ey) as [L|L].
    + assert (E : 2 ^ (ey + 1074) = 2 ^ (ey - e) * P).
      { unfold P. rewrite <- pow2_split by lia. f_equal. lia. }
      rewrite E.
      pose proof (pow2_pos (ey - e) ltac:(lia)).
      set (k := Z.pos my * 2 ^ (ey - e)).
      replace (Z.pos my * (2 ^ (ey - e) * P)) with (k * P) by (unfold k; lia).
      destruct (Z.eq_dec k (Z.pos m)) as [->|N]; [left; reflexivity|right]. nia.
    + right.
      assert (E : P = 2 ^ (e - ey) * 2 ^ (ey + 1074)).
      { unfold P. rewrite <- pow2_split by lia. f_equal. lia. }
      assert (H2 : 2 <= 2 ^ (e - ey)).
      { change 2 with (2 ^ 1) at 1. apply pow2_le. lia. }
      assert (B : Z.pos my * 2 ^ (ey + 1074) * 2 <= 2 ^ 53 * P).
      { rewrite E. nia. }
      change (2 ^ 53) with (2 * 2 ^ 52) in B. nia.
Qed.

(** A number within half a unit in the last place of [q] is nearest to
    [q]. *)
Lemma nearest_binary64_intro (q : Q) (m : positive) (e : Z) :
  valid (S754_finite false m e) = true -> 2 ^ 52 < Z.pos m ->
  2 * Z.abs (xv (S754_finite false m e) * QDen q - Qnum q * u)
  <= 2 ^ (e + 1074) * QDen q ->
  nearest_binary64 q (S754_finite false m e).
Proof.
  intros V Hm H. split; [apply fin_intro; [exact V|reflexivity]|].
  intros y Fy.
  destruct (number_spacing m e y V Hm Fy) as [E|S]; [rewrite E; lia|].
  pose proof (valid_finite_inv _ _ _ V) as (He & _ & _).
  pose proof (pow2_pos (e + 1074) ltac:(lia)) as HP.
  assert (HD : 0 < QDen q) by reflexivity.
  set (x := xv (S754_finite false m e)) in *.
  assert (S' : 2 ^ (e + 1074) * QDen q <= Z.abs ((xv y - x) * QDen q)).
  { rewrite Z.abs_mul, (Z.abs_eq (QDen q)) by lia. nia. }
  lia.
Qed.

(** C7 (as amended): there is one weight constant for each of the six
    factors, and each is the binary64 number nearest to its decimal
    literal.  The literals 0.2, 0.2, 0.2, 0.15, 0.15, 0.1 sum to exactly
    1; the six constants sum to [1 + 2^-55], and added as numbers in
    declaration order they give [1 + 2^-52]. *)
Theorem weights_nearest_binary64 :
  map fst WEIGHTS = factors /\
  (fold_right Qplus 0 (map snd WEIGHTS) == 1)%Q /\
  Forall (fun kq => nearest_binary64 (snd kq) (weight (fst kq))) WEIGHTS /\
  (fold_right Qplus 0 (map (fun key => to_Q (weight key)) factors)
   == 1 + 1 / inject_Z (2 ^ 55))%Q /\
  (to_Q (fold_left add (map weight factors) (of_Z 0))
   == 1 + 1 / inject_Z (2 ^ 52))%Q.
Proof.
  split; [reflexivity|]. split; [reflexivity|]. split; [|split].
  - unfold WEIGHTS.
    repeat (constructor;
            [cbn [fst snd];
             match goal with
             | |- nearest_binary64 ?q (weight ?k) =>
                 let w := eval vm_compute in (weight k) in
                 change (weight k) with w
             end;
             apply nearest_binary64_intro;
             [reflexivity|reflexivity|vm_compute; discriminate]|]).
    constructor.
  - vm_compute. reflexivity.
  - vm_compute. reflexivity.
Qed.

(** C7 (as stated) fails: the six constants do not sum to 1, neither
    exactly nor when added as numbers. *)
Lemma weights_sum_above_one :
  (1 < fold_right Qplus 0 (map (fun key => to_Q (weight key)) factors))%Q /\
  ltb (of_Z 1) (fold_left add (map weight factors) (of_Z 0)) = true /\
  SFeqb (fold_left add (map weight factors) (of_Z 0)) (of_Z 1) = false.
Proof. split; [|split]; vm_compute; reflexivity. Qed.

(** The numbers the weights denote are the nearest binary64 values; added
    in declaration order, as numbers, they give [1 + 2^-52]. *)
Remark weights_as_numbers :
  map weight factors
  = [ S754_finite false 7205759403792794 (-55);
      S754_finite false 7205759403792794 (-55);
      S754_finite false 7205759403792794 (-55);
      S754_finite false 5404319552844595 (-55);
      S754_finite false 5404319552844595 (-55);
      S754_finite false 7205759403792794 (-56) ] /\
  fold_left add (map weight factors) (of_Z 0)
  = S754_finite false 4503599627370497 (-52).
Proof. split; vm_compute; reflexivity. Qed.

(** ** Blocker records *)

Lemma NoDup_factors : NoDup factors.
Proof.
  unfold factors.
  repeat (constructor; [cbn [In]; intuition discriminate|]). constructor.
Qed.

Lemma selectTop_In (all : list Blocker) (b : Blocker) :
  In b (selectTop all) ->
  In b all /\ gtb (gap b) MIN_GAP_THRESHOLD = true.
Proof.
  unfold selectTop, slice0. intros H. apply In_firstn in H.
  apply (Permutation_in _ (sort_perm byGapDesc _)) in H.
  apply filter_In in H. exact H.
Qed.

Lemma selectTop_NoDup (all : list Blocker) :
  NoDup (map factor all) -> NoDup (map factor (selectTop all)).
Proof.
  intros H. unfold selectTop, slice0. apply keys_NoDup_firstn.
  eapply Permutation_NoDup.
  - apply Permutation_map, Permutation_sym, sort_perm.
  - apply keys_NoDup_filter, H.
Qed.

(** C10: every blocker of the result names one of the six factors, no
    factor twice; its subscore is the subscore of that factor, its gap is
    the factor's maximum (95 for volumePotential, 100 otherwise) minus
    that subscore, and its reason and hint are the table entries of the
    factor. *)
Theorem blockers_consistent :
  forall (Math_log10 : number -> number) (i : Inputs) (o : Output),
    calculateReadiness Math_log10 i = Some o ->
    NoDup (map factor (topBlockers o)) /\
    forall b, In b (topBlockers o) ->
      In (factor b) factors /\
      subscore b = get (subscores Math_log10 i) (factor b) /\
      gap b = sub (if String.eqb (factor b) "volumePotential"
                   then of_Z 95 else of_Z 100) (subscore b) /\
      lookup (factor b) BLOCKER_HINTS = Some (Hint.mk (reason b) (hint b)).
Proof.
  intros L i o H.
  apply calculateReadiness_some in H. destruct H as (all & Hall & ->).
  rewrite allBlockers_eq in Hall.
  apply (f_equal (fun x => match x with Some y => y | None => all end)) in Hall.
  subst all. cbn [topBlockers]. split.
  - apply selectTop_NoDup. rewrite map_map. cbn [factor]. rewrite map_id.
    apply NoDup_factors.
  - intros b Hb. apply selectTop_In in Hb. destruct Hb as [Hb _].
    apply in_map_iff in Hb. destruct Hb as (key & <- & Hkey).
    cbn [factor subscore gap reason hint].
    split; [exact Hkey|]. split; [reflexivity|].
    unfold factors in Hkey. cbn [In] in Hkey.
    repeat (destruct Hkey as [<-|Hkey]; [split; reflexivity|]).
    contradiction.
Qed.

Lemma blockers_consistent_witness :
  exists o, calculateReadiness log10_sample DEFAULT_INPUTS = Some o /\
            NoDup (map factor (topBlockers o)).
Proof.
  eexists. split; [vm_compute; reflexivity|].
  apply (blockers_consistent log10_sample DEFAULT_INPUTS).
  vm_compute. reflexivity.
Defined.

(** ** Blocker ranking *)

Lemma Math_max_valid (x y : number) :
  valid x = true -> valid y = true -> valid (Math_max x y) = true.
Proof.
  intros Vx Vy.
  destruct x as [sx|sx| |sx mx ex]; destruct y as [sy|sy| |sy my ey];
    try reflexivity; unfold Math_max; destruct (ltb _ _); assumption.
Qed.

Lemma Math_min_valid (x y : number) :
  valid x = true -> valid y = true -> valid (Math_min x y) = true.
Proof.
  intros Vx Vy.
  destruct x as [sx|sx| |sx mx ex]; destruct y as [sy|sy| |sy my ey];
    try reflexivity; unfold Math_min; destruct (ltb _ _); assumption.
Qed.

Lemma clamp_valid (value lo hi : number) :
  valid value = true -> valid lo = true -> valid hi = true ->
  valid (clamp value lo hi) = true.
Proof. intros. unfold clamp. auto using Math_max_valid, Math_min_valid. Qed.

Lemma volumeSubscore_valid (L : number -> number) (p : number) :
  valid (L (add p (of_Z 1))) = true -> valid (volumeSubscore L p) = true.
Proof.
  intros V. unfold volumeSubscore. destruct (leb p (of_Z 0)); [reflexivity|].
  apply clamp_valid; try reflexivity. apply mul_valid; [exact V|reflexivity].
Qed.

Lemma valid_inputs_inv (i : Inputs) :
  valid_inputs i = true ->
  valid (processVolume i) = true /\ valid (variance i) = true /\
  valid (exceptionRate i) = true /\ valid (dataQuality i) = true /\
  valid (systemAccess i) = true /\ valid (complianceSensitivity i) = true.
Proof.
  unfold valid_inputs. rewrite !andb_true_iff. tauto.
Qed.

Lemma gapOf_valid (L : number -> number) (i : Inputs) (key : string) :
  valid_inputs i = true ->
  valid (L (add (processVolume i) (of_Z 1))) = true ->
  In key factors -> valid (gapOf L i key) = true.
Proof.
  intros Vi VL Hkey. apply valid_inputs_inv in Vi.
  destruct Vi as (Vp & Vv & Ve & Vd & Vs & Vc).
  unfold factors in Hkey. cbn [In] in Hkey.
  repeat (destruct Hkey as [<-|Hkey];
          [apply sub_valid; [reflexivity|];
           first [ assumption
                 | apply sub_valid; [reflexivity|assumption]
                 | apply volumeSubscore_valid; assumption ]|]).
  contradiction.
Qed.

Lemma StronglySorted_impl {A : Type} (R R' : A -> A -> Prop) (ok : A -> Prop)
    (l : list A) :
  (forall a b, ok a -> ok b -> R a b -> R' a b) ->
  Forall ok l -> StronglySorted R l -> StronglySorted R' l.
Proof.
  intros HR Hok HS. induction HS as [|x l HS IH Hx]; [constructor|].
  inversion Hok as [|? ? Ox Ol]; subst.
  constructor; [apply IH, Ol|].
  clear IH HS. induction Hx as [|y l Hy Hl IH]; [constructor|].
  inversion Ol; subst. constructor; auto.
Qed.

Lemma byGapDesc_key (x y : Blocker) :
  gap_ok x -> gap_ok y ->
  gtb (byGapDesc x y) (of_Z 0) = (xv (gap x) <? xv (gap y)).
Proof.
  intros [Vx Nx] [Vy Ny]. unfold gtb, byGapDesc.
  apply sub_pos_iff; assumption.
Qed.

Lemma gtb_nonnan (x y : number) : gtb x y = true -> nonnan x = true.
Proof. destruct x, y; try discriminate; reflexivity. Qed.

(** C1: the blocker list is obtained from the six factors, each with gap
    = (95 for volumePotential, 100 otherwise) minus its subscore, by
    keeping exactly the factors whose gap is strictly greater than 15
    (a gap of 15 is excluded, 15.0001 is included), ordering them by
    descending gap and taking the first four at most. *)
Theorem topBlockers_selection :
  forall (Math_log10 : number -> number) (i : Inputs) (o : Output),
    valid_inputs i = true ->
    valid (Math_log10 (add (processVolume i) (of_Z 1))) = true ->
    calculateReadiness Math_log10 i = Some o ->
    (exists kept : list Blocker,
       topBlockers o = firstn 4 kept /\
       StronglySorted gap_ge kept /\
       NoDup (map factor kept) /\
       (forall key, In key (map factor kept) <->
          In key factors /\
          gtb (gapOf Math_log10 i key) MIN_GAP_THRESHOLD = true) /\
       (forall b, In b kept -> gap b = gapOf Math_log10 i (factor b))) /\
    (List.length (topBlockers o) <= 4)%nat /\
    gtb (of_Z 15) MIN_GAP_THRESHOLD = false /\
    gtb (of_Q (150001 # 10000)) MIN_GAP_THRESHOLD = true.
Proof.
  intros L i o Vi VL H.
  apply calculateReadiness_some in H. destruct H as (all & Hall & ->).
  rewrite allBlockers_eq in Hall.
  apply (f_equal (fun x => match x with Some y => y | None => all end)) in Hall.
  cbn [topBlockers]. unfold selectTop, slice0.
  set (p := fun b : Blocker => gtb (gap b) MIN_GAP_THRESHOLD).
  set (kept := sort byGapDesc (filter p all)).
  assert (Hin : forall b, In b kept <-> In b all /\ p b = true).
  { intros b. unfold kept. rewrite <- filter_In. split; intros Hb.
    - eapply Permutation_in; [apply sort_perm|exact Hb].
    - eapply Permutation_in; [apply Permutation_sym, sort_perm|exact Hb]. }
  assert (Hgap : forall b, In b all ->
            In (factor b) factors /\ gap b = gapOf L i (factor b)).
  { intros b Hb. rewrite <- Hall in Hb. apply in_map_iff in Hb.
    destruct Hb as (key & <- & Hkey). split; [exact Hkey|reflexivity]. }
  assert (Hok : Forall gap_ok kept).
  { apply Forall_forall. intros b Hb. apply Hin in Hb. destruct Hb as [Hb Hp].
    destruct (Hgap b Hb) as [Hk Hg]. split.
    - rewrite Hg. apply gapOf_valid; assumption.
    - eapply gtb_nonnan, Hp. }
  split.
  - exists kept. split; [reflexivity|]. split; [|split; [|split]].
    + eapply (StronglySorted_impl (fun a b => xv (gap b) <= xv (gap a)) gap_ge gap_ok).
      * intros a b [Va Na] [Vb Nb] Hab. unfold gap_ge, leb.
        rewrite leb_spec by assumption. apply Z.leb_le, Hab.
      * exact Hok.
      * unfold kept. apply (sort_sorted byGapDesc (fun b => xv (gap b)) gap_ok).
        -- exact byGapDesc_key.
        -- eapply Permutation_Forall; [apply sort_perm|exact Hok].
    + unfold kept. eapply Permutation_NoDup.
      * apply Permutation_map, Permutation_sym, sort_perm.
      * apply keys_NoDup_filter. rewrite <- Hall, map_map. cbn [factor].
        rewrite map_id. apply NoDup_factors.
    + intros key. split.
      * intros Hkey. apply in_map_iff in Hkey. destruct Hkey as (b & <- & Hb).
        apply Hin in Hb. destruct Hb as [Hb Hp].
        destruct (Hgap b Hb) as [Hk Hg]. split; [exact Hk|].
        rewrite <- Hg. exact Hp.
      * intros [Hkey Hp]. apply in_map_iff.
        exists {| factor := key;
                  reason := match lookup key BLOCKER_HINTS with
                            | Some h => Hint.reason h | None => EmptyString end;
                  hint := match lookup key BLOCKER_HINTS with
                          | Some h => Hint.hint h | None => EmptyString end;
                  gap := sub (maxScore key) (get (subscores L i) key);
                  subscore := get (subscores L i) key |}.
        split; [reflexivity|]. apply Hin. split; [|exact Hp].
        rewrite <- Hall. apply in_map_iff. exists key.
        split; [reflexivity|exact Hkey].
    + intros b Hb. apply Hin in Hb. apply (Hgap b), Hb.
  - split; [|split; vm_compute; reflexivity].
    rewrite length_firstn. lia.
Qed.

Lemma topBlockers_selection_witness :
  exists o, calculateReadiness log10_sample DEFAULT_INPUTS = Some o /\
            (List.length (topBlockers o) <= 4)%nat.
Proof.
  eexists. split; [vm_compute; reflexivity|].
  apply (topBlockers_selection log10_sample DEFAULT_INPUTS);
    vm_compute; reflexivity.
Defined.

(** ** The weighted score *)

Lemma mul_mono_b (x x' b w : number) :
  nle x x' -> nle x' b -> nle w w -> finite (mul b w) = true ->
  nle (mul x w) (mul x' w) /\ nle (mul x' w) (mul b w).
Proof.
  intros H1 H2 Hw F.
  assert (B : nle (mul x' w) (mul b w)) by (apply mul_mono; assumption).
  split; [|exact B]. apply mul_mono; try assumption.
  destruct B as (Fx & _). apply fin_inv in Fx. apply Fx.
Qed.

Lemma add_mono_b (x x' bx y y' by_ : number) :
  nle x x' -> nle x' bx -> nle y y' -> nle y' by_ ->
  finite (add bx by_) = true ->
  nle (add x y) (add x' y') /\ nle (add x' y') (add bx by_).
Proof.
  intros H1 H2 H3 H4 F.
  assert (B : nle (add x' y') (add bx by_)) by (apply add_mono; assumption).
  split; [|exact B]. apply add_mono; try assumption.
  destruct B as (Fx & _). apply fin_inv in Fx. apply Fx.
Qed.

Lemma nle_weight (key : string) : In key factors -> nle (weight key) (weight key).
Proof.
  unfold factors. cbn [In]. intros H.
  repeat (destruct H as [<-|H]; [apply nle_refl; [reflexivity|vm_compute; discriminate]|]).
  contradiction.
Qed.

(** The weighted sum grows with every subscore, and stays below its value
    at the six maxima. *)
Lemma weighted_mono (s1 s2 s3 s4 s5 s6 t1 t2 t3 t4 t5 t6 : number) :
  nle s1 t1 -> nle t1 (of_Z 100) ->
  nle s2 t2 -> nle t2 (of_Z 100) ->
  nle s3 t3 -> nle t3 (of_Z 100) ->
  nle s4 t4 -> nle t4 (of_Z 100) ->
  nle s5 t5 -> nle t5 (of_Z 100) ->
  nle s6 t6 -> nle t6 (of_Z 95) ->
  nle (weighted s1 s2 s3 s4 s5 s6) (weighted t1 t2 t3 t4 t5 t6) /\
  nle (weighted t1 t2 t3 t4 t5 t6)
      (weighted (of_Z 100) (of_Z 100) (of_Z 100) (of_Z 100) (of_Z 100) (of_Z 95)).
Proof.
  intros A1 B1 A2 B2 A3 B3 A4 B4 A5 B5 A6 B6. unfold weighted.
  pose proof (mul_mono_b _ _ _ _ A1 B1
    (nle_weight "stableProcess" ltac:(cbn; tauto)) eq_refl) as [M1 N1].
  pose proof (mul_mono_b _ _ _ _ A2 B2
    (nle_weight "lowExceptions" ltac:(cbn; tauto)) eq_refl) as [M2 N2].
  pose proof (mul_mono_b _ _ _ _ A3 B3
    (nle_weight "dataQuality" ltac:(cbn; tauto)) eq_refl) as [M3 N3].
  pose proof (mul_mono_b _ _ _ _ A4 B4
    (nle_weight "systemAccess" ltac:(cbn; tauto)) eq_refl) as [M4 N4].
  pose proof (mul_mono_b _ _ _ _ A5 B5
    (nle_weight "lowComplianceRisk" ltac:(cbn; tauto)) eq_refl) as [M5 N5].
  pose proof (mul_mono_b _ _ _ _ A6 B6
    (nle_weight "volumePotential" ltac:(cbn; tauto)) eq_refl) as [M6 N6].
  pose proof (add_mono_b _ _ _ _ _ _ M1 N1 M2 N2 eq_refl) as [P2 Q2].
  pose proof (add_mono_b _ _ _ _ _ _ P2 Q2 M3 N3 eq_refl) as [P3 Q3].
  pose proof (add_mono_b _ _ _ _ _ _ P3 Q3 M4 N4 eq_refl) as [P4 Q4].
  pose proof (add_mono_b _ _ _ _ _ _ P4 Q4 M5 N5 eq_refl) as [P5 Q5].
  exact (add_mono_b _ _ _ _ _ _ P5 Q5 M6 N6 eq_refl).
Qed.

(** ** The volume subscore *)

Lemma RNs2_bound (N : Z) : - (OV * u) <= RNs2 N <= OV * u.
Proof.
  unfold RNs2.
  assert (E : 2 ^ (1024 + 2148) = OV * u).
  { unfold OV, u. rewrite <- pow2_split by lia. reflexivity. }
  pose proof (RNo_nonneg 2148 (Z.abs N) ltac:(lia) ltac:(lia)) as H0.
  assert (H1 : RNo 2148 (Z.abs N) <= OV * u).
  { unfold RNo in *. rewrite E. lia. }
  destruct (Z.lt_trichotomy N 0) as [L|[L|L]].
  - rewrite Z.sgn_neg by lia. lia.
  - subst N. cbn [Z.sgn]. pose proof OV_pos. pose proof u_pos. nia.
  - rewrite Z.sgn_pos by lia. lia.
Qed.

(** Multiplying by a positive finite constant keeps the order, infinite
    operands included. *)
Lemma mul_const_mono (a b c : number) :
  valid a = true -> valid b = true -> nonnan a = true -> nonnan b = true ->
  fin c = true -> 0 < xv c -> xv a <= xv b ->
  (valid (mul a c) = true /\ nonnan (mul a c) = true) /\
  (valid (mul b c) = true /\ nonnan (mul b c) = true) /\
  xv (mul a c) <= xv (mul b c).
Proof.
  intros Va Vb Na Nb Fc Hc Hab. apply fin_inv in Fc. destruct Fc as [Vc Fc].
  pose proof u_pos as Hu. pose proof OV_pos as HOV.
  assert (G : forall x, valid x = true -> nonnan x = true ->
            valid (mul x c) = true /\ nonnan (mul x c) = true /\
            - OV <= xv (mul x c) <= OV /\
            (finite x = true -> xv (mul x c) * u = RNs2 (xv x * xv c)) /\
            (finite x = false -> xv (mul x c) = xv x)).
  { intros x Vx Nx. destruct (finite x) eqn:Fx.
    - destruct (mul_spec x c Vx Vc Fx Fc) as (V & NN & X).
      change (SFmul 53 1024 x c) with (mul x c) in *.
      change (2 ^ 1074) with u in X.
      pose proof (RNs2_bound (xv x * xv c)).
      repeat split; try assumption; try discriminate; nia.
    - destruct x as [s|s| |s m e]; try discriminate.
      destruct c as [sc|sc| |sc mc ec]; try discriminate.
      assert (sc = false).
      { destruct sc; [|reflexivity]. rewrite xv_finite in Hc.
        pose proof (pv_bounds _ _ _ Vc). cbn [cond_Zopp] in Hc. lia. }
      subst sc. cbn [mul SFmul xorb]. rewrite xorb_false_r.
      repeat split; try discriminate; destruct s; cbn [xv cond_Zopp]; lia. }
  destruct (G a Va Na) as (V1 & N1 & B1 & E1 & I1).
  destruct (G b Vb Nb) as (V2 & N2 & B2 & E2 & I2).
  repeat split; try assumption.
  destruct (finite a) eqn:Fa; destruct (finite b) eqn:Fb.
  - specialize (E1 eq_refl). specialize (E2 eq_refl).
    pose proof (RNs2_mono (xv a * xv c) (xv b * xv c) ltac:(nia)). nia.
  - specialize (I2 eq_refl). pose proof (xv_abs_lt a Va Fa).
    destruct b as [s|s| |s m e]; try discriminate.
    destruct s; cbn [xv cond_Zopp] in *; lia.
  - specialize (I1 eq_refl). pose proof (xv_abs_lt b Vb Fb).
    destruct a as [s|s| |s m e]; try discriminate.
    destruct s; cbn [xv cond_Zopp] in *; lia.
  - specialize (I1 eq_refl). specialize (I2 eq_refl). lia.
Qed.

Lemma clamp_spec (value : number) :
  valid value = true -> nonnan value = true ->
  fin (clamp value (of_Z 0) (of_Z 95)) = true /\
  xv (clamp value (of_Z 0) (of_Z 95)) = Z.max 0 (Z.min (95 * u) (xv value)).
Proof.
  intros V N. unfold clamp.
  destruct (Math_min_spec (of_Z 95) value eq_refl V eq_refl N) as (V1 & N1 & X1).
  destruct (Math_max_spec (of_Z 0) _ eq_refl V1 eq_refl N1) as (V2 & N2 & X2).
  assert (E95 : xv (of_Z 95) = 95 * u) by (apply of_Z_spec; cbn; lia).
  rewrite X1, E95 in X2. change (xv (of_Z 0)) with 0 in X2.
  split; [|exact X2].
  apply fin_intro; [exact V2|]. apply finite_of_lt; [exact N2|].
  rewrite X2. pose proof u_pos. pose proof u_OV. nia.
Qed.

Lemma nle_of_Z (a b : Z) : 0 <= a <= b -> b < 2 ^ 53 -> nle (of_Z a) (of_Z b).
Proof.
  intros H Hb.
  destruct (of_Z_spec a ltac:(lia)) as (Va & Fa & Xa).
  destruct (of_Z_spec b ltac:(lia)) as (Vb & Fb & Xb).
  pose proof u_pos.
  repeat split; try (apply fin_intro; assumption); rewrite ?Xa, ?Xb; nia.
Qed.

(** The volume subscore lies between 0 and 95 as soon as [Math.log10]
    returns a number other than NaN. *)
Lemma volumeSubscore_range (L : number -> number) (p : number) :
  valid (L (add p (of_Z 1))) = true -> nonnan (L (add p (of_Z 1))) = true ->
  nle (volumeSubscore L p) (of_Z 95).
Proof.
  intros V N. unfold volumeSubscore.
  destruct (leb p (of_Z 0)); [apply nle_of_Z; cbn; lia|].
  cbv zeta.
  destruct (mul_const_mono _ _ (of_Q (315 # 10)) V V N N eq_refl
              ltac:(vm_compute; reflexivity) ltac:(lia)) as ((V1 & N1) & _ & _).
  destruct (clamp_spec _ V1 N1) as (F & X).
  assert (E95 : xv (of_Z 95) = 95 * u) by (apply of_Z_spec; cbn; lia).
  pose proof u_pos.
  repeat split; try exact F; try reflexivity; rewrite ?X, ?E95; lia.
Qed.

(** It grows with [processVolume] when [Math.log10] does. *)
Lemma volumeSubscore_mono (L : number -> number) (p p' : number) :
  valid p = true -> valid p' = true -> leb p p' = true ->
  log10_monotone_at L p p' = true ->
  nle (volumeSubscore L p) (volumeSubscore L p').
Proof.
  intros Vp Vp' Hpp HL. unfold log10_monotone_at in HL.
  rewrite !andb_true_iff in HL. destruct HL as [[V V'] HL].
  destruct (leb_inv _ _ V V' HL) as (N & N' & HLx).
  destruct (leb_inv _ _ Vp Vp' Hpp) as (Np & Np' & Hx).
  pose proof (volumeSubscore_range L p V N) as R.
  pose proof (volumeSubscore_range L p' V' N') as R'.
  destruct R as (F & _ & R0 & _). destruct R' as (F' & _ & R0' & _).
  repeat split; try assumption.
  assert (Hp0 : leb p (of_Z 0) = (xv p <=? 0))
    by (unfold leb; rewrite leb_spec by (try assumption; reflexivity); reflexivity).
  assert (Hp0' : leb p' (of_Z 0) = (xv p' <=? 0))
    by (unfold leb; rewrite leb_spec by (try assumption; reflexivity); reflexivity).
  unfold volumeSubscore in *. rewrite Hp0' in *. rewrite Hp0 in *.
  destruct (Z.leb_spec (xv p) 0) as [Lp|Lp].
  - exact R0'.
  - destruct (Z.leb_spec (xv p') 0) as [Lp'|Lp']; [lia|]. cbv zeta.
    destruct (mul_const_mono _ _ (of_Q (315 # 10)) V V' N N' eq_refl
                ltac:(vm_compute; reflexivity) HLx) as ((V1 & N1) & (V2 & N2) & M).
    destruct (clamp_spec _ V1 N1) as (_ & X1).
    destruct (clamp_spec _ V2 N2) as (_ & X2).
    rewrite X1, X2. lia.
Qed.

(** ** The score on the documented domain *)

Lemma percent_inv (x : number) :
  percent x = true -> valid x = true /\ nle x (of_Z 100).
Proof.
  unfold percent. rewrite !andb_true_iff. intros [[V L0] L1].
  split; [exact V|]. apply range_nle; try assumption. reflexivity.
Qed.

Lemma leb_nle (x y b : number) :
  nle x b -> nle y b -> leb x y = true -> nle x y.
Proof.
  intros (Fx & _ & Hx) (Fy & _ & Hy) L.
  pose proof (fin_inv _ Fx) as [Vx _]. pose proof (fin_inv _ Fy) as [Vy _].
  destruct (leb_inv _ _ Vx Vy L) as (_ & _ & H).
  repeat split; try assumption; lia.
Qed.

Lemma in_domain_inv (i : Inputs) :
  in_domain i = true ->
  (valid (processVolume i) = true /\ leb (of_Z 0) (processVolume i) = true) /\
  percent (variance i) = true /\ percent (exceptionRate i) = true /\
  percent (dataQuality i) = true /\ percent (systemAccess i) = true /\
  percent (complianceSensitivity i) = true.
Proof. unfold in_domain. rewrite !andb_true_iff. tauto. Qed.

Lemma score_weighted (L : number -> number) (i : Inputs) :
  score L i =
  weighted (sub (of_Z 100) (variance i)) (sub (of_Z 100) (exceptionRate i))
           (dataQuality i) (systemAccess i)
           (sub (of_Z 100) (complianceSensitivity i))
           (volumeSubscore L (processVolume i)).
Proof. reflexivity. Qed.

(** The largest weighted sum: 99.5. *)
Lemma weighted_top :
  weighted (of_Z 100) (of_Z 100) (of_Z 100) (of_Z 100) (of_Z 100) (of_Z 95)
  = of_Q (995 # 10).
Proof. vm_compute. reflexivity. Qed.

(** Monotonicity of the score before rounding, with its upper bound. *)
Lemma score_mono (L : number -> number) (i i' : Inputs) :
  in_domain i = true -> in_domain i' = true -> improves i i' = true ->
  log10_monotone_at L (processVolume i) (processVolume i') = true ->
  nle (score L i) (score L i') /\ nle (score L i') (of_Q (995 # 10)).
Proof.
  intros D D' I HL.
  apply in_domain_inv in D, D'.
  destruct D as ((Vp & Lp) & Dv & De & Dd & Ds & Dc).
  destruct D' as ((Vp' & Lp') & Dv' & De' & Dd' & Ds' & Dc').
  apply percent_inv in Dv, De, Dd, Ds, Dc, Dv', De', Dd', Ds', Dc'.
  unfold improves in I. rewrite !andb_true_iff in I.
  destruct I as (((((Ip & Iv) & Ie) & Id) & Is) & Ic).
  rewrite !score_weighted, <- weighted_top.
  assert (HL' := HL). unfold log10_monotone_at in HL'.
  rewrite !andb_true_iff in HL'. destruct HL' as [[V V'] HLe].
  destruct (leb_inv _ _ V V' HLe) as (_ & N' & _).
  destruct (sub_anti (of_Z 100) _ _
              (leb_nle _ _ _ (proj2 Dv') (proj2 Dv) Iv) (proj2 Dv)) as [A1 B1].
  destruct (sub_anti (of_Z 100) _ _
              (leb_nle _ _ _ (proj2 De') (proj2 De) Ie) (proj2 De)) as [A2 B2].
  destruct (sub_anti (of_Z 100) _ _
              (leb_nle _ _ _ (proj2 Dc') (proj2 Dc) Ic) (proj2 Dc)) as [A5 B5].
  apply weighted_mono; try assumption.
  - exact (leb_nle _ _ _ (proj2 Dd) (proj2 Dd') Id).
  - exact (proj2 Dd').
  - exact (leb_nle _ _ _ (proj2 Ds) (proj2 Ds') Is).
  - exact (proj2 Ds').
  - apply volumeSubscore_mono; assumption.
  - apply volumeSubscore_range; assumption.
Qed.

Lemma leb_refl (x : number) : valid x = true -> nonnan x = true -> leb x x = true.
Proof. intros V N. unfold leb. rewrite leb_spec by assumption. apply Z.leb_refl. Qed.

Lemma percent_leb_refl (x : number) : percent x = true -> leb x x = true.
Proof.
  intros P. apply percent_inv in P. destruct P as (V & F & _).
  apply fin_inv in F. apply leb_refl; [exact V|apply finite_nonnan, F].
Qed.

Lemma improves_refl (i : Inputs) : in_domain i = true -> improves i i = true.
Proof.
  intros D. apply in_domain_inv in D.
  destruct D as ((Vp & Lp) & Dv & De & Dd & Ds & Dc).
  destruct (leb_inv (of_Z 0) (processVolume i) eq_refl Vp Lp) as (_ & Np & _).
  unfold improves.
  rewrite (leb_refl _ Vp Np), !percent_leb_refl by assumption. reflexivity.
Qed.

Lemma Math_round_top : Math_round (of_Q (995 # 10)) = of_Z 100.
Proof. vm_compute. reflexivity. Qed.

Lemma to_Q_round (x : number) :
  round_half_up (to_Q x) = (2 * xv x + u) / (2 * u).
Proof.
  unfold round_half_up, to_Q, Qplus, Qfloor. cbn [Qnum Qden].
  pose proof u_pos.
  rewrite Pos2Z.inj_mul, Z2Pos.id by lia. f_equal; lia.
Qed.

(** C2 (as amended): on the documented domain the readiness score is
    [Math.round] of the weighted sum, formed in binary64 arithmetic (each
    product and each addition, left to right, rounded to nearest); it is
    the integer nearest to that sum, halves rounded up, and lies between
    0 and 100. *)
Theorem readinessScore_rounding :
  forall (Math_log10 : number -> number) (i : Inputs) (o : Output),
    in_domain i = true ->
    log10_defined Math_log10 i = true ->
    calculateReadiness Math_log10 i = Some o ->
    readinessScore o = Math_round (score Math_log10 i) /\
    score Math_log10 i
    = weighted (sub (of_Z 100) (variance i)) (sub (of_Z 100) (exceptionRate i))
               (dataQuality i) (systemAccess i)
               (sub (of_Z 100) (complianceSensitivity i))
               (volumeSubscore Math_log10 (processVolume i)) /\
    exists k : Z,
      is_integer (readinessScore o) k /\
      0 <= k <= 100 /\
      k = round_half_up (to_Q (score Math_log10 i)).
Proof.
  intros L i o D HL H.
  apply calculateReadiness_some in H. destruct H as (all & _ & ->).
  cbn [readinessScore]. split; [reflexivity|]. split; [reflexivity|].
  unfold log10_defined in HL. cbv zeta in HL. rewrite andb_true_iff in HL.
  destruct HL as [V N].
  assert (HM : log10_monotone_at L (processVolume i) (processVolume i) = true).
  { unfold log10_monotone_at. rewrite V. cbn [andb].
    unfold leb. rewrite leb_spec by assumption. apply Z.leb_refl. }
  destruct (score_mono L i i D D (improves_refl i D) HM) as [_ B].
  pose proof (round_mono _ _ B) as R. rewrite Math_round_top in R.
  destruct B as (Fs & _ & Hs). apply fin_inv in Fs. destruct Fs as [Vs Fs].
  destruct (Math_round_spec _ Vs Fs) as (Vr & Fr & Xr).
  exists ((2 * xv (score L i) + u) / (2 * u)).
  split; [split; [apply fin_intro; assumption|exact Xr]|].
  split; [|symmetry; apply to_Q_round].
  destruct R as (_ & _ & R). rewrite Xr in R.
  assert (E100 : xv (of_Z 100) = 100 * u) by (apply of_Z_spec; cbn; lia).
  rewrite E100 in R. pose proof u_pos. nia.
Qed.

Lemma readinessScore_rounding_witness :
  exists o, calculateReadiness log10_sample DEFAULT_INPUTS = Some o /\
            readinessScore o = Math_round (score log10_sample DEFAULT_INPUTS).
Proof.
  eexists. split; [vm_compute; reflexivity|].
  apply (readinessScore_rounding log10_sample DEFAULT_INPUTS);
    vm_compute; reflexivity.
Defined.

(** C2 (as stated) fails at [half_inputs]: the score returned is 1, the
    half-up rounding of the exact weighted sum is 2. *)
Lemma readinessScore_not_exact_half_up :
  in_domain half_inputs = true /\
  exact_weighted_sum (subscores log10_sample half_inputs) == 3 # 2 /\
  round_half_up (exact_weighted_sum (subscores log10_sample half_inputs)) = 2 /\
  score log10_sample half_inputs = S754_finite false 6755399441055743 (-52) /\
  exists o, calculateReadiness log10_sample half_inputs = Some o /\
            readinessScore o = of_Z 1 /\
            readinessScore o <> of_Z 2.
Proof.
  split; [vm_compute; reflexivity|].
  split; [vm_compute; reflexivity|].
  split; [vm_compute; reflexivity|].
  split; [vm_compute; reflexivity|].
  eexists. split; [vm_compute; reflexivity|].
  split; [reflexivity|]. vm_compute. discriminate.
Qed.

(** ** Monotonicity *)

(** C9: on the documented domain, making inputs more favourable (a larger
    processVolume, dataQuality or systemAccess, a smaller variance,
    exceptionRate or complianceSensitivity), one at a time or several
    together, never decreases the readiness score, provided [Math.log10]
    does not decrease between the two volumes. *)
Theorem readinessScore_monotone :
  forall (Math_log10 : number -> number) (i i' : Inputs) (o o' : Output),
    in_domain i = true -> in_domain i' = true ->
    improves i i' = true ->
    log10_monotone_at Math_log10 (processVolume i) (processVolume i') = true ->
    calculateReadiness Math_log10 i = Some o ->
    calculateReadiness Math_log10 i' = Some o' ->
    leb (readinessScore o) (readinessScore o') = true.
Proof.
  intros L i i' o o' D D' I HL H H'.
  apply calculateReadiness_some in H, H'.
  destruct H as (all & _ & ->). destruct H' as (all' & _ & ->).
  cbn [readinessScore]. apply nle_leb, round_mono.
  apply (score_mono L i i'); assumption.
Qed.

Lemma readinessScore_monotone_witness :
  exists o o',
    calculateReadiness log10_sample (inputs_of 1000 20 10 70 60 30) = Some o /\
    calculateReadiness log10_sample (inputs_of 5000 10 10 70 80 30) = Some o' /\
    leb (readinessScore o) (readinessScore o') = true.
Proof.
  eexists. eexists. split; [vm_compute; reflexivity|].
  split; [vm_compute; reflexivity|].
  apply (readinessScore_monotone log10_sample
           (inputs_of 1000 20 10 70 60 30) (inputs_of 5000 10 10 70 80 30));
    vm_compute; reflexivity.
Defined.

(** ** The volume transform *)

Lemma ln10_pos : (0 < ln 10)%R.
Proof. rewrite <- ln_1. apply ln_increasing; lra. Qed.

Lemma log10R_ge (x : R) (a : nat) : (10 ^ a <= x)%R -> (INR a <= log10R x)%R.
Proof.
  intros H. unfold log10R. pose proof ln10_pos as L.
  assert (P : (0 < 10 ^ a)%R) by (apply pow_lt; lra).
  assert (E : (ln (10 ^ a) <= ln x)%R).
  { destruct H as [H|H]; [left; apply ln_increasing; assumption|rewrite H; right; reflexivity]. }
  rewrite ln_pow in E by lra.
  apply Rmult_le_reg_r with (ln 10); [exact L|].
  unfold Rdiv. rewrite Rmult_assoc, Rinv_l by lra. lra.
Qed.

Lemma log10R_le (x : R) (p q : nat) :
  (0 < x)%R -> (0 < q)%nat -> (x ^ q <= 10 ^ p)%R ->
  (log10R x <= INR p / INR q)%R.
Proof.
  intros Hx Hq H. unfold log10R. pose proof ln10_pos as L.
  assert (P : (0 < x ^ q)%R) by (apply pow_lt; exact Hx).
  assert (E : (ln (x ^ q) <= ln (10 ^ p))%R).
  { destruct H as [H|H]; [left; apply ln_increasing; assumption|rewrite H; right; reflexivity]. }
  rewrite !ln_pow in E by lra.
  assert (Q : (0 < INR q)%R) by (apply lt_0_INR; exact Hq).
  apply Rmult_le_reg_r with (ln 10 * INR q)%R; [apply Rmult_lt_0_compat; assumption|].
  replace (ln x / ln 10 * (ln 10 * INR q))%R with (INR q * ln x)%R by (field; lra).
  replace (INR p / INR q * (ln 10 * INR q))%R with (INR p * ln 10)%R by (field; lra).
  exact E.
Qed.

Lemma IZR_u_pos : (0 < IZR u)%R.
Proof. apply IZR_lt. exact u_pos. Qed.

Lemma F2R_int (x : number) (k : Z) : xv x = k * u -> F2R x = IZR k.
Proof.
  intros E. unfold F2R. rewrite E, mult_IZR. pose proof IZR_u_pos.
  field. lra.
Qed.

(** What accuracy at [x] says about the result, given bounds on the true
    logarithm: both in units of [1/128]. *)
Lemma log10_accurate_bounds (L : number -> number) (x : number) (a b : Z) :
  match x with S754_infinity false => False | _ => True end ->
  log10_accurate L x ->
  (IZR a / 128 <= log10R (F2R x) <= IZR b / 128)%R ->
  fin (L x) = true /\ (a - 1) * u <= 128 * xv (L x) <= (b + 1) * u.
Proof.
  intros Hx [V A] [Ha Hb].
  assert (A' : finite (L x) = true /\
               (Rabs (F2R (L x) - log10R (F2R x)) <= / 128)%R).
  { destruct x as [s|s| |s m e]; try exact A. destruct s; [exact A|contradiction]. }
  clear A. destruct A' as [F A].
  split; [apply fin_intro; assumption|].
  assert (A1 : (- / 128 <= F2R (L x) - log10R (F2R x))%R).
  { pose proof (Rle_abs (- (F2R (L x) - log10R (F2R x)))) as Q.
    rewrite Rabs_Ropp in Q. lra. }
  assert (A2 : (F2R (L x) - log10R (F2R x) <= / 128)%R).
  { pose proof (Rle_abs (F2R (L x) - log10R (F2R x))) as Q. lra. }
  pose proof IZR_u_pos as HU.
  set (X := IZR (xv (L x))) in *.
  assert (EX : F2R (L x) = (X / IZR u)%R) by reflexivity.
  assert (EX' : (X = F2R (L x) * IZR u)%R) by (rewrite EX; field; lra).
  split; apply le_IZR; rewrite !mult_IZR; fold X;
    rewrite ?minus_IZR, ?plus_IZR; rewrite EX'; nra.
Qed.

Lemma pow_le_IZR (x y : Z) (q p : nat) :
  (x ^ Z.of_nat q <=? y ^ Z.of_nat p) = true -> (IZR x ^ q <= IZR y ^ p)%R.
Proof. intros H. rewrite !pow_IZR. apply IZR_le, Z.leb_le, H. Qed.

(** The true logarithms at the sample points: [log10 (10^n + 1)] exceeds
    [n] by less than [1/128]. *)
Lemma log10R_101 : (IZR 256 / 128 <= log10R 101 <= IZR 257 / 128)%R.
Proof.
  split.
  - replace (IZR 256 / 128)%R with (INR 2) by (cbn; lra).
    apply log10R_ge. lra.
  - replace (IZR 257 / 128)%R with (INR 257 / INR 128)%R
      by (rewrite !INR_IZR_INZ; reflexivity).
    apply log10R_le; [lra|lia|].
    apply (pow_le_IZR 101 10 128 257). vm_compute. reflexivity.
Qed.

Lemma log10R_1001 : (IZR 384 / 128 <= log10R 1001 <= IZR 385 / 128)%R.
Proof.
  split.
  - replace (IZR 384 / 128)%R with (INR 3) by (cbn; lra).
    apply log10R_ge. lra.
  - replace (IZR 385 / 128)%R with (INR 385 / INR 128)%R
      by (rewrite !INR_IZR_INZ; reflexivity).
    apply log10R_le; [lra|lia|].
    apply (pow_le_IZR 1001 10 128 385). vm_compute. reflexivity.
Qed.

Lemma log10R_10001 : (IZR 512 / 128 <= log10R 10001 <= IZR 513 / 128)%R.
Proof.
  split.
  - replace (IZR 512 / 128)%R with (INR 4) by (cbn; lra).
    apply log10R_ge. lra.
  - replace (IZR 513 / 128)%R with (INR 513 / INR 128)%R
      by (rewrite !INR_IZR_INZ; reflexivity).
    apply log10R_le; [lra|lia|].
    apply (pow_le_IZR 10001 10 128 513). vm_compute. reflexivity.
Qed.

Lemma log10_accurate_lower (L : number -> number) (x : number) (a : Z) :
  match x with S754_infinity false => False | _ => True end ->
  log10_accurate L x ->
  (IZR a / 128 <= log10R (F2R x))%R ->
  fin (L x) = true /\ (a - 1) * u <= 128 * xv (L x).
Proof.
  intros Hx [V A] Ha.
  assert (A' : finite (L x) = true /\
               (Rabs (F2R (L x) - log10R (F2R x)) <= / 128)%R).
  { destruct x as [s|s| |s m e]; try exact A. destruct s; [exact A|contradiction]. }
  clear A. destruct A' as [F A].
  split; [apply fin_intro; assumption|].
  assert (A1 : (- / 128 <= F2R (L x) - log10R (F2R x))%R).
  { pose proof (Rle_abs (- (F2R (L x) - log10R (F2R x)))) as Q.
    rewrite Rabs_Ropp in Q. lra. }
  pose proof IZR_u_pos as HU.
  set (X := IZR (xv (L x))) in *.
  assert (EX : F2R (L x) = (X / IZR u)%R) by reflexivity.
  assert (EX' : (X = F2R (L x) * IZR u)%R) by (rewrite EX; field; lra).
  apply le_IZR; rewrite !mult_IZR; fold X;
    rewrite ?minus_IZR, ?plus_IZR; rewrite EX'; nra.
Qed.

Lemma log10_accurate_intro (L : number -> number) (x : number) (a : Z) :
  match x with S754_infinity false => False | _ => True end ->
  fin (L x) = true ->
  (a * u <=? 128 * xv (L x)) && (128 * xv (L x) <=? (a + 1) * u) = true ->
  (IZR a / 128 <= log10R (F2R x) <= IZR (a + 1) / 128)%R ->
  log10_accurate L x.
Proof.
  intros Hx F B [R1 R2]. apply fin_inv in F. destruct F as [V F].
  apply andb_true_iff in B. destruct B as [B1 B2].
  apply Z.leb_le in B1, B2.
  split; [exact V|].
  assert (G : finite (L x) = true /\
              (Rabs (F2R (L x) - log10R (F2R x)) <= / 128)%R).
  { split; [exact F|].
    pose proof IZR_u_pos as HU.
    apply IZR_le in B1, B2. rewrite !mult_IZR in B1, B2. rewrite plus_IZR in B2, R2.
    set (X := IZR (xv (L x))) in *.
    assert (EX : F2R (L x) = (X / IZR u)%R) by reflexivity.
    assert (E1 : (IZR a / 128 <= F2R (L x))%R).
    { rewrite EX. apply Rmult_le_reg_r with (IZR u); [exact HU|].
      unfold Rdiv at 2. rewrite Rmult_assoc, Rinv_l by lra. lra. }
    assert (E2 : (F2R (L x) <= (IZR a + 1) / 128)%R).
    { rewrite EX. apply Rmult_le_reg_r with (IZR u); [exact HU|].
      unfold Rdiv at 1. rewrite Rmult_assoc, Rinv_l by lra. lra. }
    unfold Rabs. destruct (Rcase_abs _); lra. }
  destruct x as [s|s| |s m e]; try exact G. destruct s; [exact G|contradiction].
Qed.

(** Bounds on [Math.log10] give bounds on the subscore. *)
Lemma volumeSubscore_bracket (L : number -> number) (p lo hi blo bhi : number) :
  leb p (of_Z 0) = false ->
  fin (L (add p (of_Z 1))) = true ->
  fin lo = true -> fin hi = true -> fin blo = true -> fin bhi = true ->
  xv lo <= xv (L (add p (of_Z 1))) <= xv hi ->
  (xv blo <=? Z.max 0 (Z.min (95 * u) (xv (mul lo (of_Q (315 # 10))))))
  && (Z.max 0 (Z.min (95 * u) (xv (mul hi (of_Q (315 # 10))))) <=? xv bhi) = true ->
  leb blo (volumeSubscore L p) = true /\ leb (volumeSubscore L p) bhi = true.
Proof.
  intros Hp F Flo Fhi Fblo Fbhi [H1 H2] B.
  apply andb_true_iff in B. destruct B as [B1 B2]. apply Z.leb_le in B1, B2.
  apply fin_inv in F, Flo, Fhi, Fblo, Fbhi.
  destruct F as [V F], Flo as [Vlo Flo], Fhi as [Vhi Fhi],
           Fblo as [Vblo Fblo], Fbhi as [Vbhi Fbhi].
  pose proof (finite_nonnan _ F) as N.
  unfold volumeSubscore. rewrite Hp. cbv zeta.
  destruct (mul_const_mono lo _ (of_Q (315 # 10)) Vlo V (finite_nonnan _ Flo) N
              eq_refl ltac:(vm_compute; reflexivity) H1) as (_ & (V1 & N1) & M1).
  destruct (mul_const_mono _ hi (of_Q (315 # 10)) V Vhi N (finite_nonnan _ Fhi)
              eq_refl ltac:(vm_compute; reflexivity) H2) as (_ & _ & M2).
  destruct (clamp_spec _ V1 N1) as (Fc & Xc). apply fin_inv in Fc.
  destruct Fc as [Vc Fc].
  unfold leb. rewrite !leb_spec by auto using finite_nonnan.
  rewrite Xc. split; apply Z.leb_le; lia.
Qed.

Lemma F2R_ge (x : number) (k : Z) : k * u <= xv x -> (IZR k <= F2R x)%R.
Proof.
  intros H. unfold F2R. pose proof IZR_u_pos as HU.
  apply IZR_le in H. rewrite mult_IZR in H.
  apply Rmult_le_reg_r with (IZR u); [exact HU|].
  unfold Rdiv. rewrite Rmult_assoc, Rinv_l by lra. lra.
Qed.

(** From 10000 on the subscore is capped. *)
Lemma volumeSubscore_cap (L : number -> number) (p : number) :
  valid p = true -> leb (of_Z 10000) p = true ->
  log10_accurate L (add p (of_Z 1)) ->
  volumeSubscore L p = of_Z 95.
Proof.
  intros Vp Hp A. pose proof u_pos as Hu. pose proof OV_pos as HOV.
  destruct (leb_inv (of_Z 10000) p eq_refl Vp Hp) as (_ & Np & Hx).
  assert (E4 : xv (of_Z 10000) = 10000 * u) by (apply of_Z_spec; cbn; lia).
  rewrite E4 in Hx.
  assert (Hp0 : leb p (of_Z 0) = false).
  { unfold leb. rewrite leb_spec by (try assumption; reflexivity).
    change (xv (of_Z 0)) with 0. apply Z.leb_gt. lia. }
  unfold volumeSubscore. rewrite Hp0. cbv zeta.
  set (x := add p (of_Z 1)) in *.
  assert (Hxx : valid x = true /\ nonnan x = true /\ 10001 * u <= xv x).
  { destruct (finite p) eqn:Fp.
    - destruct (add_spec p (of_Z 1) Vp eq_refl Fp eq_refl) as (V & N & X).
      change (SFadd 53 1024 p (of_Z 1)) with x in *.
      repeat split; try assumption. rewrite X.
      change (xv (of_Z 1)) with u.
      rewrite <- (RNs_int 10001) by (cbn; lia). apply RNs_mono. lia.
    - destruct p as [s|s| |s m e]; try discriminate.
      destruct s; cbn [xv cond_Zopp] in Hx; [lia|].
      subst x. cbn. repeat split; try reflexivity.
      pose proof u_OV. change (2 ^ 53) with 9007199254740992 in *. unfold OV in *. lia. }
  destruct Hxx as (Vx & Nx & Hxv).
  assert (G : valid (mul (L x) (of_Q (315 # 10))) = true /\
              nonnan (mul (L x) (of_Q (315 # 10))) = true /\
              95 * u <= xv (mul (L x) (of_Q (315 # 10)))).
  { destruct x as [s|s| |s m e] eqn:Ex; try discriminate.
    - cbn [xv] in Hxv. lia.
    - destruct s; [cbn [xv cond_Zopp] in Hxv; lia|].
      destruct A as [_ A]. rewrite A. cbn. repeat split.
      unfold OV. pose proof (pow2_le 1081 2098 ltac:(lia)).
      assert (95 * u <= 2 ^ 1081); [|lia].
      unfold u. replace 1081 with (7 + 1074) by lia. rewrite pow2_split by lia.
      change (2 ^ 7) with 128. lia.
    - assert (R4 : (IZR 512 / 128 <= log10R (F2R (S754_finite s m e)))%R).
      { replace (IZR 512 / 128)%R with (INR 4) by (cbn; lra).
        apply log10R_ge.
        apply Rle_trans with (IZR 10001); [cbn; lra|].
        apply F2R_ge. exact Hxv. }
      destruct (log10_accurate_lower L (S754_finite s m e) 512 I A R4) as (F & B).
      apply fin_inv in F. destruct F as [V F].
      assert (Hlo : xv (of_Q (511 # 128)) <= xv (L (S754_finite s m e))).
      { assert (E : 128 * xv (of_Q (511 # 128)) = 511 * u)
          by (vm_compute; reflexivity).
        lia. }
      destruct (mul_const_mono (of_Q (511 # 128)) _ (of_Q (315 # 10))
                  eq_refl V eq_refl (finite_nonnan _ F)
                  eq_refl ltac:(vm_compute; reflexivity) Hlo) as (_ & (V1 & N1) & M).
      repeat split; try assumption.
      assert (E : (95 * u <=? xv (mul (of_Q (511 # 128)) (of_Q (315 # 10)))) = true)
        by (vm_compute; reflexivity).
      apply Z.leb_le in E. lia. }
  destruct G as (V1 & N1 & B).
  destruct (clamp_spec _ V1 N1) as (Fc & Xc). apply fin_inv in Fc.
  destruct Fc as [Vc Fc].
  apply xv_of_Z_inj; try assumption; [cbn; lia|].
  rewrite Xc. lia.
Qed.

(** C3: the volume subscore is 0 for a volume that is [<= 0]; otherwise
    it is [clamp(log10(volume + 1) * 31.5, 0, 95)].  With a [Math.log10]
    accurate to 1/128, volume 100 gives 63 within 1, volume 1000 gives
    94.5 within 1, and every volume from 10000 on gives exactly 95. *)
Theorem volumeSubscore_transform :
  forall Math_log10 : number -> number,
    (forall p, leb p (of_Z 0) = true -> volumeSubscore Math_log10 p = of_Z 0) /\
    (forall p, leb p (of_Z 0) = false ->
       volumeSubscore Math_log10 p
       = clamp (mul (Math_log10 (add p (of_Z 1))) (of_Q (315 # 10)))
               (of_Z 0) (of_Z 95)) /\
    (log10_accurate Math_log10 (of_Z 101) ->
       leb (of_Z 62) (volumeSubscore Math_log10 (of_Z 100)) = true /\
       leb (volumeSubscore Math_log10 (of_Z 100)) (of_Z 64) = true) /\
    (log10_accurate Math_log10 (of_Z 1001) ->
       leb (of_Q (935 # 10)) (volumeSubscore Math_log10 (of_Z 1000)) = true /\
       leb (volumeSubscore Math_log10 (of_Z 1000)) (of_Q (955 # 10)) = true) /\
    (forall p, valid p = true -> leb (of_Z 10000) p = true ->
       log10_accurate Math_log10 (add p (of_Z 1)) ->
       volumeSubscore Math_log10 p = of_Z 95).
Proof.
  intros L.
  split; [intros p Hp; unfold volumeSubscore; rewrite Hp; reflexivity|].
  split; [intros p Hp; unfold volumeSubscore; rewrite Hp; reflexivity|].
  split; [|split; [|intros p; apply volumeSubscore_cap]].
  - intros A.
    assert (F101 : F2R (of_Z 101) = IZR 101) by (apply F2R_int; reflexivity).
    pose proof log10R_101 as R. rewrite <- F101 in R.
    destruct (log10_accurate_bounds L (of_Z 101) 256 257 I A R) as (F & B).
    apply (volumeSubscore_bracket L (of_Z 100) (of_Q (255 # 128)) (of_Q (258 # 128)));
      try reflexivity; try exact F.
    assert (E1 : 128 * xv (of_Q (255 # 128)) = 255 * u) by (vm_compute; reflexivity).
    assert (E2 : 128 * xv (of_Q (258 # 128)) = 258 * u) by (vm_compute; reflexivity).
    change (add (of_Z 100) (of_Z 1)) with (of_Z 101). lia.
  - intros A.
    assert (F1001 : F2R (of_Z 1001) = IZR 1001) by (apply F2R_int; reflexivity).
    pose proof log10R_1001 as R. rewrite <- F1001 in R.
    destruct (log10_accurate_bounds L (of_Z 1001) 384 385 I A R) as (F & B).
    apply (volumeSubscore_bracket L (of_Z 1000) (of_Q (383 # 128)) (of_Q (386 # 128)));
      try reflexivity; try exact F.
    assert (E1 : 128 * xv (of_Q (383 # 128)) = 383 * u) by (vm_compute; reflexivity).
    assert (E2 : 128 * xv (of_Q (386 # 128)) = 386 * u) by (vm_compute; reflexivity).
    change (add (of_Z 1000) (of_Z 1)) with (of_Z 1001). lia.
Qed.

(** The sample table is accurate at its arguments. *)
Lemma log10_sample_accurate :
  log10_accurate log10_sample (of_Z 101) /\
  log10_accurate log10_sample (of_Z 1001) /\
  log10_accurate log10_sample (of_Z 10001).
Proof.
  split; [|split].
  - apply (log10_accurate_intro log10_sample (of_Z 101) 256 I);
      [reflexivity|vm_compute; reflexivity|].
    rewrite (F2R_int (of_Z 101) 101) by reflexivity. exact log10R_101.
  - apply (log10_accurate_intro log10_sample (of_Z 1001) 384 I);
      [reflexivity|vm_compute; reflexivity|].
    rewrite (F2R_int (of_Z 1001) 1001) by reflexivity. exact log10R_1001.
  - apply (log10_accurate_intro log10_sample (of_Z 10001) 512 I);
      [reflexivity|vm_compute; reflexivity|].
    rewrite (F2R_int (of_Z 10001) 10001) by reflexivity. exact log10R_10001.
Qed.

Lemma volumeSubscore_transform_witness :
  volumeSubscore log10_sample (of_Z 0) = of_Z 0 /\
  (leb (of_Z 62) (volumeSubscore log10_sample (of_Z 100)) = true /\
   leb (volumeSubscore log10_sample (of_Z 100)) (of_Z 64) = true) /\
  (leb (of_Q (935 # 10)) (volumeSubscore log10_sample (of_Z 1000)) = true /\
   leb (volumeSubscore log10_sample (of_Z 1000)) (of_Q (955 # 10)) = true) /\
  volumeSubscore log10_sample (of_Z 10000) = of_Z 95.
Proof.
  destruct (volumeSubscore_transform log10_sample) as (T0 & _ & T100 & T1000 & Tcap).
  destruct log10_sample_accurate as (A101 & A1001 & A10001).
  split; [apply T0; reflexivity|].
  split; [apply T100, A101|].
  split; [apply T1000, A1001|].
  apply Tcap; [reflexivity|reflexivity|exact A10001].
Defined.

(** * Validation, form state, URL state and start-up *)

(** ** Comparisons and [clamp] *)

Lemma strict_eq_spec (x y : number) :
  valid x = true -> valid y = true -> nonnan x = true -> nonnan y = true ->
  strict_eq x y = (xv x =? xv y).
Proof.
  intros Vx Vy Nx Ny. unfold strict_eq, SFeqb.
  rewrite compare_spec by assumption.
  destruct (Z.compare_spec (xv x) (xv y)) as [E|E|E];
    symmetry; [apply Z.eqb_eq|apply Z.eqb_neq|apply Z.eqb_neq]; lia.
Qed.

Lemma isNaN_nonnan (x : number) : Number_isNaN x = negb (nonnan x).
Proof. destruct x; reflexivity. Qed.

(** The value of [clamp] when no argument is NaN. *)
Lemma clamp_value (value lo hi : number) :
  valid value = true -> valid lo = true -> valid hi = true ->
  nonnan value = true -> nonnan lo = true -> nonnan hi = true ->
  valid (clamp value lo hi) = true /\ nonnan (clamp value lo hi) = true /\
  xv (clamp value lo hi) = Z.max (xv lo) (Z.min (xv hi) (xv value)).
Proof.
  intros Vv Vl Vh Nv Nl Nh. unfold clamp.
  destruct (Math_min_spec hi value Vh Vv Nh Nv) as (V1 & N1 & X1).
  destruct (Math_max_spec lo _ Vl V1 Nl N1) as (V2 & N2 & X2).
  split; [exact V2|]. split; [exact N2|]. rewrite X2, X1. reflexivity.
Qed.

(** X1: when the bounds are in order and the value is a number, the
    result of [clamp] lies between the bounds, and a value already
    between them is returned as it is. *)
Theorem clamp_within_bounds :
  forall value lo hi : number,
    valid value = true -> valid lo = true -> valid hi = true ->
    Number_isNaN value = false ->
    leb lo hi = true ->
    leb lo (clamp value lo hi) = true /\
    leb (clamp value lo hi) hi = true /\
    (leb lo value = true -> leb value hi = true ->
     strict_eq (clamp value lo hi) value = true) /\
    (ltb value lo = true -> strict_eq (clamp value lo hi) lo = true) /\
    (ltb hi value = true -> strict_eq (clamp value lo hi) hi = true).
Proof.
  intros v lo hi Vv Vl Vh Nv Hlh.
  rewrite isNaN_nonnan in Nv. apply negb_false_iff in Nv.
  destruct (leb_inv lo hi Vl Vh Hlh) as (Nl & Nh & L).
  destruct (clamp_value v lo hi Vv Vl Vh Nv Nl Nh) as (Vc & Nc & Xc).
  unfold leb, ltb. rewrite !leb_spec, !ltb_spec, !strict_eq_spec by assumption.
  rewrite Xc.
  split; [apply Z.leb_le; lia|]. split; [apply Z.leb_le; lia|].
  split; [|split].
  - intros A B. apply Z.leb_le in A, B. apply Z.eqb_eq. lia.
  - intros A. apply Z.ltb_lt in A. apply Z.eqb_eq. lia.
  - intros A. apply Z.ltb_lt in A. apply Z.eqb_eq. lia.
Qed.

Lemma clamp_within_bounds_witness :
  leb (of_Z 0) (clamp (of_Z 150) (of_Z 0) (of_Z 100)) = true /\
  leb (clamp (of_Z 150) (of_Z 0) (of_Z 100)) (of_Z 100) = true.
Proof.
  pose proof (clamp_within_bounds (of_Z 150) (of_Z 0) (of_Z 100)
                eq_refl eq_refl eq_refl eq_refl eq_refl) as (A & B & _).
  split; [exact A|exact B].
Defined.

(** X2: [clamp] does not check its arguments: a NaN value or bound
    gives NaN, and with the bounds in the wrong order the lower bound
    is returned whatever the value. *)
Theorem clamp_unchecked :
  forall value lo hi : number,
    valid value = true -> valid lo = true -> valid hi = true ->
    (Number_isNaN value || Number_isNaN lo || Number_isNaN hi = true ->
     clamp value lo hi = NaN) /\
    (Number_isNaN value = false -> ltb hi lo = true ->
     strict_eq (clamp value lo hi) lo = true).
Proof.
  intros v lo hi Vv Vl Vh. split.
  - intros H. unfold clamp, Math_max, Math_min.
    destruct v, lo, hi; try discriminate H; try reflexivity;
      repeat match goal with |- context [if ?c then _ else _] => destruct c end;
      reflexivity.
  - intros Nv H. rewrite isNaN_nonnan in Nv. apply negb_false_iff in Nv.
    destruct (ltb_inv hi lo Vh Vl H) as (Nh & Nl & L).
    destruct (clamp_value v lo hi Vv Vl Vh Nv Nl Nh) as (Vc & Nc & Xc).
    rewrite strict_eq_spec by assumption. rewrite Xc. apply Z.eqb_eq. lia.
Qed.

Lemma clamp_unchecked_witness :
  clamp NaN (of_Z 0) (of_Z 100) = NaN /\
  strict_eq (clamp (of_Z 50) (of_Z 100) (of_Z 0)) (of_Z 100) = true.
Proof.
  split.
  - apply (clamp_unchecked NaN (of_Z 0) (of_Z 100) eq_refl eq_refl eq_refl).
    reflexivity.
  - apply (clamp_unchecked (of_Z 50) (of_Z 100) (of_Z 0) eq_refl eq_refl eq_refl);
      reflexivity.
Defined.

(** ** [validateInput] *)

Section ValidateFacts.
Variable Number_toString : number -> string.
Variable inherited : string -> bool.

(** On a field with constraints the verdict is the range test. *)
Lemma validateInput_range (name : string) (c : Constraint.t) (value : number) :
  lookup name INPUT_CONSTRAINTS = Some c ->
  valid value = true ->
  Validation.valid (validateInput Number_toString inherited name value)
  = leb (Constraint.min c) value && leb value (Constraint.max c).
Proof.
  intros Hc V. unfold validateInput. rewrite Hc.
  assert (Hv : valid (Constraint.min c) = true /\ nonnan (Constraint.min c) = true /\
               valid (Constraint.max c) = true /\ nonnan (Constraint.max c) = true).
  { revert Hc. unfold INPUT_CONSTRAINTS. cbn [lookup].
    repeat (destruct (String.eqb _ _);
            [intros E; injection E as <-; repeat split; reflexivity|]).
    discriminate. }
  destruct Hv as (Vl & Nl & Vh & Nh).
  destruct (Number_isNaN value) eqn:EN.
  - destruct value; try discriminate EN. cbn [Validation.valid].
    unfold leb. destruct (Constraint.min c); reflexivity.
  - rewrite isNaN_nonnan in EN. apply negb_false_iff in EN.
    unfold ltb, gtb, leb. rewrite !ltb_spec, !leb_spec by assumption.
    destruct (Z.ltb_spec (xv value) (xv (Constraint.min c))) as [A|A];
      destruct (Z.leb_spec (xv (Constraint.min c)) (xv value)) as [A'|A'];
      try lia; cbn [Validation.valid andb]; [reflexivity|].
    destruct (Z.ltb_spec (xv (Constraint.max c)) (xv value)) as [B|B];
      destruct (Z.leb_spec (xv value) (xv (Constraint.max c))) as [B'|B'];
      try lia; reflexivity.
Qed.

Lemma validateInput_message (name : string) (value : number) :
  Validation.valid (validateInput Number_toString inherited name value) = true <->
  Validation.message (validateInput Number_toString inherited name value) = ""%string.
Proof.
  unfold validateInput.
  destruct (lookup name INPUT_CONSTRAINTS) as [c|].
  - destruct (Number_isNaN value); [split; discriminate|].
    destruct (ltb _ _); [split; discriminate|].
    destruct (gtb _ _); [split; discriminate|].
    split; reflexivity.
  - destruct (inherited name && Number_isNaN value); [split; discriminate|].
    split; reflexivity.
Qed.

End ValidateFacts.

(** X3: [validateInput] accepts a value for a field with constraints
    exactly when [min <= value <= max] (NaN fails both tests); for a name
    without constraints it accepts everything, except NaN under a name
    inherited from [Object.prototype]; and the message is empty exactly
    when the value is accepted. *)
Theorem validateInput_accepts :
  forall (Number_toString : number -> string) (inherited : string -> bool)
         (name : string) (value : number),
    valid value = true ->
    (Validation.valid (validateInput Number_toString inherited name value)
     = match lookup name INPUT_CONSTRAINTS with
       | Some c => leb (Constraint.min c) value && leb value (Constraint.max c)
       | None => negb (inherited name && Number_isNaN value)
       end) /\
    (Validation.valid (validateInput Number_toString inherited name value) = true <->
     Validation.message (validateInput Number_toString inherited name value)
     = ""%string).
Proof.
  intros ts inh name value V. split; [|apply validateInput_message].
  destruct (lookup name INPUT_CONSTRAINTS) as [c|] eqn:Hc.
  - apply validateInput_range; assumption.
  - unfold validateInput. rewrite Hc.
    destruct (inh name && Number_isNaN value); reflexivity.
Qed.

Lemma validateInput_accepts_witness :
  Validation.valid
    (validateInput (fun _ => "100"%string) (fun _ => false) "variance" (of_Z 150))
  = leb (of_Z 0) (of_Z 150) && leb (of_Z 150) (of_Z 100).
Proof.
  exact (proj1 (validateInput_accepts (fun _ => "100"%string) (fun _ => false)
                  "variance" (of_Z 150) eq_refl)).
Defined.

(** X4: the six fields of an input record all pass [validateInput]
    exactly when the record lies in the domain of [calculateReadiness]:
    a non-negative volume and five values between 0 and 100. *)
Theorem validateInput_all_fields :
  forall (Number_toString : number -> string) (inherited : string -> bool)
         (i : Inputs),
    valid_inputs i = true ->
    forallb (fun kv => Validation.valid
                         (validateInput Number_toString inherited (fst kv) (snd kv)))
            (entries i)
    = in_domain i.
Proof.
  intros ts inh i V. apply valid_inputs_inv in V.
  destruct V as (V1 & V2 & V3 & V4 & V5 & V6).
  unfold entries, in_domain, percent. cbn [forallb fst snd].
  rewrite (validateInput_range ts inh "processVolume" _ _ eq_refl V1).
  rewrite (validateInput_range ts inh "variance" _ _ eq_refl V2).
  rewrite (validateInput_range ts inh "exceptionRate" _ _ eq_refl V3).
  rewrite (validateInput_range ts inh "dataQuality" _ _ eq_refl V4).
  rewrite (validateInput_range ts inh "systemAccess" _ _ eq_refl V5).
  rewrite (validateInput_range ts inh "complianceSensitivity" _ _ eq_refl V6).
  cbn [Constraint.min Constraint.max].
  rewrite V1, V2, V3, V4, V5, V6. cbn [andb].
  assert (HI : leb (processVolume i) Infinity = leb (of_Z 0) (processVolume i)
               \/ leb (of_Z 0) (processVolume i) = false).
  { destruct (leb (of_Z 0) (processVolume i)) eqn:E; [left|right; reflexivity].
    destruct (leb_inv (of_Z 0) (processVolume i) eq_refl V1 E) as (_ & N & _).
    unfold leb. rewrite leb_spec by (try assumption; reflexivity).
    apply Z.leb_le. cbn [xv Infinity cond_Zopp].
    destruct (processVolume i) as [s|s| |s m e]; try discriminate N.
    - cbn [xv]. pose proof OV_pos. lia.
    - destruct s; cbn [xv cond_Zopp]; pose proof OV_pos; lia.
    - pose proof (pv_bounds _ _ _ V1). rewrite xv_finite. unfold pv in *.
      destruct s; cbn [cond_Zopp]; lia. }
  destruct HI as [HI|HI]; rewrite HI.
  - rewrite andb_diag, !andb_true_r, !andb_assoc. reflexivity.
  - cbn [andb]. reflexivity.
Qed.

Lemma validateInput_all_fields_witness :
  forallb (fun kv => Validation.valid
                       (validateInput (fun _ => "0"%string) (fun _ => false)
                                      (fst kv) (snd kv)))
          (entries (inputs_of (-100) 20 10 70 60 30))
  = in_domain (inputs_of (-100) 20 10 70 60 30).
Proof.
  exact (validateInput_all_fields (fun _ => "0"%string) (fun _ => false)
           (inputs_of (-100) 20 10 70 60 30) eq_refl).
Defined.

(** ** Reading the form *)

Lemma leb_Infinity (x : number) :
  valid x = true -> nonnan x = true -> leb x Infinity = true.
Proof.
  intros V N. unfold leb. rewrite leb_spec by (try assumption; reflexivity).
  apply Z.leb_le. pose proof OV_pos. cbn [xv Infinity cond_Zopp].
  destruct x as [s|s| |s m e]; try discriminate N.
  - cbn [xv]. lia.
  - destruct s; cbn [xv cond_Zopp]; lia.
  - pose proof (pv_bounds _ _ _ V). rewrite xv_finite. unfold pv in *.
    destruct s; cbn [cond_Zopp]; lia.
Qed.

Lemma Math_min_same (x : number) : Math_min x x = x.
Proof.
  destruct x as [s|s| |s m e]; cbn [Math_min]; try reflexivity.
  - rewrite orb_diag. reflexivity.
  - destruct (ltb _ _); reflexivity.
  - destruct (ltb _ _); reflexivity.
Qed.

(** [Math.max(0, x)] is [+0] or a positive [x]. *)
Lemma Math_max_zero (x : number) :
  valid x = true -> nonnan x = true ->
  Math_max (of_Z 0) x = of_Z 0 \/ (Math_max (of_Z 0) x = x /\ 0 < xv x).
Proof.
  intros V N. change (of_Z 0) with (S754_zero false).
  destruct x as [s|s| |s m e]; try discriminate N.
  - left. reflexivity.
  - destruct s; [left; reflexivity|right]. split; [reflexivity|].
    cbn [xv cond_Zopp]. exact OV_pos.
  - destruct s; [left; reflexivity|right]. split; [reflexivity|].
    pose proof (pv_bounds _ _ _ V). rewrite xv_finite. cbn [cond_Zopp]. lia.
Qed.

(** [Math.round] of a positive number is [+0] or positive, never [-0]. *)
Lemma Math_round_pos (x : number) :
  valid x = true -> 0 < xv x ->
  Math_round x = of_Z 0 \/ 0 < xv (Math_round x).
Proof.
  intros V P.
  destruct x as [s|s| |s m e]; try (right; exact P); try (cbn [xv] in P; lia).
  pose proof (pv_bounds _ _ _ V) as B. rewrite xv_finite in P.
  destruct s; [cbn [cond_Zopp] in P; lia|].
  cbn [Math_round]. destruct (Z.leb_spec 0 e) as [L|L].
  - right. rewrite xv_finite. exact P.
  - pose proof (valid_finite_inv _ _ _ V) as (He & _ & _).
    pose proof (pow2_pos (- e) ltac:(lia)) as HP.
    pose proof (pow2_pos (- e + 1) ltac:(lia)) as HP'.
    assert (K : 0 <= (2 * Z.pos m + 2 ^ (- e)) / 2 ^ (- e + 1)).
    { apply Z.div_pos; lia. }
    destruct ((2 * Z.pos m + 2 ^ (- e)) / 2 ^ (- e + 1)) as [|k|k]; [left; reflexivity| |lia].
    right. unfold prec, emax.
    destruct (binary_normalize_value (Z.pos k) 0 false ltac:(lia)) as (_ & _ & X).
    rewrite X. apply RNs_pos. pose proof (pow2_pos (0 + 1074) ltac:(lia)). lia.
Qed.

(** [Math.round] leaves a positive integer as it is. *)
Lemma Math_round_integer (x : number) (k : Z) :
  is_integer x k -> 0 < k -> Math_round x = x.
Proof.
  intros [F X] P. apply fin_inv in F. destruct F as [V F].
  destruct (Math_round_spec x V F) as (Vr & Fr & Xr).
  pose proof u_pos as Hu.
  assert (E : xv (Math_round x) = xv x).
  { rewrite Xr, X. f_equal.
    replace (2 * (k * u) + u) with ((2 * k + 1) * u) by lia.
    rewrite Z.div_mul_cancel_r by lia. Z.div_mod_to_equations. lia. }
  apply xv_inj; try assumption. rewrite E, X. nia.
Qed.

Lemma xv_0 : xv (of_Z 0) = 0.
Proof. reflexivity. Qed.

Lemma xv_100 : xv (of_Z 100) = 100 * u.
Proof. apply of_Z_spec. cbn. lia. Qed.

(** A percentage field: whatever was parsed, the value stored is the
    integer nearest to it within 0 and 100. *)
Lemma normalise_percent (parsed : number) :
  valid parsed = true ->
  let value := if truthy parsed then parsed else of_Z 0 in
  let K := (2 * Z.max 0 (Z.min (100 * u) (xv value)) + u) / (2 * u) in
  0 <= K <= 100 /\
  Math_round (clamp value (of_Z 0) (of_Z 100)) = of_Z K.
Proof.
  intros V value K. pose proof u_pos as Hu. pose proof u_OV as HO.
  assert (Vv : valid value = true /\ nonnan value = true).
  { subst value. destruct parsed; cbn [truthy]; split; try reflexivity; assumption. }
  destruct Vv as [Vv Nv].
  destruct (clamp_value value (of_Z 0) (of_Z 100) Vv eq_refl eq_refl Nv eq_refl eq_refl)
    as (Vc & Nc & Xc).
  rewrite xv_0, xv_100 in Xc.
  assert (Fc : finite (clamp value (of_Z 0) (of_Z 100)) = true).
  { apply finite_of_lt; [exact Nc|]. rewrite Xc. lia. }
  destruct (Math_round_spec _ Vc Fc) as (Vr & Fr & Xr).
  rewrite Xc in Xr. fold K in Xr.
  assert (HK : 0 <= K <= 100).
  { subst K. split.
    - apply Z.div_pos; lia.
    - assert ((2 * Z.max 0 (Z.min (100 * u) (xv value)) + u) / (2 * u) < 101); [|lia].
      apply Z.div_lt_upper_bound; lia. }
  split; [exact HK|].
  destruct (Z.eq_dec K 0) as [K0|K0].
  - rewrite K0 in *. 
    unfold clamp in *.
    destruct (Math_min_spec (of_Z 100) value eq_refl Vv eq_refl Nv) as (Vm & Nm & _).
    destruct (Math_max_zero _ Vm Nm) as [E|[E P]].
    + rewrite E. reflexivity.
    + rewrite E in *. destruct (Math_round_pos _ Vm P) as [R|R]; [exact R|lia].
  - apply xv_of_Z_inj; try assumption. lia.
Qed.

(** The volume field: the value stored is [Infinity], [+0] or a positive
    integer. *)
Lemma normalise_volume (parsed : number) :
  valid parsed = true ->
  let value := if truthy parsed then parsed else of_Z 0 in
  let r := Math_round (clamp value (of_Z 0) value) in
  stored_volume r /\
  (stored_volume parsed -> r = parsed).
Proof.
  intros V value r. pose proof u_pos as Hu.
  assert (Vv : valid value = true /\ nonnan value = true).
  { subst value. destruct parsed; cbn [truthy]; split; try reflexivity; assumption. }
  destruct Vv as [Vv Nv].
  assert (Er : r = Math_round (Math_max (of_Z 0) value)).
  { subst r. unfold clamp. rewrite Math_min_same. reflexivity. }
  split.
  - rewrite Er. destruct (Math_max_zero value Vv Nv) as [E|[E P]]; rewrite E.
    + right. left. reflexivity.
    + destruct value as [s|s| |s m e] eqn:EV; try discriminate Nv.
      * cbn [xv] in P. lia.
      * left. destruct s; [cbn [xv cond_Zopp] in P; pose proof OV_pos; lia|reflexivity].
      * rewrite <- EV in *.
        assert (Fv : finite value = true) by (rewrite EV; reflexivity).
        destruct (Math_round_spec value Vv Fv) as (Vr & Fr & Xr).
        destruct (Math_round_pos value Vv P) as [R|R]; [right; left; exact R|].
        right. right. exists ((2 * xv value + u) / (2 * u)).
        split; [rewrite Xr in R; nia|].
        split; [apply fin_intro; assumption|exact Xr].
  - intros [S|[S|(k & Hk & I)]].
    + rewrite Er. subst value. rewrite S. reflexivity.
    + rewrite Er. subst value. rewrite S. reflexivity.
    + assert (P : 0 < xv parsed) by (destruct I as [_ X]; rewrite X; nia).
      assert (value = parsed).
      { subst value. destruct parsed; try reflexivity; cbn [xv] in P; lia. }
      rewrite Er, H.
      destruct (Math_max_zero parsed V) as [E|[E _]].
      * destruct I as [F _]. apply fin_inv in F. apply finite_nonnan, F.
      * exfalso.
        assert (N : nonnan parsed = true).
        { destruct I as [F _]. apply fin_inv in F. apply finite_nonnan, F. }
        destruct (Math_max_spec (of_Z 0) parsed eq_refl V eq_refl N) as (_ & _ & X).
        rewrite E, xv_0 in X. lia.
      * rewrite E. apply (Math_round_integer parsed k I Hk).
Qed.

Section FormFacts.
Variable Number_toString : number -> string.
Variable parseInt10 : string -> number.
Variable inherited : string -> bool.
Hypothesis parseInt10_valid : forall s, valid (parseInt10 s) = true.

Let field (data : list (string * string)) (key : string) : number :=
  parseInt10 (match lookup key data with Some s => s | None => "null"%string end).

Lemma readField_percent (data : list (string * string)) (key : string) :
  In key percent_fields ->
  exists k, 0 <= k <= 100 /\
    readField Number_toString parseInt10 inherited data key = Some (of_Z k, ""%string) /\
    (forall j, 0 <= j <= 100 -> field data key = of_Z j -> k = j).
Proof.
  intros Hk.
  destruct (normalise_percent (field data key) (parseInt10_valid _)) as [HK E].
  cbv zeta in HK, E.
  set (K := (2 * Z.max 0 (Z.min (100 * u)
               (xv (if truthy (field data key) then field data key else of_Z 0))) + u)
            / (2 * u)) in *.
  exists K. split; [exact HK|].
  assert (VK : valid (of_Z K) = true /\ xv (of_Z K) = K * u).
  { destruct (of_Z_spec K) as (A & _ & B); [lia|]. split; assumption. }
  destruct VK as [VK XK].
  split.
  - assert (C : lookup key INPUT_CONSTRAINTS = Some (Constraint.mk (of_Z 0) (of_Z 100))).
    { unfold percent_fields in Hk. cbn [In] in Hk.
      destruct Hk as [<-|[<-|[<-|[<-|[<-|[]]]]]]; reflexivity. }
    unfold readField. fold (field data key). rewrite C.
    cbn [Constraint.min Constraint.max].
    change (strict_eq (of_Z 100) Infinity) with false. cbv iota zeta.
    rewrite E.
    rewrite (validateInput_range Number_toString inherited key _ _ C VK).
    cbn [Constraint.min Constraint.max].
    assert (L : leb (of_Z 0) (of_Z K) && leb (of_Z K) (of_Z 100) = true).
    { unfold leb. rewrite !leb_spec; try reflexivity; try assumption;
        try (apply finite_nonnan, of_Z_spec; lia).
      rewrite XK, xv_0, xv_100. pose proof u_pos.
      apply andb_true_iff. split; apply Z.leb_le; nia. }
    rewrite L. reflexivity.
  - intros j Hj Ej. subst K. rewrite Ej.
    assert (Xj : xv (of_Z j) = j * u) by (apply of_Z_spec; lia).
    pose proof u_pos as Hu.
    assert (T : (if truthy (of_Z j) then of_Z j else of_Z 0) = of_Z j).
    { destruct (truthy (of_Z j)) eqn:T; [reflexivity|].
      destruct (Z.eq_dec j 0) as [->|NZ]; [reflexivity|].
      exfalso. destruct (of_Z j); try discriminate T; cbn [xv] in Xj; nia. }
    rewrite T, Xj.
    replace (Z.max 0 (Z.min (100 * u) (j * u))) with (j * u) by nia.
    replace (2 * (j * u) + u) with ((2 * j + 1) * u) by lia.
    rewrite Z.div_mul_cancel_r by lia. Z.div_mod_to_equations. lia.
Qed.

Lemma stored_volume_domain (r : number) :
  stored_volume r ->
  valid r = true /\ nonnan r = true /\ leb (of_Z 0) r = true.
Proof.
  intros [->|[->|(k & Hk & F & X)]]; [repeat split; reflexivity..|].
  apply fin_inv in F. destruct F as [V F]. pose proof (finite_nonnan _ F) as N.
  split; [exact V|]. split; [exact N|].
  unfold leb. rewrite leb_spec; try reflexivity; try assumption.
  rewrite xv_0, X. pose proof u_pos. apply Z.leb_le. nia.
Qed.

Lemma readField_volume (data : list (string * string)) :
  exists r, stored_volume r /\
    readField Number_toString parseInt10 inherited data "processVolume"
    = Some (r, ""%string) /\
    (stored_volume (field data "processVolume") -> r = field data "processVolume").
Proof.
  destruct (normalise_volume (field data "processVolume") (parseInt10_valid _)) as [S I].
  cbv zeta in S, I.
  set (value := if truthy (field data "processVolume")
                then field data "processVolume" else of_Z 0) in *.
  set (r := Math_round (clamp value (of_Z 0) value)) in *.
  exists r. split; [exact S|]. split; [|exact I].
  destruct (stored_volume_domain r S) as (V & N & L).
  unfold readField. fold (field data "processVolume"). fold value.
  change (lookup "processVolume" INPUT_CONSTRAINTS)
    with (Some (Constraint.mk (of_Z 0) Infinity)).
  cbn [Constraint.min Constraint.max].
  change (strict_eq Infinity Infinity) with true. cbv iota zeta. fold r.
  rewrite (validateInput_range Number_toString inherited "processVolume"
             (Constraint.mk (of_Z 0) Infinity) r eq_refl V).
  cbn [Constraint.min Constraint.max].
  rewrite L, (leb_Infinity r V N). reflexivity.
Qed.

(** The six calls of the loop, put together. *)
Lemma getInputsFromForm_fields (data : list (string * string))
    (v1 v2 v3 v4 v5 v6 : number) (m1 m2 m3 m4 m5 m6 : string) :
  readField Number_toString parseInt10 inherited data "processVolume" = Some (v1, m1) ->
  readField Number_toString parseInt10 inherited data "variance" = Some (v2, m2) ->
  readField Number_toString parseInt10 inherited data "exceptionRate" = Some (v3, m3) ->
  readField Number_toString parseInt10 inherited data "dataQuality" = Some (v4, m4) ->
  readField Number_toString parseInt10 inherited data "systemAccess" = Some (v5, m5) ->
  readField Number_toString parseInt10 inherited data "complianceSensitivity" = Some (v6, m6) ->
  getInputsFromForm Number_toString parseInt10 inherited data
  = Some (entries (mkInputs v1 v2 v3 v4 v5 v6),
          [ ("processVolume", m1); ("variance", m2); ("exceptionRate", m3);
            ("dataQuality", m4); ("systemAccess", m5);
            ("complianceSensitivity", m6) ]%string).
Proof.
  intros H1 H2 H3 H4 H5 H6. unfold getInputsFromForm.
  change (map fst (entries DEFAULT_INPUTS))
    with ([ "processVolume"; "variance"; "exceptionRate"; "dataQuality";
            "systemAccess"; "complianceSensitivity" ]%string).
  cbn [forEachKey]. rewrite H1. cbn [forEachKey]. rewrite H2. cbn [forEachKey].
  rewrite H3. cbn [forEachKey]. rewrite H4. cbn [forEachKey]. rewrite H5.
  cbn [forEachKey]. rewrite H6. reflexivity.
Qed.

(** What the form yields, whatever it holds. *)
Lemma getInputsFromForm_result (data : list (string * string)) :
  exists (r : number) (k2 k3 k4 k5 k6 : Z),
    stored_volume r /\
    (0 <= k2 <= 100 /\ 0 <= k3 <= 100 /\ 0 <= k4 <= 100 /\
     0 <= k5 <= 100 /\ 0 <= k6 <= 100) /\
    getInputsFromForm Number_toString parseInt10 inherited data
    = Some (entries (mkInputs r (of_Z k2) (of_Z k3) (of_Z k4) (of_Z k5) (of_Z k6)),
            map (fun key => (key, ""%string)) (map fst (entries DEFAULT_INPUTS))) /\
    (stored_volume (field data "processVolume") -> r = field data "processVolume") /\
    (forall j, 0 <= j <= 100 -> field data "variance" = of_Z j -> k2 = j) /\
    (forall j, 0 <= j <= 100 -> field data "exceptionRate" = of_Z j -> k3 = j) /\
    (forall j, 0 <= j <= 100 -> field data "dataQuality" = of_Z j -> k4 = j) /\
    (forall j, 0 <= j <= 100 -> field data "systemAccess" = of_Z j -> k5 = j) /\
    (forall j, 0 <= j <= 100 -> field data "complianceSensitivity" = of_Z j -> k6 = j).
Proof.
  destruct (readField_volume data) as (r & S & H1 & I1).
  destruct (readField_percent data "variance") as (k2 & B2 & H2 & I2);
    [unfold percent_fields; cbn [In]; tauto|].
  destruct (readField_percent data "exceptionRate") as (k3 & B3 & H3 & I3);
    [unfold percent_fields; cbn [In]; tauto|].
  destruct (readField_percent data "dataQuality") as (k4 & B4 & H4 & I4);
    [unfold percent_fields; cbn [In]; tauto|].
  destruct (readField_percent data "systemAccess") as (k5 & B5 & H5 & I5);
    [unfold percent_fields; cbn [In]; tauto|].
  destruct (readField_percent data "complianceSensitivity") as (k6 & B6 & H6 & I6);
    [unfold percent_fields; cbn [In]; tauto|].
  exists r, k2, k3, k4, k5, k6.
  split; [exact S|]. split; [tauto|].
  split; [exact (getInputsFromForm_fields data _ _ _ _ _ _ _ _ _ _ _ _ H1 H2 H3 H4 H5 H6)|].
  tauto.
Qed.

Lemma percent_of_Z (k : Z) : 0 <= k <= 100 -> percent (of_Z k) = true.
Proof.
  intros Hk. destruct (of_Z_spec k ltac:(lia)) as (V & F & X).
  pose proof (finite_nonnan _ F) as N. pose proof u_pos.
  unfold percent, leb. rewrite V, !leb_spec; try reflexivity; try assumption.
  rewrite X, xv_0, xv_100. cbn [andb].
  apply andb_true_iff. split; apply Z.leb_le; nia.
Qed.

Lemma stored_in_domain (r : number) (k2 k3 k4 k5 k6 : Z) :
  stored_volume r ->
  0 <= k2 <= 100 -> 0 <= k3 <= 100 -> 0 <= k4 <= 100 ->
  0 <= k5 <= 100 -> 0 <= k6 <= 100 ->
  in_domain (mkInputs r (of_Z k2) (of_Z k3) (of_Z k4) (of_Z k5) (of_Z k6)) = true.
Proof.
  intros S B2 B3 B4 B5 B6. destruct (stored_volume_domain r S) as (V & N & L).
  unfold in_domain.
  cbn [processVolume variance exceptionRate dataQuality systemAccess
       complianceSensitivity].
  rewrite V, L, !percent_of_Z by assumption. reflexivity.
Qed.

End FormFacts.

(** X5: whatever the form holds, [getInputsFromForm] returns without
    throwing an object with the six fields, the volume being [Infinity],
    0 or a positive integer and each other field an integer from 0 to
    100; so the object lies in the domain of [calculateReadiness], and
    every call of [showValidationError] passes the empty message: the
    validation after clamping never fails. *)
Theorem getInputsFromForm_normalises :
  forall (Number_toString : number -> string) (parseInt10 : string -> number)
         (inherited : string -> bool) (data : list (string * string)),
    (forall s, valid (parseInt10 s) = true) ->
    exists inputs shown,
      getInputsFromForm Number_toString parseInt10 inherited data
      = Some (inputs, shown) /\
      map fst inputs = map fst (entries DEFAULT_INPUTS) /\
      stored_volume (get inputs "processVolume") /\
      (forall key, In key percent_fields -> stored_percent (get inputs key)) /\
      in_domain (asInputs inputs) = true /\
      shown = map (fun key => (key, ""%string)) (map fst (entries DEFAULT_INPUTS)).
Proof.
  intros ts pI inh data HV.
  destruct (getInputsFromForm_result ts pI inh HV data)
    as (r & k2 & k3 & k4 & k5 & k6 & S & (B2 & B3 & B4 & B5 & B6) & E & _).
  eexists. eexists. split; [exact E|].
  split; [reflexivity|]. split; [exact S|]. split; [|split; [|reflexivity]].
  - intros key Hk. unfold percent_fields in Hk. cbn [In] in Hk.
    destruct Hk as [<-|[<-|[<-|[<-|[<-|[]]]]]]; eexists; (split; [|reflexivity]);
      assumption.
  - change (asInputs (entries (mkInputs r (of_Z k2) (of_Z k3) (of_Z k4) (of_Z k5) (of_Z k6))))
      with (mkInputs r (of_Z k2) (of_Z k3) (of_Z k4) (of_Z k5) (of_Z k6)).
    apply stored_in_domain; assumption.
Qed.

Lemma parseInt_sample_valid (s : string) : valid (parseInt_sample s) = true.
Proof.
  assert (V : forall n, valid (of_Z n) = true).
  { intros n. unfold of_Z, prec, emax.
    apply (binary_normalize_value n 0 false). lia. }
  unfold parseInt_sample. destruct s as [|c s]; [reflexivity|].
  destruct (Ascii.eqb c "-").
  - destruct (leading_digits s None); [|reflexivity].
    unfold valid. rewrite valid_opp. apply V.
  - destruct (leading_digits _ None); [apply V|reflexivity].
Qed.

Lemma getInputsFromForm_normalises_witness :
  exists inputs shown,
    getInputsFromForm toString_sample parseInt_sample (fun _ => false) sample_form
    = Some (inputs, shown) /\
    in_domain (asInputs inputs) = true.
Proof.
  destruct (getInputsFromForm_normalises toString_sample parseInt_sample
              (fun _ => false) sample_form parseInt_sample_valid)
    as (inputs & shown & E & _ & _ & _ & D & _).
  exists inputs, shown. split; [exact E|exact D].
Defined.



(** ** Objects *)

Section ObjectFacts.
Context {A : Type}.

Lemma lookup_assign (o : list (string * A)) (k k' : string) (v : A) :
  lookup k (assign o k' v) = if String.eqb k k' then Some v else lookup k o.
Proof.
  induction o as [|[k0 w] o IH]; cbn [assign lookup].
  - reflexivity.
  - destruct (String.eqb_spec k0 k') as [->|N0]; cbn [lookup].
    + destruct (String.eqb k k'); reflexivity.
    + destruct (String.eqb_spec k k0) as [->|N1].
      * destruct (String.eqb_spec k0 k'); [contradiction|reflexivity].
      * exact IH.
Qed.

Lemma lookup_absent (o : list (string * A)) (k : string) :
  ~ In k (map fst o) -> lookup k o = None.
Proof.
  induction o as [|[k0 w] o IH]; cbn [lookup map fst In]; intros H.
  - reflexivity.
  - destruct (String.eqb_spec k k0) as [->|N]; [tauto|]. apply IH. tauto.
Qed.

(** A property of the spread source wins over the target's. *)
Lemma lookup_spread (target source : list (string * A)) (k : string) :
  NoDup (map fst source) ->
  lookup k (spread target source)
  = match lookup k source with
    | Some v => Some v
    | None => lookup k target
    end.
Proof.
  unfold spread. revert target.
  induction source as [|[k' v'] s IH]; intros target ND; cbn [fold_left lookup].
  - reflexivity.
  - cbn [map fst] in ND. inversion ND as [|? ? NI ND']; subst.
    cbn [fst snd]. rewrite (IH _ ND'), lookup_assign.
    destruct (String.eqb_spec k k') as [->|N].
    + rewrite (lookup_absent s k' NI). reflexivity.
    + reflexivity.
Qed.

End ObjectFacts.

Lemma lookup_map_snd {A B : Type} (f : A -> B) (o : list (string * A)) (k : string) :
  lookup k (map (fun kv => (fst kv, f (snd kv))) o)
  = match lookup k o with Some v => Some (f v) | None => None end.
Proof.
  induction o as [|[k0 w] o IH]; cbn [map lookup fst snd].
  - reflexivity.
  - destruct (String.eqb k k0); [reflexivity|exact IH].
Qed.

(** ** URL state *)

Lemma params_has_lookup (params : URLSearchParams) (name : string) :
  params_has params name
  = match lookup name params with Some _ => true | None => false end.
Proof.
  unfold params_has.
  induction params as [|[n v] params IH]; cbn [existsb lookup fst].
  - reflexivity.
  - rewrite (String.eqb_sym n name).
    destruct (String.eqb name n); [reflexivity|exact IH].
Qed.

Section URLFacts.
Variable Number_toString : number -> string.
Variable parseInt10 : string -> number.

(** What one parameter contributes. *)
Let read (params : URLSearchParams) (param : string) : option number :=
  match lookup param params with
  | Some s => if Number_isNaN (parseInt10 s) then None else Some (parseInt10 s)
  | None => None
  end.

Lemma getStateFromURL_fold (params : URLSearchParams) (key : string)
    (m : list (string * string)) :
  forall acc : list (string * number),
    lookup key
      (fold_left
         (fun inputs pk =>
            let '(param, key) := pk in
            if params_has params param then
              let value :=
                parseInt10 (match params_get params param with
                            | Some s => s
                            | None => "null"%string
                            end) in
              if negb (Number_isNaN value) then assign inputs key value else inputs
            else inputs) m acc)
    = fold_left
        (fun r pk =>
           if String.eqb key (snd pk)
           then match read params (fst pk) with Some v => Some v | None => r end
           else r) m (lookup key acc).
Proof.
  induction m as [|[param k] m IH]; intros acc; cbn [fold_left].
  - reflexivity.
  - rewrite IH. f_equal. cbn [fst snd]. unfold read, params_get.
    rewrite params_has_lookup.
    destruct (lookup param params) as [s|].
    + destruct (Number_isNaN (parseInt10 s)); cbn [negb].
      * destruct (String.eqb key k); reflexivity.
      * apply lookup_assign.
    + destruct (String.eqb key k); reflexivity.
Qed.

Lemma getStateFromURL_lookup (params : URLSearchParams) (key : string) :
  lookup key (getStateFromURL parseInt10 params)
  = match param_of_key key with
    | Some param => read params param
    | None => None
    end.
Proof.
  unfold getStateFromURL. rewrite getStateFromURL_fold.
  unfold param_of_key, mapping. cbn [fold_left find fst snd lookup].
  rewrite !(String.eqb_sym _ key).
  destruct (String.eqb_spec key "processVolume") as [->|N1];
    [cbn; destruct (read params "pv"); reflexivity|].
  destruct (String.eqb_spec key "variance") as [->|N2];
    [cbn; destruct (read params "v"); reflexivity|].
  destruct (String.eqb_spec key "exceptionRate") as [->|N3];
    [cbn; destruct (read params "e"); reflexivity|].
  destruct (String.eqb_spec key "dataQuality") as [->|N4];
    [cbn; destruct (read params "dq"); reflexivity|].
  destruct (String.eqb_spec key "systemAccess") as [->|N5];
    [cbn; destruct (read params "sa"); reflexivity|].
  destruct (String.eqb_spec key "complianceSensitivity") as [->|N6];
    [cbn; destruct (read params "c"); reflexivity|].
  reflexivity.
Qed.

Lemma setStateToURL_eq (i : Inputs) :
  setStateToURL Number_toString i
  = [ ("pv", Number_toString (processVolume i));
      ("v", Number_toString (variance i));
      ("e", Number_toString (exceptionRate i));
      ("dq", Number_toString (dataQuality i));
      ("sa", Number_toString (systemAccess i));
      ("c", Number_toString (complianceSensitivity i)) ]%string.
Proof. reflexivity. Qed.

(** What comes back from the parameters [setStateToURL] wrote. *)
Lemma getStateFromURL_setStateToURL (i : Inputs) :
  getStateFromURL parseInt10 (setStateToURL Number_toString i)
  = filter (fun kv => negb (Number_isNaN (snd kv)))
           (map (fun kv => (fst kv, parseInt10 (Number_toString (snd kv))))
                (entries i)).
Proof.
  rewrite setStateToURL_eq. unfold getStateFromURL, mapping, entries.
  cbn [fold_left params_has params_get existsb lookup fst snd String.eqb
       Ascii.eqb Bool.eqb orb map filter].
  destruct (Number_isNaN (parseInt10 (Number_toString (processVolume i))));
  destruct (Number_isNaN (parseInt10 (Number_toString (variance i))));
  destruct (Number_isNaN (parseInt10 (Number_toString (exceptionRate i))));
  destruct (Number_isNaN (parseInt10 (Number_toString (dataQuality i))));
  destruct (Number_isNaN (parseInt10 (Number_toString (systemAccess i))));
  destruct (Number_isNaN (parseInt10 (Number_toString (complianceSensitivity i))));
  reflexivity.
Qed.

End URLFacts.

(** X7: the URL state round-trips: from the parameters [setStateToURL]
    writes, [getStateFromURL] reads back every field whose printed value
    [parseInt] reads as the same number. *)
Theorem url_state_round_trip :
  forall (Number_toString : number -> string) (parseInt10 : string -> number)
         (i : Inputs),
    Forall (fun kv => parseInt10 (Number_toString (snd kv)) = snd kv /\
                      Number_isNaN (snd kv) = false) (entries i) ->
    getStateFromURL parseInt10 (setStateToURL Number_toString i) = entries i /\
    asInputs (getStateFromURL parseInt10 (setStateToURL Number_toString i)) = i.
Proof.
  intros ts pI i H.
  assert (E : getStateFromURL pI (setStateToURL ts i) = entries i).
  { rewrite getStateFromURL_setStateToURL.
    induction H as [|kv l [Hp Hn] Hl IH]; cbn [map filter fst snd].
    - reflexivity.
    - rewrite Hp, Hn. cbn [negb]. rewrite IH. destruct kv; reflexivity. }
  split; [exact E|]. rewrite E. destruct i; reflexivity.
Qed.

Lemma url_state_round_trip_witness :
  getStateFromURL parseInt_sample (setStateToURL toString_sample DEFAULT_INPUTS)
  = entries DEFAULT_INPUTS.
Proof.
  apply (url_state_round_trip toString_sample parseInt_sample DEFAULT_INPUTS).
  unfold entries.
  repeat (constructor; [split; vm_compute; reflexivity|]). constructor.
Defined.

(** X8: [getStateFromURL] fills a key only from its own parameter
    ([pv], [v], [e], [dq], [sa], [c]), reading the first value given for
    it; a parameter that is missing, or whose value [parseInt] reads as
    NaN, leaves the key out, as does every other name. *)
Theorem getStateFromURL_reads :
  forall (parseInt10 : string -> number) (params : URLSearchParams) (key : string),
    lookup key (getStateFromURL parseInt10 params)
    = match param_of_key key with
      | Some param =>
          match params_get params param with
          | Some s =>
              if Number_isNaN (parseInt10 s) then None else Some (parseInt10 s)
          | None => None
          end
      | None => None
      end.
Proof. intros pI params key. apply getStateFromURL_lookup. Qed.

(** X9: a field that [setStateToURL] prints as a string [parseInt]
    cannot read (such as [Infinity] for an unbounded volume) is lost
    from the address, and only that field. *)
Theorem url_state_drops_unreadable :
  forall (Number_toString : number -> string) (parseInt10 : string -> number)
         (i : Inputs) (key : string) (v : number),
    lookup key (entries i) = Some v ->
    lookup key (getStateFromURL parseInt10 (setStateToURL Number_toString i))
    = if Number_isNaN (parseInt10 (Number_toString v)) then None
      else Some (parseInt10 (Number_toString v)).
Proof.
  intros ts pI i key v H.
  rewrite getStateFromURL_lookup, setStateToURL_eq.
  revert H. unfold entries, param_of_key, mapping. cbn [lookup find fst snd].
  rewrite !(String.eqb_sym _ key).
  repeat (destruct (String.eqb key _);
          [intros E; injection E as <-; reflexivity|]).
  discriminate.
Qed.

Lemma url_state_drops_unreadable_witness :
  lookup "processVolume"
    (getStateFromURL parseInt_sample
       (setStateToURL toString_sample (best_inputs Infinity))) = None /\
  lookup "variance"
    (getStateFromURL parseInt_sample
       (setStateToURL toString_sample (best_inputs Infinity))) = Some (of_Z 0).
Proof.
  split.
  - exact (url_state_drops_unreadable toString_sample parseInt_sample
             (best_inputs Infinity) "processVolume" Infinity eq_refl).
  - exact (url_state_drops_unreadable toString_sample parseInt_sample
             (best_inputs Infinity) "variance" (of_Z 0) eq_refl).
Defined.

(** ** Start-up *)

(** X10: the layering of [init]: for every key the value of the address
    wins over the saved value, which wins over the default; the six
    default keys are always present. *)
Theorem initialInputs_layers :
  forall (V : Type) (num : number -> V) (localState : option (list (string * V)))
         (urlState : list (string * number)) (key : string),
    NoDup (map fst (match localState with Some o => o | None => [] end)) ->
    NoDup (map fst urlState) ->
    lookup key (initialInputs num localState urlState)
    = match lookup key urlState with
      | Some v => Some (num v)
      | None =>
          match lookup key (match localState with Some o => o | None => [] end) with
          | Some w => Some w
          | None =>
              match lookup key (entries DEFAULT_INPUTS) with
              | Some d => Some (num d)
              | None => None
              end
          end
      end.
Proof.
  intros V num localState urlState key NL NU. unfold initialInputs.
  rewrite lookup_spread.
  - rewrite lookup_map_snd. destruct (lookup key urlState); [reflexivity|].
    rewrite lookup_spread by exact NL.
    destruct (lookup key _); [reflexivity|]. apply lookup_map_snd.
  - rewrite map_map. cbn [fst]. exact NU.
Qed.

Lemma initialInputs_layers_witness :
  lookup "variance"
    (initialInputs (fun x => x) (Some [("variance", of_Z 55); ("dataQuality", of_Z 40)])
       [("variance", of_Z 5)])%string = Some (of_Z 5) /\
  lookup "dataQuality"
    (initialInputs (fun x => x) (Some [("variance", of_Z 55); ("dataQuality", of_Z 40)])
       [("variance", of_Z 5)])%string = Some (of_Z 40) /\
  lookup "systemAccess"
    (initialInputs (fun x => x) (Some [("variance", of_Z 55); ("dataQuality", of_Z 40)])
       [("variance", of_Z 5)])%string = Some (of_Z 60).
Proof.
  assert (NL : NoDup (map fst [("variance", of_Z 55); ("dataQuality", of_Z 40)]%string)).
  { cbn [map fst]. repeat constructor; cbn [In]; intros H; 
      repeat (destruct H as [H|H]; [discriminate H|]); exact H. }
  assert (NU : NoDup (map fst [("variance", of_Z 5)]%string)).
  { cbn [map fst]. repeat constructor. cbn [In]. tauto. }
  split; [|split].
  - exact (initialInputs_layers number (fun x => x)
             (Some [("variance", of_Z 55); ("dataQuality", of_Z 40)]%string)
             [("variance", of_Z 5)]%string "variance" NL NU).
  - exact (initialInputs_layers number (fun x => x)
             (Some [("variance", of_Z 55); ("dataQuality", of_Z 40)]%string)
             [("variance", of_Z 5)]%string "dataQuality" NL NU).
  - exact (initialInputs_layers number (fun x => x)
             (Some [("variance", of_Z 55); ("dataQuality", of_Z 40)]%string)
             [("variance", of_Z 5)]%string "systemAccess" NL NU).
Defined.

(** ** The order of the blockers *)

Section SortTies.
Context {A : Type} (comparefn : A -> A -> number).
Variable g : A -> Z.
Variable p : A -> nat.
Variable ok : A -> Prop.
Hypothesis comparefn_key :
  forall x y, ok x -> ok y -> gtb (comparefn x y) (of_Z 0) = (g x <? g y).

(** Larger key first; among equal keys, smaller place first. *)
Let lex (a b : A) : Prop := g b < g a \/ (g a = g b /\ (p a < p b)%nat).

Lemma insert_ties (x : A) (l : list A) :
  ok x -> Forall ok l -> Forall (fun y => (p x < p y)%nat) l ->
  StronglySorted lex l -> StronglySorted lex (insert comparefn x l).
Proof.
  intros Hx Hl Hp HS. induction HS as [|y l HS IH Hy]; cbn [insert].
  - constructor; constructor.
  - inversion Hl as [|? ? Oy Ol]; subst. inversion Hp as [|? ? Py Pl]; subst.
    rewrite comparefn_key by assumption.
    destruct (Z.ltb_spec (g x) (g y)) as [L|L].
    + constructor; [apply IH; assumption|].
      eapply Permutation_Forall; [apply Permutation_sym, insert_perm|].
      constructor; [left; exact L|exact Hy].
    + constructor; [constructor; assumption|].
      constructor.
      * unfold lex. destruct (Z.eq_dec (g x) (g y)) as [E|E]; [right|left]; lia.
      * rewrite Forall_forall in Hy, Pl. apply Forall_forall. intros z Hz.
        specialize (Hy z Hz). specialize (Pl z Hz). unfold lex in *.
        destruct (Z.eq_dec (g x) (g z)) as [E|E]; [right|left]; lia.
Qed.

Lemma sort_ties (l : list A) :
  Forall ok l -> StronglySorted (fun a b => (p a < p b)%nat) l ->
  StronglySorted lex (sort comparefn l).
Proof.
  intros Hl HS. induction HS as [|x l HS IH Hx]; cbn [sort fold_right].
  - constructor.
  - inversion Hl as [|? ? Ox Ol]; subst.
    apply insert_ties.
    + exact Ox.
    + eapply Permutation_Forall; [apply Permutation_sym, sort_perm|exact Ol].
    + eapply Permutation_Forall; [apply Permutation_sym, sort_perm|exact Hx].
    + apply IH, Ol.
Qed.

End SortTies.

Section Kept.
Context {A : Type} (before : A -> A -> Prop) (keep : A -> bool).

Lemma kept_sorted (xs : list A) :
  StronglySorted before xs -> StronglySorted before (filter keep xs).
Proof.
  intros HS. induction HS as [|x xs HS IH Hx]; cbn [filter].
  - constructor.
  - destruct (keep x); [|exact IH]. constructor; [exact IH|].
    rewrite Forall_forall in Hx. apply Forall_forall. intros y Hy.
    apply filter_In in Hy. apply Hx, Hy.
Qed.

End Kept.

(** X11: the blockers are listed by descending gap, and blockers with
    the same gap in the order their factors are declared
    (stableProcess, lowExceptions, dataQuality, systemAccess,
    lowComplianceRisk, volumePotential): the sort is stable. *)
Theorem topBlockers_ties_in_declaration_order :
  forall (Math_log10 : number -> number) (i : Inputs) (o : Output),
    valid_inputs i = true ->
    valid (Math_log10 (add (processVolume i) (of_Z 1))) = true ->
    calculateReadiness Math_log10 i = Some o ->
    StronglySorted ranks_before (topBlockers o).
Proof.
  intros L i o Vi VL H.
  apply calculateReadiness_some in H. destruct H as (all & Hall & ->).
  rewrite allBlockers_eq in Hall.
  apply (f_equal (fun x => match x with Some y => y | None => all end)) in Hall.
  cbn [topBlockers]. unfold selectTop, slice0.
  set (keep := fun b : Blocker => gtb (gap b) MIN_GAP_THRESHOLD).
  assert (Hok : Forall gap_ok (filter keep all)).
  { apply Forall_forall. intros b Hb. apply filter_In in Hb. destruct Hb as [Hb Hk].
    split; [|eapply gtb_nonnan, Hk].
    rewrite <- Hall in Hb. apply in_map_iff in Hb. destruct Hb as (key & <- & Hkey).
    cbn [gap]. apply (gapOf_valid L i key); assumption. }
  assert (Hdecl : StronglySorted declared_before all).
  { rewrite <- Hall. unfold factors. cbn [map].
    repeat (constructor; [|repeat (constructor; [apply Nat.ltb_lt; reflexivity|]);
                           constructor]).
    constructor. }
  apply StronglySorted_firstn.
  eapply (StronglySorted_impl
            (fun a b => xv (gap b) < xv (gap a) \/
                        (xv (gap a) = xv (gap b) /\
                         (index_of (factor a) factors < index_of (factor b) factors)%nat))
            ranks_before gap_ok).
  - intros a b [Va Na] [Vb Nb] [Hlt|[Heq Hd]]; unfold ranks_before.
    + left. unfold gtb, ltb. rewrite ltb_spec by assumption. apply Z.ltb_lt, Hlt.
    + right. split; [|exact Hd].
      rewrite strict_eq_spec by assumption. apply Z.eqb_eq, Heq.
  - eapply Permutation_Forall; [apply Permutation_sym, sort_perm|exact Hok].
  - apply (sort_ties byGapDesc (fun b => xv (gap b))
             (fun b => index_of (factor b) factors) gap_ok byGapDesc_key).
    + exact Hok.
    + apply kept_sorted. exact Hdecl.
Qed.

Lemma topBlockers_ties_in_declaration_order_witness :
  exists o,
    calculateReadiness log10_sample (inputs_of 1000 40 40 60 60 40) = Some o /\
    map factor (topBlockers o)
    = [ "stableProcess"; "lowExceptions"; "dataQuality"; "systemAccess" ]%string /\
    StronglySorted ranks_before (topBlockers o).
Proof.
  eexists. split; [vm_compute; reflexivity|]. split; [vm_compute; reflexivity|].
  apply (topBlockers_ties_in_declaration_order log10_sample
           (inputs_of 1000 40 40 60 60 40));
    vm_compute; reflexivity.
Defined.

(** ** No blockers *)

(** A gap that does not exceed the threshold leaves the subscore within
    16 points of its maximum. *)
Lemma gap_small (M : Z) (s : number) :
  16 <= M <= 100 -> fin s = true ->
  gtb (sub (of_Z M) s) MIN_GAP_THRESHOLD = false ->
  (M - 16) * u <= xv s.
Proof.
  intros HM F H. apply fin_inv in F. destruct F as [V F].
  destruct (of_Z_spec M ltac:(lia)) as (VM & FM & XM).
  destruct (sub_spec (of_Z M) s VM V FM F) as (Vg & Ng & Xg).
  change (SFsub 53 1024 (of_Z M) s) with (sub (of_Z M) s) in *.
  unfold gtb, ltb, MIN_GAP_THRESHOLD in H.
  rewrite ltb_spec in H; try assumption; try reflexivity.
  assert (E15 : xv (of_Z 15) = 15 * u) by (apply of_Z_spec; cbn; lia).
  rewrite E15, Xg, XM in H. apply Z.ltb_ge in H.
  destruct (Z.le_gt_cases ((M - 16) * u) (xv s)) as [L|L]; [exact L|].
  pose proof (RNs_mono (16 * u) (M * u - xv s) ltac:(lia)) as R.
  rewrite RNs_int in R by (cbn; lia). pose proof u_pos. lia.
Qed.

Lemma firstn_4_nil {A : Type} (l : list A) : firstn 4 l = [] -> l = [].
Proof. destruct l; [reflexivity|discriminate]. Qed.

Lemma filter_nil_inv {A : Type} (keep : A -> bool) (l : list A) (x : A) :
  filter keep l = [] -> In x l -> keep x = false.
Proof.
  intros H Hx. destruct (keep x) eqn:E; [|reflexivity].
  assert (In x (filter keep l)) by (apply filter_In; split; assumption).
  rewrite H in *. contradiction.
Qed.

Section NoBlockers.
Variable Math_log10 : number -> number.

Lemma no_blockers_gaps (i : Inputs) (o : Output) :
  calculateReadiness Math_log10 i = Some o ->
  topBlockers o = [] ->
  forall key, In key factors ->
    gtb (sub (maxScore key) (get (subscores Math_log10 i) key)) MIN_GAP_THRESHOLD
    = false.
Proof.
  intros H HT key Hkey.
  apply calculateReadiness_some in H. destruct H as (all & Hall & ->).
  rewrite allBlockers_eq in Hall.
  apply (f_equal (fun x => match x with Some y => y | None => all end)) in Hall.
  cbn [topBlockers] in HT. unfold selectTop, slice0 in HT.
  apply firstn_4_nil in HT.
  pose proof (sort_perm byGapDesc
                (filter (fun b => gtb (gap b) MIN_GAP_THRESHOLD) all)) as P.
  rewrite HT in P. apply Permutation_nil in P.
  set (b := {| factor := key;
               reason := match lookup key BLOCKER_HINTS with
                         | Some h => Hint.reason h | None => EmptyString end;
               hint := match lookup key BLOCKER_HINTS with
                       | Some h => Hint.hint h | None => EmptyString end;
               gap := sub (maxScore key) (get (subscores Math_log10 i) key);
               subscore := get (subscores Math_log10 i) key |}).
  apply (filter_nil_inv _ all b P).
  rewrite <- Hall. apply in_map_iff. exists key. split; [reflexivity|exact Hkey].
Qed.

(** Without blockers the score is at least 84. *)
Lemma no_blockers_score (i : Inputs) (o : Output) :
  in_domain i = true ->
  log10_defined Math_log10 i = true ->
  calculateReadiness Math_log10 i = Some o ->
  topBlockers o = [] ->
  nle (of_Z 84) (readinessScore o).
Proof.
  intros D HL H HT.
  pose proof (no_blockers_gaps i o H HT) as G.
  apply calculateReadiness_some in H. destruct H as (all & _ & ->).
  cbn [readinessScore].
  unfold log10_defined in HL. cbv zeta in HL. rewrite andb_true_iff in HL.
  destruct HL as [V N].
  apply in_domain_inv in D. destruct D as ((Vp & Lp) & Dv & De & Dd & Ds & Dc).
  apply percent_inv in Dv, De, Dd, Ds, Dc.
  destruct Dv as [_ Dv], De as [_ De], Dd as [_ Dd], Ds as [_ Ds], Dc as [_ Dc].
  assert (R : forall x, nle x (of_Z 100) -> nle x x).
  { intros x (F & _ & B). repeat split; try assumption; lia. }
  destruct (sub_anti (of_Z 100) _ _ (R _ Dv) Dv) as [_ B1].
  destruct (sub_anti (of_Z 100) _ _ (R _ De) De) as [_ B2].
  destruct (sub_anti (of_Z 100) _ _ (R _ Dc) Dc) as [_ B5].
  pose proof (volumeSubscore_range Math_log10 (processVolume i) V N) as B6.
  assert (LB : forall (M : Z) (s b : number),
             16 <= M <= 100 -> nle s b ->
             gtb (sub (of_Z M) s) MIN_GAP_THRESHOLD = false ->
             nle (of_Z (M - 16)) s).
  { intros M s b HM (F & _ & B) HG.
    pose proof (gap_small M s HM F HG) as HS.
    destruct (of_Z_spec (M - 16) ltac:(lia)) as (VM & FM & XM).
    repeat split; try assumption; [apply fin_intro; assumption| |]; rewrite XM;
      pose proof u_pos; nia. }
  pose proof (LB 100 _ _ ltac:(lia) B1
                (G "stableProcess"%string ltac:(cbn; tauto))) as A1.
  pose proof (LB 100 _ _ ltac:(lia) B2
                (G "lowExceptions"%string ltac:(cbn; tauto))) as A2.
  pose proof (LB 100 _ _ ltac:(lia) Dd
                (G "dataQuality"%string ltac:(cbn; tauto))) as A3.
  pose proof (LB 100 _ _ ltac:(lia) Ds
                (G "systemAccess"%string ltac:(cbn; tauto))) as A4.
  pose proof (LB 100 _ _ ltac:(lia) B5
                (G "lowComplianceRisk"%string ltac:(cbn; tauto))) as A5.
  pose proof (LB 95 _ _ ltac:(lia) B6
                (G "volumePotential"%string ltac:(cbn; tauto))) as A6.
  change (100 - 16) with 84 in *. change (95 - 16) with 79 in *.
  rewrite score_weighted.
  destruct (weighted_mono _ _ _ _ _ _ _ _ _ _ _ _
              A1 B1 A2 B2 A3 Dd A4 Ds A5 B5 A6 B6) as [W _].
  apply round_mono in W.
  replace (Math_round (weighted (of_Z 84) (of_Z 84) (of_Z 84) (of_Z 84) (of_Z 84)
                                (of_Z 79))) with (of_Z 84) in W
    by (vm_compute; reflexivity).
  exact W.
Qed.

End NoBlockers.

(** No blocker is rendered as the item that says there is none. *)
Lemma hint_items_differ (key : string) :
  In key factors ->
  ("<strong>"
   ++ match lookup key BLOCKER_HINTS with
      | Some h => Hint.reason h
      | None => EmptyString
      end
   ++ "</strong><span>"
   ++ match lookup key BLOCKER_HINTS with
      | Some h => Hint.hint h
      | None => EmptyString
      end
   ++ "</span>")%string <> no_blockers_item.
Proof.
  unfold factors. cbn [In].
  intros [<-|[<-|[<-|[<-|[<-|[<-|[]]]]]]] E;
    apply String.eqb_eq in E; vm_compute in E; discriminate E.
Qed.

Lemma no_blockers_green (Math_log10 : number -> number) (i : Inputs) (o : Output) :
  in_domain i = true ->
  log10_defined Math_log10 i = true ->
  calculateReadiness Math_log10 i = Some o ->
  topBlockers o = [] ->
  leb (of_Z 84) (readinessScore o) = true /\ band o = "Green"%string /\
  narrative o = narrative_Green.
Proof.
  intros D HL H HT. pose proof (no_blockers_score Math_log10 i o D HL H HT) as S.
  apply calculateReadiness_some in H. destruct H as (all & _ & E).
  assert (R : readinessScore o = Math_round (score Math_log10 i))
    by (rewrite E; reflexivity).
  assert (B : band o = fst (bandOf (Math_round (score Math_log10 i))))
    by (rewrite E; reflexivity).
  assert (N : narrative o = snd (bandOf (Math_round (score Math_log10 i))))
    by (rewrite E; reflexivity).
  rewrite R in S |- *. rewrite B, N. clear E R B N HT.
  split; [exact (nle_leb _ _ S)|].
  destruct S as (F84 & F & X). apply fin_inv in F. destruct F as [V F].
  assert (G : geb (Math_round (score Math_log10 i)) (of_Z 75) = true).
  { destruct (of_Z_spec 75 ltac:(cbn; lia)) as (V75 & F75 & E75).
    assert (E84 : xv (of_Z 84) = 84 * u) by (apply of_Z_spec; cbn; lia).
    unfold geb, leb.
    rewrite (leb_spec _ _ V75 V (finite_nonnan _ F75) (finite_nonnan _ F)).
    rewrite E75. rewrite E84 in X. pose proof u_pos. apply Z.leb_le. nia. }
  unfold bandOf. rewrite G. split; reflexivity.
Qed.

Lemma no_blockers_item_iff (Math_log10 : number -> number) (i : Inputs) (o : Output) :
  calculateReadiness Math_log10 i = Some o ->
  (topBlockers o = [] <-> blockerItems o = [no_blockers_item]).
Proof.
  intros H. split.
  - intros E. unfold blockerItems. rewrite E. reflexivity.
  - intros E. unfold blockerItems in E.
    destruct (topBlockers o) as [|b bs] eqn:HT; [reflexivity|exfalso].
    assert (Hb : In b (topBlockers o)) by (rewrite HT; left; reflexivity).
    apply calculateReadiness_some in H. destruct H as (all & Hall & ->).
    rewrite allBlockers_eq in Hall.
    apply (f_equal (fun x => match x with Some y => y | None => all end)) in Hall.
    cbn [topBlockers] in Hb. apply selectTop_In in Hb. destruct Hb as [Hb _].
    rewrite <- Hall in Hb. apply in_map_iff in Hb.
    destruct Hb as (key & <- & Hkey).
    apply (hint_items_differ key Hkey).
    exact (f_equal (fun l => match l with x :: _ => x | [] => EmptyString end) E).
Qed.

(** X12: on the documented domain an empty blocker list comes only with
    a score of at least 84 and the band Green, so [updateUI] shows its
    item saying that the process is highly ready for automation only
    under a Green score; and it shows that item exactly when the list is
    empty. *)
Theorem no_blockers_only_when_green :
  forall (Math_log10 : number -> number) (i : Inputs) (o : Output),
    in_domain i = true ->
    log10_defined Math_log10 i = true ->
    calculateReadiness Math_log10 i = Some o ->
    (topBlockers o = [] <-> blockerItems o = [no_blockers_item]) /\
    (topBlockers o = [] ->
     leb (of_Z 84) (readinessScore o) = true /\ band o = "Green"%string /\
     narrative o = narrative_Green).
Proof.
  intros L i o D HL H. split.
  - exact (no_blockers_item_iff L i o H).
  - exact (no_blockers_green L i o D HL H).
Qed.
Lemma no_blockers_only_when_green_witness :
  exists o,
    calculateReadiness log10_sample (inputs_of 10000 10 10 90 90 10) = Some o /\
    blockerItems o = [no_blockers_item] /\ band o = "Green"%string.
Proof.
  destruct (calculateReadiness log10_sample (inputs_of 10000 10 10 90 90 10))
    as [o|] eqn:E; [|exfalso; vm_compute in E; discriminate E].
  exists o. split; [reflexivity|].
  assert (D : in_domain (inputs_of 10000 10 10 90 90 10) = true)
    by (vm_compute; reflexivity).
  assert (HL : log10_defined log10_sample (inputs_of 10000 10 10 90 90 10) = true)
    by (vm_compute; reflexivity).
  assert (T : topBlockers o = []).
  { pose proof (f_equal (fun x => match x with
                                  | Some y => topBlockers y
                                  | None => []
                                  end) E) as T.
    vm_compute in T. symmetry. exact T. }
  destruct (no_blockers_only_when_green log10_sample
              (inputs_of 10000 10 10 90 90 10) o D HL E) as [[A _] B].
  split; [exact (A T)|]. apply (B T).
Defined.

(** ** NaN *)

Lemma add_NaN_r (x : number) : add x NaN = NaN.
Proof. destruct x; reflexivity. Qed.

Lemma sub_NaN_r (x : number) : sub x NaN = NaN.
Proof. destruct x; reflexivity. Qed.

Lemma mul_NaN_l (y : number) : mul NaN y = NaN.
Proof. reflexivity. Qed.

Lemma isNaN_inv (x : number) : Number_isNaN x = true -> x = NaN.
Proof. destruct x; try discriminate; reflexivity. Qed.

Lemma weighted_NaN (s1 s2 s3 s4 s5 s6 : number) :
  In NaN [s1; s2; s3; s4; s5; s6] -> weighted s1 s2 s3 s4 s5 s6 = NaN.
Proof.
  cbn [In]. unfold weighted.
  intros [H|[H|[H|[H|[H|[H|[]]]]]]]; subst;
    rewrite mul_NaN_l, ?add_NaN_r; reflexivity.
Qed.

(** X13: a NaN among the inputs is not rejected: the call returns, the
    score is NaN, and since NaN fails both threshold tests the band is
    Red, with the narrative of Red. *)
Theorem NaN_input_gives_red :
  forall (Math_log10 : number -> number) (i : Inputs),
    some_input_NaN Math_log10 i = true ->
    exists o,
      calculateReadiness Math_log10 i = Some o /\
      readinessScore o = NaN /\
      band o = "Red"%string /\
      narrative o = narrative_Red.
Proof.
  intros L i H.
  assert (S : score L i = NaN).
  { rewrite score_weighted. apply weighted_NaN. cbn [In].
    unfold some_input_NaN in H. rewrite !orb_true_iff, andb_true_iff in H.
    destruct H as [[[[[H|H]|H]|H]|H]|[H HL]]; apply isNaN_inv in H.
    - left. rewrite H. apply sub_NaN_r.
    - right. left. rewrite H. apply sub_NaN_r.
    - right. right. left. exact H.
    - right. right. right. left. exact H.
    - right. right. right. right. left. rewrite H. apply sub_NaN_r.
    - right. right. right. right. right. left. apply isNaN_inv in HL.
      rewrite H. unfold volumeSubscore.
      change (leb NaN (of_Z 0)) with false. cbv iota zeta.
      change (add NaN (of_Z 1)) with NaN. rewrite HL.
      change (mul NaN (of_Q (315 # 10))) with NaN.
      vm_compute. reflexivity. }
  rewrite calculateReadiness_eq, allBlockers_eq. eexists. split; [reflexivity|].
  cbn [readinessScore band narrative]. rewrite S.
  split; [reflexivity|]. split; vm_compute; reflexivity.
Qed.

Lemma NaN_input_gives_red_witness :
  exists o,
    calculateReadiness log10_sample
      (mkInputs (of_Z 1000) NaN (of_Z 10) (of_Z 70) (of_Z 60) (of_Z 30)) = Some o /\
    readinessScore o = NaN /\ band o = "Red"%string.
Proof.
  destruct (NaN_input_gives_red log10_sample
              (mkInputs (of_Z 1000) NaN (of_Z 10) (of_Z 70) (of_Z 60) (of_Z 30))
              eq_refl) as (o & A & B & C & _).
  exists o. split; [exact A|]. split; [exact B|exact C].
Defined.

(** ** The gauge *)

Lemma scores_0_100_In (k : Z) : 0 <= k <= 100 -> In k scores_0_100.
Proof.
  intros H. unfold scores_0_100. apply in_map_iff.
  exists (Z.to_nat k). split; [lia|]. apply in_seq. lia.
Qed.

(** An integer score is [-0] or one of the numbers 0 to 100. *)
Lemma integer_score_cases (score : number) (k : Z) :
  is_integer score k -> 0 <= k <= 100 ->
  In score (S754_zero true :: map of_Z scores_0_100).
Proof.
  intros [F X] Hk. apply fin_inv in F. destruct F as [V F].
  destruct (Z.eq_dec k 0) as [->|NZ].
  - destruct score as [s|s| |s m e]; try discriminate.
    + destruct s; [left; reflexivity|right].
      apply in_map_iff. exists 0. split; [reflexivity|].
      apply scores_0_100_In. lia.
    + exfalso. pose proof (pv_bounds _ _ _ V) as B. rewrite xv_finite in X.
      destruct s; cbn [cond_Zopp] in X; lia.
  - right. apply in_map_iff. exists k. split; [|apply scores_0_100_In; exact Hk].
    symmetry. apply xv_of_Z_inj; try assumption. lia.
Qed.

Lemma gaugeAngle_checked :
  let table := map (fun a => (a, gaugeAngle a))
                   (S754_zero true :: map of_Z scores_0_100) in
  forallb (fun p =>
    leb Math_PI (snd p)
    && leb (snd p) (mul (of_Z 2) Math_PI)
    && forallb (fun q => implb (xv (fst p) <=? xv (fst q)) (leb (snd p) (snd q)))
               table)
    table = true.
Proof. vm_compute. reflexivity. Qed.

(** X14: for the integer scores from 0 to 100 the coloured arc of the
    gauge ends between [Math.PI] and [2 * Math.PI], within the grey
    half-circle behind it, at [Math.PI] for 0 and at [2 * Math.PI] for
    100; and a higher score never gives a shorter arc. *)
Theorem gaugeAngle_range :
  forall (score score' : number) (k k' : Z),
    is_integer score k -> is_integer score' k' ->
    0 <= k -> k <= k' -> k' <= 100 ->
    leb Math_PI (gaugeAngle score) = true /\
    leb (gaugeAngle score) (gaugeAngle score') = true /\
    leb (gaugeAngle score') (mul (of_Z 2) Math_PI) = true /\
    gaugeAngle (of_Z 0) = Math_PI /\
    gaugeAngle (of_Z 100) = mul (of_Z 2) Math_PI.
Proof.
  intros s s' k k' I I' H0 H1 H2.
  pose proof (integer_score_cases s k I ltac:(lia)) as C.
  pose proof (integer_score_cases s' k' I' ltac:(lia)) as C'.
  pose proof gaugeAngle_checked as G. cbv zeta in G. rewrite forallb_forall in G.
  apply (in_map (fun a => (a, gaugeAngle a))) in C, C'.
  pose proof (G _ C) as Gs. pose proof (G _ C') as Gs'.
  cbn [fst snd] in Gs, Gs'. rewrite !andb_true_iff in Gs, Gs'.
  destruct Gs as [[A B] P], Gs' as [[A' B'] _].
  rewrite forallb_forall in P. specialize (P _ C'). cbn [fst snd] in P.
  split; [exact A|]. split; [|split; [exact B'|split; vm_compute; reflexivity]].
  assert (L : (xv s <=? xv s') = true).
  { destruct I as [_ X], I' as [_ X']. rewrite X, X'. pose proof u_pos.
    apply Z.leb_le. nia. }
  rewrite L in P. exact P.
Qed.

Lemma gaugeAngle_range_witness :
  leb Math_PI (gaugeAngle (of_Z 30)) = true /\
  leb (gaugeAngle (of_Z 30)) (gaugeAngle (of_Z 80)) = true /\
  leb (gaugeAngle (of_Z 80)) (mul (of_Z 2) Math_PI) = true.
Proof.
  destruct (gaugeAngle_range (of_Z 30) (of_Z 80) 30 80
              (is_integer_of_Z 30 eq_refl) (is_integer_of_Z 80 eq_refl)
              ltac:(lia) ltac:(lia) ltac:(lia)) as (A & B & C & _).
  split; [exact A|]. split; [exact B|exact C].
Defined.

(** ** Running the calculation *)

Section RunFacts.
Variable Number_toString : number -> string.
Variable parseInt10 : string -> number.
Variable inherited : string -> bool.
Variable Math_log10 : number -> number.
Hypothesis parseInt10_valid : forall s, valid (parseInt10 s) = true.

(** On the domain the score is an integer from 0 to 100. *)
Lemma score_in_range (i : Inputs) :
  in_domain i = true -> log10_defined Math_log10 i = true ->
  exists k, is_integer (Math_round (score Math_log10 i)) k /\ 0 <= k <= 100.
Proof.
  intros D HL.
  unfold log10_defined in HL. cbv zeta in HL. rewrite andb_true_iff in HL.
  destruct HL as [V N].
  assert (HM : log10_monotone_at Math_log10 (processVolume i) (processVolume i) = true).
  { unfold log10_monotone_at. rewrite V. cbn [andb].
    unfold leb. rewrite leb_spec by assumption. apply Z.leb_refl. }
  destruct (score_mono Math_log10 i i D D (improves_refl i D) HM) as [_ B].
  pose proof (round_mono _ _ B) as R. rewrite Math_round_top in R.
  destruct B as (Fs & _ & Hs). apply fin_inv in Fs. destruct Fs as [Vs Fs].
  destruct (Math_round_spec _ Vs Fs) as (Vr & Fr & Xr).
  exists ((2 * xv (score Math_log10 i) + u) / (2 * u)).
  split; [split; [apply fin_intro; assumption|exact Xr]|].
  destruct R as (_ & _ & R). rewrite Xr in R.
  assert (E100 : xv (of_Z 100) = 100 * u) by (apply of_Z_spec; cbn; lia).
  rewrite E100 in R. pose proof u_pos. nia.
Qed.

Lemma runCalculation_result (data : list (string * string)) :
  (forall inputs shown,
     getInputsFromForm Number_toString parseInt10 inherited data
     = Some (inputs, shown) ->
     log10_defined Math_log10 (asInputs inputs) = true) ->
  exists inputs o k,
    runCalculation Number_toString parseInt10 inherited Math_log10 data
    = Some (inputs, o) /\
    calculateReadiness Math_log10 (asInputs inputs) = Some o /\
    in_domain (asInputs inputs) = true /\
    is_integer (readinessScore o) k /\ 0 <= k <= 100 /\
    (band o, narrative o) = band_of_int k.
Proof.
  intros HL.
  destruct (getInputsFromForm_result Number_toString parseInt10 inherited
              parseInt10_valid data)
    as (r & k2 & k3 & k4 & k5 & k6 & S & (B2 & B3 & B4 & B5 & B6) & E & _).
  specialize (HL _ _ E).
  remember (mkInputs r (of_Z k2) (of_Z k3) (of_Z k4) (of_Z k5) (of_Z k6)) as i eqn:Ei.
  assert (Ea : asInputs (entries i) = i) by (rewrite Ei; reflexivity).
  rewrite Ea in HL.
  assert (D : in_domain i = true) by (rewrite Ei; apply stored_in_domain; assumption).
  destruct (score_in_range i D HL) as (k & I & Hk).
  destruct (calculateReadiness Math_log10 i) as [o|] eqn:Eo.
  2:{ exfalso. rewrite calculateReadiness_eq, allBlockers_eq in Eo. discriminate Eo. }
  exists (entries i), o, k.
  split; [unfold runCalculation; rewrite E, Ea, Eo; reflexivity|].
  rewrite Ea. split; [exact Eo|]. split; [exact D|].
  apply calculateReadiness_some in Eo. destruct Eo as (all & _ & Eo).
  assert (R : readinessScore o = Math_round (score Math_log10 i))
    by (rewrite Eo; reflexivity).
  assert (B : band o = fst (bandOf (Math_round (score Math_log10 i))))
    by (rewrite Eo; reflexivity).
  assert (N : narrative o = snd (bandOf (Math_round (score Math_log10 i))))
    by (rewrite Eo; reflexivity).
  rewrite R, B, N. split; [exact I|]. split; [exact Hk|].
  rewrite <- (bandOf_integer _ _ I). destruct (bandOf _); reflexivity.
Qed.

End RunFacts.

(** X15: whatever the form holds, [runCalculation] shows a score that
    is an integer from 0 to 100, with the band and narrative of that
    integer (Green from 75, Yellow from 50, Red below), provided
    [Math.log10] returns a number at the volume read plus one. *)
Theorem runCalculation_score_in_range :
  forall (Number_toString : number -> string) (parseInt10 : string -> number)
         (inherited : string -> bool) (Math_log10 : number -> number)
         (data : list (string * string)),
    (forall s, valid (parseInt10 s) = true) ->
    (forall inputs shown,
       getInputsFromForm Number_toString parseInt10 inherited data
       = Some (inputs, shown) ->
       log10_defined Math_log10 (asInputs inputs) = true) ->
    exists inputs o k,
      runCalculation Number_toString parseInt10 inherited Math_log10 data
      = Some (inputs, o) /\
      is_integer (readinessScore o) k /\ 0 <= k <= 100 /\
      (band o, narrative o) = band_of_int k.
Proof.
  intros ts pI inh L data HV HL.
  destruct (runCalculation_result ts pI inh L HV data HL)
    as (inputs & o & k & R & _ & _ & I & Hk & B).
  exists inputs, o, k. split; [exact R|]. split; [exact I|]. split; assumption.
Qed.

Lemma sample_form_read :
  getInputsFromForm toString_sample parseInt_sample (fun _ => false) sample_form
  = Some (entries (inputs_of 5000 100 0 0 60 30),
          map (fun key => (key, ""%string)) (map fst (entries DEFAULT_INPUTS))).
Proof. vm_compute. reflexivity. Qed.

Lemma sample_form_log10 (inputs : list (string * number))
    (shown : list (string * string)) :
  getInputsFromForm toString_sample parseInt_sample (fun _ => false) sample_form
  = Some (inputs, shown) ->
  log10_defined log10_sample (asInputs inputs) = true.
Proof.
  rewrite sample_form_read. intros H.
  pose proof (f_equal (fun x => match x with Some y => fst y | None => inputs end) H)
    as E. cbn [fst] in E. rewrite <- E. vm_compute. reflexivity.
Qed.

Lemma runCalculation_score_in_range_witness :
  exists inputs o k,
    runCalculation toString_sample parseInt_sample (fun _ => false) log10_sample
      sample_form = Some (inputs, o) /\
    is_integer (readinessScore o) k /\ 0 <= k <= 100.
Proof.
  destruct (runCalculation_score_in_range toString_sample parseInt_sample
              (fun _ => false) log10_sample sample_form
              parseInt_sample_valid sample_form_log10)
    as (inputs & o & k & R & I & Hk & _).
  exists inputs, o, k. split; [exact R|]. split; [exact I|exact Hk].
Defined.

(** ** The session *)

Section SessionFacts.
Variable Number_toString : number -> string.
Variable parseInt10 : string -> number.
Variable inherited : string -> bool.
Variable Math_log10 : number -> number.

Lemma calls_run (es : list Effect.t) (w : World.t) :
  Session.calls es w
  = Some (tt, {| World.WEIGHTS := World.WEIGHTS w;
                 World.BLOCKER_HINTS := World.BLOCKER_HINTS w;
                 World.lastInputs := World.lastInputs w;
                 World.lastOutput := World.lastOutput w;
                 World.effects := World.effects w ++ es |}).
Proof.
  revert w. induction es as [|e es IH]; intros w; cbn [Session.calls].
  - unfold Stateful.ret. rewrite app_nil_r. destruct w; reflexivity.
  - unfold Stateful.bind, Session.call. rewrite IH. cbn [World.WEIGHTS
      World.BLOCKER_HINTS World.lastInputs World.lastOutput World.effects].
    rewrite <- app_assoc. reflexivity.
Qed.

Hypothesis parseInt10_valid : forall s, valid (parseInt10 s) = true.

(** One run, step by step. *)
Lemma runCalculation_run (data : list (string * string)) (w : World.t) :
  constants_intact w ->
  exists (w' : World.t) (inputs : list (string * number)) (o : Output),
    Session.runCalculation Number_toString parseInt10 inherited Math_log10 data w
    = Some (tt, w') /\
    constants_intact w' /\
    World.lastInputs w' = inputs /\
    World.lastOutput w' = Some o /\
    calculateReadiness Math_log10 (asInputs inputs) = Some o /\
    World.effects w'
    = World.effects w
      ++ map (fun key => Effect.showValidationError key "")
             (map fst (entries DEFAULT_INPUTS))
      ++ [ Effect.updateUI o;
           Effect.setStateToLocalStorage inputs;
           Effect.setStateToURL inputs;
           Effect.setInputsToForm inputs ].
Proof.
  intros [HW HH].
  destruct (getInputsFromForm_result Number_toString parseInt10 inherited
              parseInt10_valid data)
    as (r & k2 & k3 & k4 & k5 & k6 & _ & _ & E & _).
  remember (mkInputs r (of_Z k2) (of_Z k3) (of_Z k4) (of_Z k5) (of_Z k6)) as i eqn:Ei.
  assert (Ea : asInputs (entries i) = i) by (rewrite Ei; reflexivity).
  destruct (calculateReadiness Math_log10 i) as [o|] eqn:Eo.
  2:{ exfalso. rewrite calculateReadiness_eq, allBlockers_eq in Eo. discriminate Eo. }
  unfold Session.runCalculation, Session.getInputsFromForm.
  unfold Stateful.bind at 1. rewrite E.
  unfold Stateful.bind at 1. rewrite calls_run. unfold Stateful.ret.
  unfold Stateful.bind at 1. rewrite Ea.
  rewrite calculateReadiness_declared by (split; assumption). rewrite Eo.
  unfold Stateful.bind, Session.assign_last, Session.call.
  cbn [World.WEIGHTS World.BLOCKER_HINTS World.lastInputs World.lastOutput
       World.effects].
  eexists. exists (entries i), o.
  split; [reflexivity|]. split; [split; assumption|].
  split; [reflexivity|]. split; [reflexivity|].
  split; [rewrite Ea; exact Eo|].
  cbn [World.effects]. rewrite !map_map. cbn [fst snd].
  rewrite <- !app_assoc. reflexivity.
Qed.

(** The tables stay as declared throughout a session. *)
Lemma runs_intact (forms : list (list (string * string))) :
  forall w : World.t,
    constants_intact w ->
    exists w' : World.t,
      Session.runs Number_toString parseInt10 inherited Math_log10 forms w
      = Some (tt, w') /\
      constants_intact w'.
Proof.
  induction forms as [|data forms IH]; intros w Hw; cbn [Session.runs].
  - exists w. split; [reflexivity|exact Hw].
  - destruct (runCalculation_run data w Hw) as (w1 & _ & _ & R & H1 & _).
    unfold Stateful.bind. rewrite R. apply IH, H1.
Qed.

End SessionFacts.

(** X16: [runCalculation] keeps the module's state consistent.  From a
    state whose tables are as declared it does not throw; it leaves the
    tables as they are, stores in [lastInputs] the inputs read and in
    [lastOutput] the output of [calculateReadiness] for them, and calls,
    in this order, [showValidationError] with the empty message for each
    of the six fields, [updateUI] with that output, and
    [setStateToLocalStorage], [setStateToURL] and [setInputsToForm] with
    those inputs. *)
Theorem runCalculation_keeps_state :
  forall (Number_toString : number -> string) (parseInt10 : string -> number)
         (inherited : string -> bool) (Math_log10 : number -> number)
         (data : list (string * string)) (w : World.t),
    (forall s, valid (parseInt10 s) = true) ->
    constants_intact w ->
    exists (w' : World.t) (inputs : list (string * number)) (o : Output),
      Session.runCalculation Number_toString parseInt10 inherited Math_log10 data w
      = Some (tt, w') /\
      constants_intact w' /\
      World.lastInputs w' = inputs /\
      World.lastOutput w' = Some o /\
      calculateReadiness Math_log10 (asInputs inputs) = Some o /\
      World.effects w'
      = World.effects w
        ++ map (fun key => Effect.showValidationError key "")
               (map fst (entries DEFAULT_INPUTS))
        ++ [ Effect.updateUI o;
             Effect.setStateToLocalStorage inputs;
             Effect.setStateToURL inputs;
             Effect.setInputsToForm inputs ].
Proof.
  intros ts pI inh L data w HV Hw.
  exact (runCalculation_run ts pI inh L HV data w Hw).
Qed.

Lemma runCalculation_keeps_state_witness :
  exists (w' : World.t) (o : Output),
    Session.runCalculation toString_sample parseInt_sample (fun _ => false)
      log10_sample sample_form initial_world = Some (tt, w') /\
    constants_intact w' /\
    World.lastOutput w' = Some o.
Proof.
  destruct (runCalculation_keeps_state toString_sample parseInt_sample
              (fun _ => false) log10_sample sample_form initial_world
              parseInt_sample_valid (conj eq_refl eq_refl))
    as (w' & inputs & o & R & C & _ & O & _).
  exists w', o. split; [exact R|]. split; [exact C|exact O].
Defined.

(** X17: in every state a session reaches from the initial one, however
    many times [runCalculation] has run and whatever the form held, the
    two tables are as declared, and a call of [calculateReadiness]
    returns the output of the function of the inputs alone and leaves
    the state as it is. *)
Theorem session_keeps_calculateReadiness_pure :
  forall (Number_toString : number -> string) (parseInt10 : string -> number)
         (inherited : string -> bool) (Math_log10 : number -> number)
         (forms : list (list (string * string))),
    (forall s, valid (parseInt10 s) = true) ->
    exists w : World.t,
      Session.runs Number_toString parseInt10 inherited Math_log10 forms
        initial_world = Some (tt, w) /\
      constants_intact w /\
      forall i : Inputs,
        exists o : Output,
          Stateful.calculateReadiness Math_log10 i w = Some (o, w) /\
          calculateReadiness Math_log10 i = Some o.
Proof.
  intros ts pI inh L forms HV.
  destruct (runs_intact ts pI inh L HV forms initial_world (conj eq_refl eq_refl))
    as (w & R & Hw).
  exists w. split; [exact R|]. split; [exact Hw|].
  intros i. rewrite (calculateReadiness_declared L i w Hw).
  rewrite calculateReadiness_eq, allBlockers_eq. eexists. split; reflexivity.
Qed.

Lemma session_keeps_calculateReadiness_pure_witness :
  exists w : World.t,
    Session.runs toString_sample parseInt_sample (fun _ => false) log10_sample
      [sample_form; stored_form] initial_world = Some (tt, w) /\
    constants_intact w.
Proof.
  destruct (session_keeps_calculateReadiness_pure toString_sample parseInt_sample
              (fun _ => false) log10_sample [sample_form; stored_form]
              parseInt_sample_valid) as (w & R & C & _).
  exists w. split; [exact R|exact C].
Defined.
